(** * Offline-first task sync engine: a shallow embedding of
      [SyncService] (services/syncService.ts) and [TaskService]
      (services/taskService.ts), with the properties of the sync engine
      stated against it.

    Layout: data model, JavaScript helpers, the world and the effect
    monad, the database, the two services, the notions the properties are
    stated with, the lemmas, the properties (C1 to C10), and their
    instances on a sample environment. *)

From stdpp Require Import gmap strings list pretty.
From Stdlib Require Import ZArith Lia Ascii.

(** ** Data model

    Modelled from the spec: types.ts is not among the sources.  The fields
    are those of section 3 of the spec, under the names
    [TaskService.createTask] and [SyncService.addToSyncQueue] write. *)

Inductive SyncStatus := StPending | StSynced | StError.
Inductive Operation := OpCreate | OpUpdate | OpDelete.

Global Instance SyncStatus_eq_dec : EqDecision SyncStatus.
Proof. solve_decision. Defined.
Global Instance Operation_eq_dec : EqDecision Operation.
Proof. solve_decision. Defined.

Module Task.
Record t := mk {
  id : string;
  title : string;
  description : string;
  completed : bool;
  isDeleted : bool;
  createdAt : string;
  updatedAt : string;
  syncStatus : SyncStatus;
  lastSyncedAt : option string;
  serverId : option string
}.

Definition set_isDeleted (b : bool) (k : t) : t :=
  mk (id k) (title k) (description k) (completed k) b (createdAt k)
     (updatedAt k) (syncStatus k) (lastSyncedAt k) (serverId k).
Definition set_updatedAt (s : string) (k : t) : t :=
  mk (id k) (title k) (description k) (completed k) (isDeleted k)
     (createdAt k) s (syncStatus k) (lastSyncedAt k) (serverId k).
Definition set_syncStatus (s : SyncStatus) (k : t) : t :=
  mk (id k) (title k) (description k) (completed k) (isDeleted k)
     (createdAt k) (updatedAt k) s (lastSyncedAt k) (serverId k).
End Task.

(** [Partial<Task>]: every field may be absent. *)
Module PartialTask.
Record t := mk {
  id : option string;
  title : option string;
  description : option string;
  completed : option bool;
  isDeleted : option bool;
  createdAt : option string;
  updatedAt : option string;
  syncStatus : option SyncStatus;
  lastSyncedAt : option (option string);
  serverId : option (option string)
}.

Definition empty : t :=
  mk None None None None None None None None None None.

(** A [Task] passed where a [Partial<Task>] is expected. *)
Definition of_task (k : Task.t) : t :=
  mk (Some (Task.id k)) (Some (Task.title k)) (Some (Task.description k))
     (Some (Task.completed k)) (Some (Task.isDeleted k))
     (Some (Task.createdAt k)) (Some (Task.updatedAt k))
     (Some (Task.syncStatus k)) (Some (Task.lastSyncedAt k))
     (Some (Task.serverId k)).
End PartialTask.

Module SyncQueueItem.
Record t := mk {
  id : string;
  taskId : string;
  operation : Operation;
  data : string;
  retryCount : Z;
  lastError : option string;
  createdAt : string
}.

Definition set_retryCount (n : Z) (q : t) : t :=
  mk (id q) (taskId q) (operation q) (data q) n (lastError q) (createdAt q).

Definition set_retry (n : Z) (e : string) (q : t) : t :=
  mk (id q) (taskId q) (operation q) (data q) n (Some e) (createdAt q).
End SyncQueueItem.

(** The value [JSON.parse] yields. *)
#[local] Unset Elimination Schemes.
Inductive JSValue :=
| JNull
| JBool (b : bool)
| JNum (n : Z)
| JStr (s : string)
| JArr (xs : list JSValue)
| JObj (fields : list (string * JSValue)).
#[local] Set Elimination Schemes.

Module SyncRequestItem.
Record t := mk { taskId : string; operation : Operation; data : JSValue }.
End SyncRequestItem.

(** One entry of [BatchSyncResponse.results]. *)
Module BatchResult.
Record t := mk {
  taskId : string;
  success : bool;
  serverData : option PartialTask.t;
  error : option string
}.
End BatchResult.

Record BatchSyncRequest := { items : list SyncRequestItem.t }.
Record BatchSyncResponse := { results : list BatchResult.t }.

Module SyncResult.
Record t := mk { successCount : Z; errorCount : Z; total : Z }.
End SyncResult.

(** ** JavaScript helpers *)

(** A JavaScript number that is an integer or [NaN] ([None]).  Counters
    and indices of the engine stay far below 2^53, where doubles are
    exact. *)
Definition jsnum := option Z.

Definition js_add (a b : jsnum) : jsnum :=
  match a, b with
  | Some x, Some y => Some (x + y)%Z
  | _, _ => None
  end.

(** [a < b]: false as soon as one side is [NaN]. *)
Definition js_lt (a b : jsnum) : bool :=
  match a, b with
  | Some x, Some y => (x <? y)%Z
  | _, _ => false
  end.

(** [a > b]. *)
Definition js_gt (a b : jsnum) : bool := js_lt b a.

(** [ToIntegerOrInfinity]. *)
Definition to_integer (a : jsnum) : Z :=
  match a with Some x => x | None => 0%Z end.

(** The relative index of [Array.prototype.slice], clamped to [0..len]. *)
Definition clamp_index (len : nat) (rel : Z) : nat :=
  if (rel <? 0)%Z then Z.to_nat (Z.max (Z.of_nat len + rel) 0)
  else Z.to_nat (Z.min rel (Z.of_nat len)).

(** [arr.slice(start, end)]. *)
Definition slice {A} (arr : list A) (start stop : jsnum) : list A :=
  let k := clamp_index (length arr) (to_integer start) in
  let final := clamp_index (length arr) (to_integer stop) in
  take (final - k) (drop k arr).

(** Truthiness of a string: [''] is falsy. *)
Definition truthy (s : string) : bool :=
  match s with EmptyString => false | _ => true end.

(** [a || b] on an optional string. *)
Definition or_else (a : option string) (b : string) : string :=
  match a with
  | Some s => if truthy s then s else b
  | None => b
  end.

Definition is_space (c : ascii) : bool :=
  let n := nat_of_ascii c in
  existsb (Nat.eqb n) [32; 9; 10; 11; 12; 13]%nat.

Definition digit_of (c : ascii) : option Z :=
  let n := nat_of_ascii c in
  if ((48 <=? n)%nat && (n <=? 57)%nat)%bool then Some (Z.of_nat (n - 48)) else None.

Fixpoint skip_spaces (s : string) : string :=
  match s with
  | String c r => if is_space c then skip_spaces r else s
  | EmptyString => s
  end.

(** The longest prefix of decimal digits, read left to right. *)
Fixpoint read_digits (s : string) (acc : jsnum) : jsnum :=
  match s with
  | String c r =>
      match digit_of c with
      | Some d => read_digits r (Some (10 * to_integer acc + d)%Z)
      | None => acc
      end
  | EmptyString => acc
  end.

(** [parseInt(s, 10)] on an ASCII string. *)
Definition parseInt (s : string) : jsnum :=
  match skip_spaces s with
  | String "-"%char r => option_map Z.opp (read_digits r None)
  | String "+"%char r => read_digits r None
  | r => read_digits r None
  end.

(** ** The world

    Everything a call can read or write: the two stores behind the
    [Database] object, the objects and local variables of the running
    [sync()], how far the clock and the UUID source have been read, the
    requests posted and the lines logged. *)

Record World := mkWorld {
  tasks : gmap string Task.t;          (* Record Store *)
  sync_queue : list SyncQueueItem.t;   (* Queue Store, in insertion order *)
  heap : list SyncQueueItem.t;         (* item objects of the running sync() *)
  successCount : Z;                    (* local variable of the running sync() *)
  errorCount : Z;                      (* local variable of the running sync() *)
  dates : nat;                         (* [new Date()] evaluated so far *)
  uuids : nat;                         (* UUIDs drawn so far *)
  posts : list BatchSyncRequest;       (* [axios.post] calls issued so far *)
  console : list string                (* lines written by [console.log] *)
}.

Definition set_tasks (f : gmap string Task.t -> gmap string Task.t) (w : World) : World :=
  mkWorld (f (tasks w)) (sync_queue w) (heap w) (successCount w) (errorCount w)
          (dates w) (uuids w) (posts w) (console w).
Definition set_sync_queue (f : list SyncQueueItem.t -> list SyncQueueItem.t) (w : World) : World :=
  mkWorld (tasks w) (f (sync_queue w)) (heap w) (successCount w) (errorCount w)
          (dates w) (uuids w) (posts w) (console w).
Definition set_heap (f : list SyncQueueItem.t -> list SyncQueueItem.t) (w : World) : World :=
  mkWorld (tasks w) (sync_queue w) (f (heap w)) (successCount w) (errorCount w)
          (dates w) (uuids w) (posts w) (console w).
Definition set_successCount (f : Z -> Z) (w : World) : World :=
  mkWorld (tasks w) (sync_queue w) (heap w) (f (successCount w)) (errorCount w)
          (dates w) (uuids w) (posts w) (console w).
Definition set_errorCount (f : Z -> Z) (w : World) : World :=
  mkWorld (tasks w) (sync_queue w) (heap w) (successCount w) (f (errorCount w))
          (dates w) (uuids w) (posts w) (console w).
Definition set_dates (f : nat -> nat) (w : World) : World :=
  mkWorld (tasks w) (sync_queue w) (heap w) (successCount w) (errorCount w)
          (f (dates w)) (uuids w) (posts w) (console w).
Definition set_uuids (f : nat -> nat) (w : World) : World :=
  mkWorld (tasks w) (sync_queue w) (heap w) (successCount w) (errorCount w)
          (dates w) (f (uuids w)) (posts w) (console w).
Definition set_posts (f : list BatchSyncRequest -> list BatchSyncRequest) (w : World) : World :=
  mkWorld (tasks w) (sync_queue w) (heap w) (successCount w) (errorCount w)
          (dates w) (uuids w) (f (posts w)) (console w).
Definition set_console (f : list string -> list string) (w : World) : World :=
  mkWorld (tasks w) (sync_queue w) (heap w) (successCount w) (errorCount w)
          (dates w) (uuids w) (posts w) (f (console w)).

(** How a call ends: with a value, with a thrown error, or not at all
    (the loop of [sync] ran out of the steps it was given). *)
Inductive completion (A : Type) : Type :=
| Normal (a : A)
| Throw (message : string)
| Diverge.
Arguments Normal {A} a.
Arguments Throw {A} message.
Arguments Diverge {A}.

Definition IO (A : Type) : Type := World -> completion A * World.

Definition ret {A} (a : A) : IO A := fun w => (Normal a, w).

Definition bind {A B} (m : IO A) (k : A -> IO B) : IO B :=
  fun w =>
    match m w with
    | (Normal a, w') => k a w'
    | (Throw e, w') => (Throw e, w')
    | (Diverge, w') => (Diverge, w')
    end.

Definition throw {A} (message : string) : IO A := fun w => (Throw message, w).

(** [try { body } catch (err) { handler(err.message) }]. *)
Definition try_catch {A} (body : IO A) (handler : string -> IO A) : IO A :=
  fun w =>
    match body w with
    | (Throw e, w') => handler e w'
    | r => r
    end.

Definition modify (f : World -> World) : IO unit := fun w => (Normal tt, f w).
Definition gets {A} (f : World -> A) : IO A := fun w => (Normal (f w), w).

Notation "x <- m ;; k" := (bind m (fun x => k))
  (at level 100, m at next level, right associativity).
Notation "m ;;; k" := (bind m (fun _ => k))
  (at level 100, right associativity).

(** [for (const x of xs) body(x)]. *)
Fixpoint for_of {A} (xs : list A) (body : A -> IO unit) : IO unit :=
  match xs with
  | [] => ret tt
  | x :: rest => body x ;;; for_of rest body
  end.

(** *** Database *)

(** Modelled from the spec: the [Database] class (db/database.ts) is not
    among the sources.  The names are the ones the two services call; what
    each call does is taken from section 6 of the spec (Record Store:
    [getById], [update]; Queue Store: [listPending], [insert],
    [updateRetry(id, retryCount, lastError)], [deleteByTaskId(taskId)]). *)
Module Database.
(** Modelled from the spec: [getById(id) -> Task|absent]. *)
Definition getTaskById (id : string) : IO (option Task.t) :=
  gets (fun w => tasks w !! id).

(** Modelled from the spec: every record of the Record Store. *)
Definition getAllTasks : IO (list Task.t) :=
  gets (fun w => (map_to_list (tasks w)).*2).

(** Modelled from the spec: the records whose syncStatus is one of
    [statuses]. *)
Definition getTasksByStatus (statuses : list SyncStatus) : IO (list Task.t) :=
  gets (fun w =>
    List.filter (fun k => bool_decide (Task.syncStatus k ∈ statuses))
                (map_to_list (tasks w)).*2).

(** Modelled from the spec: a new record, stored under its id. *)
Definition insertTask (k : Task.t) : IO unit :=
  modify (set_tasks (fun m => <[Task.id k := k]> m)).

(** Modelled from the spec: [update(id, Task)], the record stored under
    [id] is replaced. *)
Definition updateTask (id : string) (k : Task.t) : IO unit :=
  modify (set_tasks (fun m =>
    match m !! id with Some _ => <[id := k]> m | None => m end)).

(** Modelled from the spec: what [updateRetry] does to one entry. *)
Definition update_retry (id : string) (n : Z) (e : string)
    (q : SyncQueueItem.t) : SyncQueueItem.t :=
  if decide (SyncQueueItem.id q = id) then SyncQueueItem.set_retry n e q else q.

(** Modelled from the spec: the entries [deleteByTaskId] keeps. *)
Definition other_task (taskId : string) (q : SyncQueueItem.t) : bool :=
  bool_decide (SyncQueueItem.taskId q <> taskId).

(** Modelled from the spec: [listPending() -> [SyncQueueItem]].  The rows
    become the item objects of the caller, and the result is the array of
    references to them; the objects of an earlier call are unreachable by
    then and are dropped. *)
Definition getSyncQueueItems : IO (list nat) :=
  fun w =>
    (Normal (seq 0 (length (sync_queue w))),
     set_heap (fun _ => sync_queue w) w).

(** Modelled from the spec: [insert(item)], the queue is append-only. *)
Definition insertSyncQueueItem (q : SyncQueueItem.t) : IO unit :=
  modify (set_sync_queue (fun l => l ++ [q])).

(** Modelled from the spec: [updateRetry(id, retryCount, lastError)]. *)
Definition updateSyncQueueItem (id : string) (n : Z) (e : string) : IO unit :=
  modify (set_sync_queue (fun l => update_retry id n e <$> l)).

(** Modelled from the spec: [deleteByTaskId(taskId)]. *)
Definition removeFromSyncQueue (taskId : string) : IO unit :=
  modify (set_sync_queue (fun l => List.filter (other_task taskId) l)).
End Database.

(** *** axios

    axios is an external library.  A request rejects when no reply arrives
    within [timeout] milliseconds ([timeout = 0] waits for ever), on a
    network error, and on a status outside 2xx (the default
    [validateStatus]). *)
Inductive HttpReply :=
| Reply (status : Z) (elapsed_ms : Z)
| NetworkError (message : string)
| NoReply.

Definition status_ok (status : Z) : bool :=
  ((200 <=? status) && (status <? 300))%Z.

Definition axios_get (timeout : Z) (r : HttpReply) : IO Z :=
  match r with
  | Reply status ms =>
      if ((0 <? timeout) && (timeout <? ms))%Z then throw "timeout exceeded"
      else if status_ok status then ret status
      else throw "Request failed"
  | NetworkError m => throw m
  | NoReply =>
      if (0 <? timeout)%Z then throw "timeout exceeded"
      else fun w => (Diverge, w)
  end.

(** ** The services *)

Record SyncService := mkSyncService { apiUrl : string; batchSize : jsnum }.

(** The constructor of [SyncService]; [env] is [process.env] and [url] the
    optional third argument. *)
Definition new_SyncService (env : string -> option string)
    (url : option string) : SyncService :=
  {| apiUrl :=
       match url with
       | Some u => u
       | None => or_else (env "API_BASE_URL"%string) "http://localhost:3000/api"
       end;
     batchSize := parseInt (or_else (env "SYNC_BATCH_SIZE"%string) "10") |}.

(** [{...task, ...updates}]. *)
Definition spread (task : Task.t) (updates : PartialTask.t) : Task.t :=
  Task.mk
    (default (Task.id task) (PartialTask.id updates))
    (default (Task.title task) (PartialTask.title updates))
    (default (Task.description task) (PartialTask.description updates))
    (default (Task.completed task) (PartialTask.completed updates))
    (default (Task.isDeleted task) (PartialTask.isDeleted updates))
    (default (Task.createdAt task) (PartialTask.createdAt updates))
    (default (Task.updatedAt task) (PartialTask.updatedAt updates))
    (default (Task.syncStatus task) (PartialTask.syncStatus updates))
    (default (Task.lastSyncedAt task) (PartialTask.lastSyncedAt updates))
    (default (Task.serverId task) (PartialTask.serverId updates)).

(** The [updates] object [updateSyncStatus] builds. *)
Definition status_updates (status : SyncStatus) (now : string)
    (serverData : option PartialTask.t) : PartialTask.t :=
  PartialTask.mk None None None None None None None
    (Some status) (Some (Some now))
    (match serverData with
     | Some sd =>
         match PartialTask.id sd with
         | Some i => if truthy i then Some (Some i) else None
         | None => None
         end
     | None => None
     end).

(** [item.retryCount += 1] on the object behind a reference. *)
Definition bump_retryCount (q : SyncQueueItem.t) : SyncQueueItem.t :=
  SyncQueueItem.set_retryCount (SyncQueueItem.retryCount q + 1)%Z q.

(** Reading the object behind a reference. *)
Definition deref (item : nat) : IO SyncQueueItem.t :=
  fun w =>
    match heap w !! item with
    | Some q => (Normal q, w)
    | None => (Throw "dangling reference", w)
    end.

(** [arr.map(f)] with an effectful [f]. *)
Fixpoint map_io {A B} (f : A -> IO B) (xs : list A) : IO (list B) :=
  match xs with
  | [] => ret []
  | x :: rest => y <- f x ;; ys <- map_io f rest ;; ret (y :: ys)
  end.

(** ** The trigger surface (routes/sync.ts): what a handler answers *)

(** One entry of the [results] the demo batch endpoint answers with. *)
Module EchoResult.
Record t := mk { taskId : string; success : bool; serverData : JSValue }.
End EchoResult.

Inductive ResponseBody :=
| ErrorBody (error : string) (details : option string)
| SyncCompletedBody (message : string) (result : SyncResult.t)
| BatchBody (results : list EchoResult.t).

(** [res.status(code).json(body)]; [res.json(body)] answers with 200. *)
Record HttpResponse := { status_code : Z; body : ResponseBody }.

(** The own enumerable properties [{...v}] copies, in order: the fields of
    an object, the indexed elements of an array or the indexed characters
    of a string, and nothing for the other values. *)
Fixpoint indexed_from (n : nat) (xs : list JSValue) : list (string * JSValue) :=
  match xs with
  | [] => []
  | x :: rest => (pretty n, x) :: indexed_from (S n) rest
  end.

Definition own_properties (v : JSValue) : list (string * JSValue) :=
  match v with
  | JObj fields => fields
  | JArr xs => indexed_from 0 xs
  | JStr s =>
      indexed_from 0
        ((fun c => JStr (String c EmptyString)) <$> String.list_ascii_of_string s)
  | _ => []
  end.

(** [{...fields, key: v}]: the value of an existing key is replaced where
    it stands, a new key goes last. *)
Fixpoint set_property (key : string) (v : JSValue)
    (fields : list (string * JSValue)) : list (string * JSValue) :=
  match fields with
  | [] => [(key, v)]
  | (k, x) :: rest =>
      if decide (k = key) then (k, v) :: rest
      else (k, x) :: set_property key v rest
  end.

(** [obj[key]] on the fields of an object. *)
Fixpoint get_property (key : string) (fields : list (string * JSValue))
    : option JSValue :=
  match fields with
  | [] => None
  | (k, x) :: rest => if decide (k = key) then Some x else get_property key rest
  end.

(** ** A sample environment, for the examples at the end *)

Module Sample.
Definition toISOString (n : nat) : string := "2024-05-01T10:00:0" +:+ pretty n.
Definition randomUUID (n : nat) : string := "uuid-" +:+ pretty n.
Definition JSON_stringify (_ : PartialTask.t) : string := "{}".
Definition JSON_parse (_ : string) : JSValue + string := inl (JObj []).

(** Timestamps written as epoch milliseconds. *)
Definition Date_parse (s : string) : jsnum := parseInt s.

(** An endpoint that is down, and one that accepts every item. *)
Definition post_down (_ : nat) (_ : BatchSyncRequest)
    : BatchSyncResponse + string :=
  inr "Network Error"%string.
Definition post_accept (_ : nat) (request : BatchSyncRequest)
    : BatchSyncResponse + string :=
  inl {| results :=
           (fun it => BatchResult.mk (SyncRequestItem.taskId it) true None None)
             <$> items request |}.

Definition task (id updatedAt : string) (status : SyncStatus) : Task.t :=
  Task.mk id "Buy milk" EmptyString false false "1000" updatedAt status None None.

Definition item (id taskId : string) (retryCount : Z) : SyncQueueItem.t :=
  SyncQueueItem.mk id taskId OpUpdate "{}" retryCount None "1000".

Definition world (records : list Task.t) (queue : list SyncQueueItem.t) : World :=
  mkWorld (list_to_map ((fun k => (Task.id k, k)) <$> records)) queue
          [] 0 0 0 0 [] [].

(** A world in the middle of a sync: the item objects are loaded. *)
Definition syncing (records : list Task.t) (queue : list SyncQueueItem.t) : World :=
  set_heap (fun _ => queue) (world records queue).

Definition service (batchSize : Z) : SyncService :=
  mkSyncService "http://localhost:3000/api" (Some batchSize).

(** Three operations of three tasks. *)
Definition three_queued : list SyncQueueItem.t :=
  [item "q1" "t1" 0; item "q2" "t2" 1; item "q3" "t3" 0].

(** Two operations of one task, the first one failure away from the
    ceiling. *)
Definition same_task_queued : list SyncQueueItem.t :=
  [item "q1" "t1" 3; item "q2" "t1" 0].

(** A parser that accepts the empty object only. *)
Definition JSON_parse_strict (s : string) : JSValue + string :=
  if decide (s = "{}"%string) then inl (JObj [])
  else inr "Unexpected token"%string.

(** An operation whose data is not JSON. *)
Definition broken_item (id taskId : string) : SyncQueueItem.t :=
  SyncQueueItem.mk id taskId OpUpdate "{oops" 0 None "1000".

(** An endpoint that rejects task t1 twice in every answer, and one that
    rejects a task nobody asked about. *)
Definition post_reject_twice (_ : nat) (_ : BatchSyncRequest)
    : BatchSyncResponse + string :=
  inl {| results := [BatchResult.mk "t1" false None (Some "conflict"%string);
                     BatchResult.mk "t1" false None None] |}.
Definition post_reject_unknown (_ : nat) (_ : BatchSyncRequest)
    : BatchSyncResponse + string :=
  inl {| results := [BatchResult.mk "t9" false None None] |}.

(** A health endpoint that answers in 12 ms, and one that is unreachable. *)
Definition http_up (_ : string) : HttpReply := Reply 200 12.
Definition http_down (_ : string) : HttpReply := NetworkError "ECONNREFUSED".

(** An environment without any of the variables the services read. *)
Definition env (_ : string) : option string := None.

Definition live_record : Task.t := task "t1" "1000" StSynced.
Definition deleted_record : Task.t := Task.set_isDeleted true (task "t2" "1000" StSynced).
End Sample.

Section Services.
(** The environment the services run in. *)
Variable toISOString : nat -> string.      (* the n-th [new Date().toISOString()] *)
Variable randomUUID : nat -> string.       (* the n-th UUID *)
Variable JSON_stringify : PartialTask.t -> string.
Variable JSON_parse : string -> JSValue + string.   (* [inr]: the SyntaxError message *)
Variable axios_post : nat -> BatchSyncRequest -> BatchSyncResponse + string.
                                           (* the n-th POST; [inr]: it rejects *)
Variable http_get : string -> HttpReply.   (* what a GET of the URL meets *)
Variable Date_parse : string -> jsnum.     (* time value of [new Date(s)] *)

Definition new_Date_toISOString : IO string :=
  fun w => (Normal (toISOString (dates w)), set_dates S w).

Definition crypto_randomUUID : IO string :=
  fun w => (Normal (randomUUID (uuids w)), set_uuids S w).

Definition uuidv4 : IO string := crypto_randomUUID.

Definition console_log (line : string) : IO unit :=
  modify (set_console (fun l => l ++ [line])).

(** *** SyncService.addToSyncQueue *)
Definition addToSyncQueue (taskId : string) (operation : Operation)
    (data : PartialTask.t) : IO unit :=
  id <- crypto_randomUUID ;;
  createdAt <- new_Date_toISOString ;;
  let queueItem :=
    SyncQueueItem.mk id taskId operation (JSON_stringify data) 0 None createdAt in
  Database.insertSyncQueueItem queueItem.

(** *** TaskService *)
Definition createTask (taskData : PartialTask.t) : IO Task.t :=
  now <- new_Date_toISOString ;;
  id <- uuidv4 ;;
  let task :=
    Task.mk id
      (or_else (PartialTask.title taskData) "Untitled Task")
      (or_else (PartialTask.description taskData) EmptyString)
      false false now now StPending None None in
  Database.insertTask task ;;;
  addToSyncQueue (Task.id task) OpCreate (PartialTask.of_task task) ;;;
  ret task.

Definition updateTask (id : string) (updates : PartialTask.t)
    : IO (option Task.t) :=
  task <- Database.getTaskById id ;;
  match task with
  | None => ret None
  | Some task =>
      if Task.isDeleted task then ret None
      else
        now <- new_Date_toISOString ;;
        let updated :=
          Task.set_syncStatus StPending
            (Task.set_updatedAt now (spread task updates)) in
        Database.updateTask id updated ;;;
        addToSyncQueue id OpUpdate (PartialTask.of_task updated) ;;;
        ret (Some updated)
  end.

Definition deleteTask (id : string) : IO bool :=
  task <- Database.getTaskById id ;;
  match task with
  | None => ret false
  | Some task =>
      if Task.isDeleted task then ret false
      else
        now <- new_Date_toISOString ;;
        let updated :=
          Task.set_syncStatus StPending
            (Task.set_updatedAt now (Task.set_isDeleted true task)) in
        Database.updateTask id updated ;;;
        addToSyncQueue id OpDelete (PartialTask.of_task updated) ;;;
        ret true
  end.

Definition getTask (id : string) : IO (option Task.t) :=
  task <- Database.getTaskById id ;;
  match task with
  | None => ret None
  | Some task => if Task.isDeleted task then ret None else ret (Some task)
  end.

Definition getAllTasks : IO (list Task.t) :=
  tasks <- Database.getAllTasks ;;
  ret (List.filter (fun t => negb (Task.isDeleted t)) tasks).

Definition getTasksNeedingSync : IO (list Task.t) :=
  Database.getTasksByStatus [StPending; StError].

(** *** SyncService *)

(** The request goes to [`${apiUrl}/tasks/sync`]; it is logged in [posts]
    whether it is answered or rejected. *)
Definition processBatch (this : SyncService) (items : list nat)
    : IO BatchSyncResponse :=
  request_items <-
    map_io (fun item =>
      it <- deref item ;;
      match JSON_parse (SyncQueueItem.data it) with
      | inl v =>
          ret (SyncRequestItem.mk (SyncQueueItem.taskId it)
                 (SyncQueueItem.operation it) v)
      | inr e => throw e
      end) items ;;
  let request := {| items := request_items |} in
  fun w =>
    match axios_post (length (posts w)) request with
    | inl data => (Normal data, set_posts (fun l => l ++ [request]) w)
    | inr e => (Throw e, set_posts (fun l => l ++ [request]) w)
    end.

Definition resolveConflict (localTask serverTask : Task.t) : IO Task.t :=
  if js_gt (Date_parse (Task.updatedAt localTask))
           (Date_parse (Task.updatedAt serverTask))
  then
    console_log ("Conflict resolved: keeping local version for task "
                 +:+ Task.id localTask) ;;;
    ret localTask
  else
    console_log ("Conflict resolved: keeping server version for task "
                 +:+ Task.id serverTask) ;;;
    ret serverTask.

Definition updateSyncStatus (taskId : string) (status : SyncStatus)
    (serverData : option PartialTask.t) : IO unit :=
  now <- new_Date_toISOString ;;
  let updates := status_updates status now serverData in
  updateTask taskId updates ;;;
  if decide (status = StSynced) then Database.removeFromSyncQueue taskId
  else ret tt.

(** [item] is the reference to the item object, [error_message] the
    [message] of the [Error] handed in. *)
Definition handleSyncError (item : nat) (error_message : string) : IO unit :=
  modify (set_heap (alter bump_retryCount item)) ;;;
  it <- deref item ;;
  Database.updateSyncQueueItem (SyncQueueItem.id it)
    (SyncQueueItem.retryCount it) error_message ;;;
  if (3 <? SyncQueueItem.retryCount it)%Z then
    updateSyncStatus (SyncQueueItem.taskId it) StError None ;;;
    Database.removeFromSyncQueue (SyncQueueItem.taskId it)
  else ret tt.

(** [batch.find((it) => it.taskId === taskId)]. *)
Definition find_by_taskId (batch : list nat) (taskId : string)
    : IO (option nat) :=
  gets (fun w =>
    List.find (fun r =>
      match heap w !! r with
      | Some q => bool_decide (SyncQueueItem.taskId q = taskId)
      | None => false
      end) batch).

(** The body of the [for] loop of [sync]: one batch. *)
Definition sync_batch (this : SyncService) (batch : list nat) : IO unit :=
  try_catch
    (response <- processBatch this batch ;;
     for_of (results response) (fun res =>
       if BatchResult.success res then
         updateSyncStatus (BatchResult.taskId res) StSynced
           (BatchResult.serverData res) ;;;
         modify (set_successCount (fun n => n + 1)%Z)
       else
         item <- find_by_taskId batch (BatchResult.taskId res) ;;
         match item with
         | Some item =>
             handleSyncError item (or_else (BatchResult.error res) "Sync error")
         | None => ret tt
         end ;;;
         modify (set_errorCount (fun n => n + 1)%Z)))
    (fun err =>
       for_of batch (fun item => handleSyncError item err) ;;;
       modify (set_errorCount (fun n => n + Z.of_nat (length batch))%Z)).

(** [for (let i = 0; i < queueItems.length; i += this.batchSize)]; each
    unit of [fuel] pays for one test of the loop condition. *)
Fixpoint sync_loop (this : SyncService) (fuel : nat) (queueItems : list nat)
    (i : jsnum) : IO unit :=
  match fuel with
  | O => fun w => (Diverge, w)
  | S fuel' =>
      if js_lt i (Some (Z.of_nat (length queueItems))) then
        let batch := slice queueItems i (js_add i (batchSize this)) in
        sync_batch this batch ;;;
        sync_loop this fuel' queueItems (js_add i (batchSize this))
      else ret tt
  end.

Definition sync (this : SyncService) (fuel : nat) : IO SyncResult.t :=
  queueItems <- Database.getSyncQueueItems ;;
  modify (set_successCount (fun _ => 0%Z)) ;;;
  modify (set_errorCount (fun _ => 0%Z)) ;;;
  sync_loop this fuel queueItems (Some 0%Z) ;;;
  s <- gets successCount ;;
  e <- gets errorCount ;;
  ret (SyncResult.mk s e (Z.of_nat (length queueItems))).

Definition checkConnectivity (this : SyncService) : IO bool :=
  try_catch
    (axios_get 5000 (http_get (apiUrl this +:+ "/health")) ;;; ret true)
    (fun _ => ret false).



(** *** The router (routes/sync.ts) *)

(** The [SyncService] that [createSyncRouter] builds: no URL is handed in,
    so all of its configuration comes from the environment. *)
Definition router_syncService (env : string -> option string) : SyncService :=
  new_SyncService env None.

(** [console.error(label, err)], the error rendered by its message. *)
Definition console_error (label message : string) : IO unit :=
  modify (set_console (fun l => l ++ [label +:+ " " +:+ message])).

(** [POST /sync]. *)
Definition post_sync (env : string -> option string) (fuel : nat)
    : IO HttpResponse :=
  let syncService := router_syncService env in
  try_catch
    (connected <- checkConnectivity syncService ;;
     if negb connected then
       ret {| status_code := 503;
              body := ErrorBody "Server not reachable" None |}
     else
       result <- sync syncService fuel ;;
       ret {| status_code := 200;
              body := SyncCompletedBody "Sync completed" result |})
    (fun message =>
       console_error "Sync failed:" message ;;;
       ret {| status_code := 500;
              body := ErrorBody "Sync failed" (Some message) |}).

(** [POST /batch], the demo endpoint, on a body whose [items], when
    present, is the array of request items [processBatch] sends. *)
Definition post_batch (items : option (list SyncRequestItem.t))
    : IO HttpResponse :=
  try_catch
    (match items with
     | None =>
         ret {| status_code := 400; body := ErrorBody "No items provided" None |}
     | Some items =>
         let results :=
           (fun it =>
              EchoResult.mk (SyncRequestItem.taskId it) true
                (JObj (set_property "id" (JStr (SyncRequestItem.taskId it))
                         (own_properties (SyncRequestItem.data it)))))
             <$> items in
         ret {| status_code := 200; body := BatchBody results |}
     end)
    (fun message =>
       ret {| status_code := 500;
              body := ErrorBody "Batch sync failed" (Some message) |}).
(** ** Notions used to state the properties *)

(** [returns m w Q]: run from [w], the call [m] returns normally, with a
    value and a world that satisfy [Q]. *)
Definition returns {A} (m : IO A) (w : World) (Q : A -> World -> Prop) : Prop :=
  exists a w', m w = (Normal a, w') /\ Q a w'.

(** The fields of a queue item that no operation of the engine writes. *)
Definition static (q : SyncQueueItem.t)
    : string * string * Operation * string * string :=
  (SyncQueueItem.id q, SyncQueueItem.taskId q, SyncQueueItem.operation q,
   SyncQueueItem.data q, SyncQueueItem.createdAt q).

(** The record [TaskService.updateTask] stores. *)
Definition updated_task (task : Task.t) (updates : PartialTask.t)
    (now : string) : Task.t :=
  Task.set_syncStatus StPending (Task.set_updatedAt now (spread task updates)).

(** The queue entry [addToSyncQueue] builds in world [w]. *)
Definition fresh_entry (taskId : string) (operation : Operation)
    (data : PartialTask.t) (w : World) : SyncQueueItem.t :=
  SyncQueueItem.mk (randomUUID (uuids w)) taskId operation
    (JSON_stringify data) 0 None (toISOString (dates w)).

(** A record that [updateTask] accepts: present and not soft-deleted. *)
Definition live (w : World) (id : string) (task : Task.t) : Prop :=
  tasks w !! id = Some task /\ Task.isDeleted task = false.

(** The queue after [handleSyncError] ran for the item object [q] (already
    incremented) with [message]. *)
Definition queue_after_error (q : SyncQueueItem.t) (message : string)
    (l : list SyncQueueItem.t) : list SyncQueueItem.t :=
  let l1 :=
    Database.update_retry (SyncQueueItem.id q) (SyncQueueItem.retryCount q)
      message <$> l in
  if (3 <? SyncQueueItem.retryCount q)%Z
  then List.filter (Database.other_task (SyncQueueItem.taskId q)) l1
  else l1.

(** The queue item parses: [JSON.parse(item.data)] returns. *)
Definition parses (q : SyncQueueItem.t) : Prop :=
  exists v, JSON_parse (SyncQueueItem.data q) = inl v.

(** The request entry [processBatch] builds for an item that parses. *)
Definition request_item (q : SyncQueueItem.t) : SyncRequestItem.t :=
  SyncRequestItem.mk (SyncQueueItem.taskId q) (SyncQueueItem.operation q)
    (match JSON_parse (SyncQueueItem.data q) with
     | inl v => v
     | inr _ => JNull
     end).

(** The objects behind the references of a batch. *)
Definition objects (h : list SyncQueueItem.t) (batch : list nat)
    : list SyncQueueItem.t :=
  omap (fun r => h !! r) batch.

Definition batch_request (h : list SyncQueueItem.t) (batch : list nat)
    : BatchSyncRequest :=
  {| items := request_item <$> objects h batch |}.

(** Every reference of the batch points to an object that parses. *)
Definition sendable (h : list SyncQueueItem.t) (batch : list nat) : Prop :=
  forall r, r ∈ batch -> exists q, h !! r = Some q /\ parses q.

(** The entries that carry [id] hold [retryCount = n], [lastError = e]. *)
Definition persisted (id : string) (n : Z) (e : string)
    (l : list SyncQueueItem.t) : Prop :=
  forall q', q' ∈ l -> SyncQueueItem.id q' = id ->
    SyncQueueItem.retryCount q' = n /\ SyncQueueItem.lastError q' = Some e.

(** [ceil(n / b)] on integers. *)
Definition ceil_div (n b : Z) : Z := ((n + b - 1) / b)%Z.

(** The batch the loop cuts at index [i]. *)
Definition batch_at (this : SyncService) (n : nat) (i : Z) : list nat :=
  slice (seq 0 n) (Some i) (js_add (Some i) (batchSize this)).

(** What the loop has posted when its counter stands at [i]. *)
Definition posted (B : Z) (h0 : list SyncQueueItem.t)
    (before : list BatchSyncRequest) (i : Z) (w : World) : Prop :=
  static <$> heap w = static <$> h0 /\
  exists new,
    posts w = before ++ new /\
    (Z.of_nat (length new) * B = i)%Z /\
    Forall (fun p => (Z.of_nat (length (items p)) <= B)%Z) new /\
    concat (items <$> new) = request_item <$> take (Z.to_nat i) h0.

(** The world in which the loop of [sync] starts. *)
Definition sync_start (w : World) : World :=
  set_errorCount (fun _ => 0%Z)
    (set_successCount (fun _ => 0%Z) (set_heap (fun _ => sync_queue w) w)).

(** Since the POST number [before], the endpoint reported a success for
    [taskId]. *)
Definition confirmed_since (before : nat) (w : World) (taskId : string) : Prop :=
  exists n request response res,
    before <= n /\ posts w !! n = Some request /\
    axios_post n request = inl response /\
    res ∈ results response /\
    BatchResult.success res = true /\ BatchResult.taskId res = taskId.

(** An item object of [taskId] stands past the retry ceiling. *)
Definition exhausted (w : World) (taskId : string) : Prop :=
  exists r h,
    heap w !! r = Some h /\ SyncQueueItem.taskId h = taskId /\
    (3 < SyncQueueItem.retryCount h)%Z.

(** The state of a running sync that started from the queue [l0]. *)
Definition queue_inv (l0 : list SyncQueueItem.t) (before : nat) (w : World)
    : Prop :=
  static <$> heap w = static <$> l0 /\
  (forall r q h, l0 !! r = Some q -> heap w !! r = Some h ->
     (SyncQueueItem.retryCount q <= SyncQueueItem.retryCount h)%Z) /\
  (forall q', q' ∈ sync_queue w ->
     exists r q h,
       l0 !! r = Some q /\ heap w !! r = Some h /\ static q' = static q /\
       (SyncQueueItem.retryCount q <= SyncQueueItem.retryCount q'
          <= SyncQueueItem.retryCount h)%Z) /\
  (forall q, q ∈ l0 ->
     (exists q', q' ∈ sync_queue w /\ static q' = static q) \/
     confirmed_since before w (SyncQueueItem.taskId q) \/
     exhausted w (SyncQueueItem.taskId q)).

(** The claim on abandoning, as the spec words it: an entry of the queue
    of [w] that is gone from the queue of [w'], in a sync in which nothing
    was confirmed, belongs to an item whose own retryCount exceeds the
    ceiling. *)
Definition abandoned_only_past_ceiling (w w' : World) : Prop :=
  forall r q,
    sync_queue w !! r = Some q ->
    (forall q', q' ∈ sync_queue w' -> SyncQueueItem.id q' <> SyncQueueItem.id q) ->
    exists h, heap w' !! r = Some h /\ (3 < SyncQueueItem.retryCount h)%Z.

(** The claim on purity, as the spec words it: the call leaves the world
    as it found it. *)
Definition side_effect_free {A} (m : IO A) (w : World) : Prop :=
  snd (m w) = w.


(** The part of a record that belongs to its user: everything but the sync
    metadata ([updatedAt], [syncStatus], [lastSyncedAt], [serverId]). *)
Definition content (k : Task.t)
    : string * string * string * bool * bool * string :=
  (Task.id k, Task.title k, Task.description k, Task.completed k,
   Task.isDeleted k, Task.createdAt k).

(** The body of the loop over [response.results] in [sync]. *)
Definition handle_result (batch : list nat) (res : BatchResult.t) : IO unit :=
  if BatchResult.success res then
    updateSyncStatus (BatchResult.taskId res) StSynced
      (BatchResult.serverData res) ;;;
    modify (set_successCount (fun n => n + 1)%Z)
  else
    item <- find_by_taskId batch (BatchResult.taskId res) ;;
    match item with
    | Some item =>
        handleSyncError item (or_else (BatchResult.error res) "Sync error")
    | None => ret tt
    end ;;;
    modify (set_errorCount (fun n => n + 1)%Z).

(** The [catch] block of [sync]. *)
Definition fail_batch (batch : list nat) (err : string) : IO unit :=
  for_of batch (fun item => handleSyncError item err) ;;;
  modify (set_errorCount (fun n => n + Z.of_nat (length batch))%Z).

(** The item [batch.find] picks for [taskId], given the item objects [h]:
    the first reference of the batch whose object carries the taskId. *)
Definition first_with_taskId (h : list SyncQueueItem.t) (batch : list nat)
    (taskId : string) : option nat :=
  List.find (fun r =>
    match h !! r with
    | Some q => bool_decide (SyncQueueItem.taskId q = taskId)
    | None => false
    end) batch.

(** An endpoint that answers every request with one success per item, in
    the order of the items. *)
Definition accepts_everything : Prop :=
  forall n request,
    exists response,
      axios_post n request = inl response /\
      BatchResult.taskId <$> results response
        = SyncRequestItem.taskId <$> items request /\
      Forall (fun res => BatchResult.success res = true) (results response).

(** An endpoint that refuses every request. *)
Definition endpoint_down : Prop :=
  forall n request, exists e, axios_post n request = inr e.

(** The entries that carry [id] hold [retryCount = n]. *)
Definition counted (id : string) (n : Z) (l : list SyncQueueItem.t) : Prop :=
  forall q', q' ∈ l -> SyncQueueItem.id q' = id -> SyncQueueItem.retryCount q' = n.

(** A sync that started from the queue [l0] has failed the items before
    position [c], each once, and no other: what the item objects and the
    queue look like then. *)
Definition charged (l0 : list SyncQueueItem.t) (c : nat) (w : World) : Prop :=
  (forall r, heap w !! r =
     if decide (r < c) then bump_retryCount <$> l0 !! r else l0 !! r) /\
  static <$> sync_queue w `sublist_of` static <$> l0 /\
  (forall r q, r < c -> l0 !! r = Some q ->
     counted (SyncQueueItem.id q) (SyncQueueItem.retryCount q + 1) (sync_queue w) /\
     ((3 <= SyncQueueItem.retryCount q)%Z ->
      forall q', q' ∈ sync_queue w ->
        SyncQueueItem.taskId q' <> SyncQueueItem.taskId q)) /\
  (forall q, q ∈ l0 ->
     (exists q', q' ∈ sync_queue w /\ static q' = static q) \/
     exists r q0, r < c /\ l0 !! r = Some q0 /\
       SyncQueueItem.taskId q0 = SyncQueueItem.taskId q /\
       (3 <= SyncQueueItem.retryCount q0)%Z).

(** ** Reasoning about calls that return *)

Lemma returns_ret {A} (a : A) w (Q : A -> World -> Prop) :
  Q a w -> returns (ret a) w Q.
Proof. intros HQ. exists a, w. split; [reflexivity | exact HQ]. Qed.

Lemma returns_bind {A B} (m : IO A) (k : A -> IO B) w (Q : B -> World -> Prop) :
  returns m w (fun a w1 => returns (k a) w1 Q) -> returns (bind m k) w Q.
Proof.
  intros (a & w1 & Hm & b & w2 & Hk & HQ).
  exists b, w2. split; [ | exact HQ].
  unfold bind. rewrite Hm. exact Hk.
Qed.

Lemma returns_mono {A} (m : IO A) w (Q Q' : A -> World -> Prop) :
  returns m w Q -> (forall a w', Q a w' -> Q' a w') -> returns m w Q'.
Proof. intros (a & w' & Hm & HQ) Himp. exists a, w'. eauto. Qed.

Lemma returns_modify f w (Q : unit -> World -> Prop) :
  Q tt (f w) -> returns (modify f) w Q.
Proof. intros HQ. exists tt, (f w). split; [reflexivity | exact HQ]. Qed.

Lemma returns_gets {A} (f : World -> A) w (Q : A -> World -> Prop) :
  Q (f w) w -> returns (gets f) w Q.
Proof. intros HQ. exists (f w), w. split; [reflexivity | exact HQ]. Qed.

(** A loop body that keeps an invariant keeps it over the whole loop. *)
Lemma returns_for_of {A} (I : World -> Prop) (body : A -> IO unit) xs :
  (forall x w, x ∈ xs -> I w -> returns (body x) w (fun _ w' => I w')) ->
  forall w, I w -> returns (for_of xs body) w (fun _ w' => I w').
Proof.
  induction xs as [ | x rest IH]; intros Hbody w HI; simpl.
  - apply returns_ret. exact HI.
  - apply returns_bind.
    eapply returns_mono.
    + apply Hbody; [left | exact HI].
    + intros u w1 HI1. apply IH; [ | exact HI1].
      intros y w2 Hy. apply Hbody. right. exact Hy.
Qed.

(** ** What each operation does to the world *)

Lemma addToSyncQueue_run taskId operation data w :
  addToSyncQueue taskId operation data w =
  (Normal tt,
   set_sync_queue (fun l => l ++ [fresh_entry taskId operation data w])
     (set_dates S (set_uuids S w))).
Proof. reflexivity. Qed.

Lemma updateTask_live id updates w task :
  live w id task ->
  updateTask id updates w =
  (let now := toISOString (dates w) in
   let updated := updated_task task updates now in
   let w1 := set_tasks (fun m => <[id := updated]> m) (set_dates S w) in
   (Normal (Some updated),
    set_sync_queue
      (fun l => l ++ [fresh_entry id OpUpdate (PartialTask.of_task updated) w1])
      (set_dates S (set_uuids S w1)))).
Proof.
  intros [Hget Hlive].
  unfold updateTask, bind, Database.getTaskById, gets. simpl.
  rewrite Hget, Hlive. simpl.
  unfold Database.updateTask, modify, set_tasks. simpl.
  rewrite Hget. reflexivity.
Qed.

Lemma updateTask_absent id updates w :
  tasks w !! id = None -> updateTask id updates w = (Normal None, w).
Proof.
  intros Hget. unfold updateTask, bind, Database.getTaskById, gets. simpl.
  rewrite Hget. reflexivity.
Qed.

Lemma updateTask_deleted id updates w task :
  tasks w !! id = Some task -> Task.isDeleted task = true ->
  updateTask id updates w = (Normal None, w).
Proof.
  intros Hget Hdel. unfold updateTask, bind, Database.getTaskById, gets. simpl.
  rewrite Hget, Hdel. reflexivity.
Qed.

(** Whatever the record, [updateTask] returns, leaves the objects of the
    running sync, its counters, the POST log and the console alone, and
    only appends to the queue entries of the task it was called for. *)
Lemma updateTask_frame id updates w :
  returns (updateTask id updates) w (fun _ w' =>
    heap w' = heap w /\ posts w' = posts w /\ console w' = console w /\
    successCount w' = successCount w /\ errorCount w' = errorCount w /\
    (sync_queue w' = sync_queue w \/
     exists q, sync_queue w' = sync_queue w ++ [q] /\
               SyncQueueItem.taskId q = id /\ SyncQueueItem.retryCount q = 0%Z)).
Proof.
  destruct (tasks w !! id) as [task | ] eqn:Hget.
  - destruct (Task.isDeleted task) eqn:Hdel.
    + eexists _, _. split; [eapply updateTask_deleted; eassumption | ].
      repeat split; auto.
    + eexists _, _. split; [apply (updateTask_live id updates w task); split; assumption | ].
      simpl. repeat split; auto. right. eexists. split; [reflexivity | ].
      split; reflexivity.
  - eexists _, _. split; [apply updateTask_absent; assumption | ].
    repeat split; auto.
Qed.

Lemma filter_other_task_snoc taskId l q :
  SyncQueueItem.taskId q = taskId ->
  List.filter (Database.other_task taskId) (l ++ [q]) =
  List.filter (Database.other_task taskId) l.
Proof.
  intros Hq. rewrite List.filter_app. simpl.
  unfold Database.other_task at 2.
  rewrite bool_decide_eq_false_2 by (intros Hne; apply Hne; exact Hq).
  apply app_nil_r.
Qed.

Lemma updateSyncStatus_frame taskId status serverData w :
  returns (updateSyncStatus taskId status serverData) w (fun _ w' =>
    heap w' = heap w /\ posts w' = posts w /\ console w' = console w /\
    successCount w' = successCount w /\ errorCount w' = errorCount w /\
    if decide (status = StSynced)
    then sync_queue w' =
         List.filter (Database.other_task taskId) (sync_queue w)
    else sync_queue w' = sync_queue w \/
         exists q, sync_queue w' = sync_queue w ++ [q] /\
                   SyncQueueItem.taskId q = taskId /\
                   SyncQueueItem.retryCount q = 0%Z).
Proof.
  unfold updateSyncStatus. apply returns_bind.
  exists (toISOString (dates w)), (set_dates S w). split; [reflexivity | ].
  apply returns_bind.
  eapply returns_mono; [apply updateTask_frame | ].
  intros r w1 (Hh & Hp & Hc & Hs & He & Hq). simpl in *.
  destruct (decide (status = StSynced)) as [Hst | Hst].
  - apply returns_modify. simpl.
    repeat split; try assumption.
    destruct Hq as [Hq | (q & Hq & Ht & _)]; rewrite Hq.
    + reflexivity.
    + apply filter_other_task_snoc. exact Ht.
  - apply returns_ret. repeat split; assumption.
Qed.

(** The record after a status propagation: the status handed in is
    overwritten by [updateTask]. *)
Lemma updateSyncStatus_live taskId status serverData w task :
  live w taskId task ->
  returns (updateSyncStatus taskId status serverData) w (fun _ w' =>
    tasks w' =
    <[taskId :=
        updated_task task
          (status_updates status (toISOString (dates w)) serverData)
          (toISOString (S (dates w)))]> (tasks w)).
Proof.
  intros Hlive. unfold updateSyncStatus. apply returns_bind.
  exists (toISOString (dates w)), (set_dates S w). split; [reflexivity | ].
  apply returns_bind.
  eexists _, _. split.
  - apply (updateTask_live taskId _ (set_dates S w) task). exact Hlive.
  - simpl. destruct (decide (status = StSynced)).
    + apply returns_modify. reflexivity.
    + apply returns_ret. reflexivity.
Qed.

Lemma handleSyncError_frame item message w q :
  heap w !! item = Some q ->
  returns (handleSyncError item message) w (fun _ w' =>
    heap w' = alter bump_retryCount item (heap w) /\
    posts w' = posts w /\ console w' = console w /\
    successCount w' = successCount w /\ errorCount w' = errorCount w /\
    sync_queue w' =
    queue_after_error (bump_retryCount q) message (sync_queue w)).
Proof.
  intros Hq. unfold handleSyncError.
  apply returns_bind, returns_modify.
  apply returns_bind.
  exists (bump_retryCount q), (set_heap (alter bump_retryCount item) w).
  split.
  { unfold deref. simpl. rewrite list_lookup_alter_eq, Hq. reflexivity. }
  apply returns_bind, returns_modify.
  unfold queue_after_error.
  destruct (3 <? SyncQueueItem.retryCount (bump_retryCount q))%Z eqn:Hceil.
  - apply returns_bind.
    eapply returns_mono; [apply updateSyncStatus_frame | ].
    intros u w1 (Hh & Hp & Hc & Hs & He & Hqueue). simpl in *.
    apply returns_modify. simpl.
    repeat split; try assumption.
    destruct Hqueue as [Hqueue | (q' & Hqueue & Ht & _)]; rewrite Hqueue.
    + reflexivity.
    + apply filter_other_task_snoc. exact Ht.
  - apply returns_ret. simpl. repeat split; reflexivity.
Qed.

(** ** One batch *)

Lemma static_bump q : static (bump_retryCount q) = static q.
Proof. reflexivity. Qed.

Lemma static_alter_bump (item : nat) (h : list SyncQueueItem.t) :
  static <$> alter bump_retryCount item h = static <$> h.
Proof.
  rewrite (list_fmap_alter static bump_retryCount (fun s => s)).
  - apply list_alter_id. reflexivity.
  - apply Forall_forall. intros q _. apply static_bump.
Qed.

Lemma static_lookup (h h' : list SyncQueueItem.t) (r : nat) q' :
  static <$> h' = static <$> h -> h' !! r = Some q' ->
  exists q, h !! r = Some q /\ static q = static q'.
Proof.
  intros Heq Hr.
  assert (Hs : (static <$> h) !! r = Some (static q')).
  { rewrite <- Heq, list_lookup_fmap, Hr. reflexivity. }
  rewrite list_lookup_fmap in Hs.
  destruct (h !! r) as [q | ]; simpl in Hs; [ | discriminate].
  exists q. split; [reflexivity | congruence].
Qed.

Lemma static_parses q q' : static q = static q' -> parses q -> parses q'.
Proof.
  unfold static, parses. intros Heq [v Hv]. exists v.
  replace (SyncQueueItem.data q') with (SyncQueueItem.data q) by congruence.
  exact Hv.
Qed.

Lemma static_request_item q q' :
  static q = static q' -> request_item q = request_item q'.
Proof.
  unfold static, request_item. intros Heq.
  replace (SyncQueueItem.data q') with (SyncQueueItem.data q) by congruence.
  replace (SyncQueueItem.taskId q') with (SyncQueueItem.taskId q) by congruence.
  replace (SyncQueueItem.operation q') with (SyncQueueItem.operation q) by congruence.
  reflexivity.
Qed.

Lemma static_sendable (h h' : list SyncQueueItem.t) batch :
  static <$> h' = static <$> h -> sendable h batch -> sendable h' batch.
Proof.
  intros Heq Hs r Hr. destruct (Hs r Hr) as (q & Hq & Hp).
  destruct (static_lookup h' h r q (eq_sym Heq) Hq) as (q' & Hq' & Hst).
  exists q'. split; [exact Hq' | ]. eapply static_parses; [ | exact Hp].
  symmetry. exact Hst.
Qed.

Lemma static_batch_request (h h' : list SyncQueueItem.t) batch :
  static <$> h' = static <$> h ->
  batch_request h' batch = batch_request h batch.
Proof.
  intros Heq. unfold batch_request, objects. f_equal.
  induction batch as [ | r rest IH]; [reflexivity | ].
  csimpl. destruct (h' !! r) as [q' | ] eqn:Hr'.
  - destruct (static_lookup h h' r q' Heq Hr') as (q & Hr & Hst).
    rewrite Hr. csimpl. f_equal; [ | exact IH].
    symmetry. apply static_request_item. exact Hst.
  - destruct (h !! r) as [q | ] eqn:Hr; [ | exact IH].
    destruct (static_lookup h' h r q (eq_sym Heq) Hr) as (q' & Hq' & _).
    congruence.
Qed.

Lemma sendable_cons h r rest :
  sendable h (r :: rest) ->
  (exists q, h !! r = Some q /\ parses q) /\ sendable h rest.
Proof.
  intros Hs. split.
  - apply Hs. left.
  - intros r' Hr'. apply Hs. right. exact Hr'.
Qed.

(** Building the request reads the objects and changes nothing. *)
Lemma request_items_run batch w :
  sendable (heap w) batch ->
  map_io (fun item =>
    it <- deref item ;;
    match JSON_parse (SyncQueueItem.data it) with
    | inl v =>
        ret (SyncRequestItem.mk (SyncQueueItem.taskId it)
               (SyncQueueItem.operation it) v)
    | inr e => throw e
    end) batch w =
  (Normal (request_item <$> objects (heap w) batch), w).
Proof.
  induction batch as [ | r rest IH]; intros Hs; [reflexivity | ].
  apply sendable_cons in Hs. destruct Hs as [(q & Hq & v & Hv) Hrest].
  cbn [map_io]. unfold objects. cbn [omap list_omap]. rewrite Hq.
  fold (objects (heap w) rest).
  unfold bind at 1. unfold bind at 1. unfold deref at 1.
  rewrite Hq, Hv. unfold ret at 1.
  unfold bind at 1. rewrite (IH Hrest).
  unfold ret. cbn [fmap list_fmap]. unfold request_item.
  rewrite Hv. reflexivity.
Qed.

Lemma processBatch_run this batch w :
  sendable (heap w) batch ->
  processBatch this batch w =
  (match axios_post (length (posts w)) (batch_request (heap w) batch) with
   | inl data => Normal data
   | inr e => Throw e
   end,
   set_posts (fun l => l ++ [batch_request (heap w) batch]) w).
Proof.
  intros Hs. unfold processBatch. unfold bind at 1.
  rewrite (request_items_run batch w Hs).
  fold (batch_request (heap w) batch).
  destruct (axios_post _ _); reflexivity.
Qed.

Lemma returns_try_catch {A} (body : IO A) handler w (Q : A -> World -> Prop) :
  (exists c w1, body w = (c, w1) /\
     match c with
     | Normal a => Q a w1
     | Throw e => returns (handler e) w1 Q
     | Diverge => False
     end) ->
  returns (try_catch body handler) w Q.
Proof.
  intros (c & w1 & Hbody & Hc). unfold returns, try_catch. rewrite Hbody.
  destruct c as [a | e | ]; [ | exact Hc | contradiction].
  exists a, w1. split; [reflexivity | exact Hc].
Qed.

Lemma find_by_taskId_run batch taskId w :
  exists r, find_by_taskId batch taskId w = (Normal r, w) /\
    match r with
    | Some item =>
        item ∈ batch /\
        exists q, heap w !! item = Some q /\ SyncQueueItem.taskId q = taskId
    | None => True
    end.
Proof.
  unfold find_by_taskId, gets. eexists. split; [reflexivity | ].
  match goal with |- match ?f with _ => _ end => destruct f as [item | ] eqn:Hfind end;
    [ | exact I].
  apply List.find_some in Hfind. destruct Hfind as [Hin Htest].
  split; [apply list_elem_of_In; exact Hin | ].
  destruct (heap w !! item) as [q | ]; [ | discriminate].
  exists q. split; [reflexivity | ].
  apply bool_decide_eq_true_1 in Htest. exact Htest.
Qed.

(** A property of the world that the two per-item steps keep, and that
    does not read the counters, holds after a whole batch. *)
Lemma sync_batch_invariant this batch (Inv : World -> Prop) w :
  (forall w f, Inv w -> Inv (set_successCount f w)) ->
  (forall w f, Inv w -> Inv (set_errorCount f w)) ->
  (forall w1 response res,
     axios_post (length (posts w)) (batch_request (heap w) batch) = inl response ->
     res ∈ results response -> BatchResult.success res = true -> Inv w1 ->
     returns (updateSyncStatus (BatchResult.taskId res) StSynced
                (BatchResult.serverData res)) w1
       (fun _ w' => Inv w')) ->
  (forall w item message q, item ∈ batch -> heap w !! item = Some q -> Inv w ->
     returns (handleSyncError item message) w (fun _ w' => Inv w')) ->
  (forall w r, Inv w -> r ∈ batch -> is_Some (heap w !! r)) ->
  sendable (heap w) batch ->
  Inv (set_posts (fun l => l ++ [batch_request (heap w) batch]) w) ->
  returns (sync_batch this batch) w (fun _ w' => Inv w').
Proof.
  intros Hsucc Herr Hstatus Hhandle Hrefs Hsend Hinit.
  unfold sync_batch. apply returns_try_catch.
  unfold bind at 1. rewrite (processBatch_run this batch w Hsend).
  set (w1 := set_posts _ w) in *.
  destruct (axios_post _ _) as [response | e] eqn:Hpost.
  - assert (Hloop : returns
      (for_of (results response) (fun res =>
         if BatchResult.success res then
           updateSyncStatus (BatchResult.taskId res) StSynced
             (BatchResult.serverData res) ;;;
           modify (set_successCount (fun n => n + 1)%Z)
         else
           item <- find_by_taskId batch (BatchResult.taskId res) ;;
           match item with
           | Some item =>
               handleSyncError item (or_else (BatchResult.error res) "Sync error")
           | None => ret tt
           end ;;;
           modify (set_errorCount (fun n => n + 1)%Z))) w1
      (fun _ w' => Inv w')).
    { apply returns_for_of; [ | exact Hinit].
      intros res w2 Hres HI2. destruct (BatchResult.success res) eqn:Hsuccess.
      - apply returns_bind.
        eapply returns_mono;
          [apply (Hstatus w2 response res eq_refl Hres Hsuccess HI2) | ].
        intros u w3 HI3. apply returns_modify. apply Hsucc. exact HI3.
      - apply returns_bind.
        destruct (find_by_taskId_run batch (BatchResult.taskId res) w2)
          as (r & Hrun & Hr).
        exists r, w2. split; [exact Hrun | ].
        apply returns_bind.
        assert (Hstep : returns
          (match r with
           | Some item =>
               handleSyncError item (or_else (BatchResult.error res) "Sync error")
           | None => ret tt
           end) w2 (fun _ w' => Inv w')).
        { destruct r as [item | ].
          - destruct Hr as (Hin & q & Hq & _).
            eapply Hhandle; eassumption.
          - apply returns_ret. exact HI2. }
        eapply returns_mono; [exact Hstep | ].
        intros u w3 HI3. apply returns_modify. apply Herr. exact HI3. }
    destruct Hloop as (u & w' & Hrun & HI').
    exists (Normal u), w'. split; [exact Hrun | exact HI'].
  - exists (Throw e), w1. split; [reflexivity | ].
    apply returns_bind.
    eapply returns_mono.
    + apply (returns_for_of Inv); [ | exact Hinit].
      intros item w2 Hin HI2.
      destruct (Hrefs w2 item HI2 Hin) as [q Hq].
      eapply Hhandle; eassumption.
    + intros u w2 HI2. apply returns_modify. apply Herr. exact HI2.
Qed.

(** The frame of a batch: the objects keep their identity, exactly one
    request is posted, and the console is left alone. *)
Lemma sync_batch_frame this batch w :
  sendable (heap w) batch ->
  returns (sync_batch this batch) w (fun _ w' =>
    static <$> heap w' = static <$> heap w /\
    posts w' = posts w ++ [batch_request (heap w) batch] /\
    console w' = console w).
Proof.
  intros Hsend.
  apply (sync_batch_invariant this batch (fun w' =>
    static <$> heap w' = static <$> heap w /\
    posts w' = posts w ++ [batch_request (heap w) batch] /\
    console w' = console w)).
  - intros w1 f H. exact H.
  - intros w1 f H. exact H.
  - intros w1 response res _ _ _ (Hh & Hp & Hc).
    eapply returns_mono; [apply updateSyncStatus_frame | ].
    intros u w2 (Hh2 & Hp2 & Hc2 & _). simpl in *.
    rewrite Hh2, Hp2, Hc2. repeat split; assumption.
  - intros w1 item message q _ Hq (Hh & Hp & Hc).
    eapply returns_mono; [apply (handleSyncError_frame item message w1 q Hq) | ].
    intros u w2 (Hh2 & Hp2 & Hc2 & _). simpl in *.
    rewrite Hh2, Hp2, Hc2, static_alter_bump. repeat split; assumption.
  - intros w1 r (Hh & _) Hr. destruct (Hsend r Hr) as (q & Hq & _).
    destruct (static_lookup (heap w1) (heap w) r q (eq_sym Hh) Hq) as (q' & Hq' & _).
    exists q'. exact Hq'.
  - exact Hsend.
  - repeat split; reflexivity.
Qed.

(** ** A batch whose transport fails *)

(** Building the request leaves the world alone, whether or not an item
    fails to parse. *)
Lemma request_items_world batch w :
  exists c,
    map_io (fun item =>
      it <- deref item ;;
      match JSON_parse (SyncQueueItem.data it) with
      | inl v =>
          ret (SyncRequestItem.mk (SyncQueueItem.taskId it)
                 (SyncQueueItem.operation it) v)
      | inr e => throw e
      end) batch w = (c, w) /\ c <> Diverge.
Proof.
  induction batch as [ | r rest IH].
  - exists (Normal []). split; [reflexivity | discriminate].
  - cbn [map_io]. unfold bind at 1. unfold bind at 1. unfold deref at 1.
    destruct (heap w !! r) as [q | ].
    + destruct (JSON_parse (SyncQueueItem.data q)) as [v | e].
      * unfold ret at 1. unfold bind at 1.
        destruct IH as (c & -> & Hc).
        destruct c as [ys | e | ].
        -- eexists. split; [reflexivity | discriminate].
        -- eexists. split; [reflexivity | discriminate].
        -- contradiction.
      * eexists. split; [reflexivity | discriminate].
    + eexists. split; [reflexivity | discriminate].
Qed.

Lemma processBatch_world this batch w :
  exists c new,
    processBatch this batch w = (c, set_posts (fun l => l ++ new) w) /\
    c <> Diverge.
Proof.
  unfold processBatch. unfold bind at 1.
  destruct (request_items_world batch w) as (c & -> & Hc).
  destruct c as [request_items | e | ].
  - destruct (axios_post _ _).
    + eexists _, [_]. split; [reflexivity | discriminate].
    + eexists _, [_]. split; [reflexivity | discriminate].
  - exists (Throw e), []. split; [ | discriminate].
    f_equal. destruct w. unfold set_posts. simpl. rewrite app_nil_r. reflexivity.
  - contradiction.
Qed.

Lemma update_retry_static id n e q :
  static (Database.update_retry id n e q) = static q.
Proof. unfold Database.update_retry. destruct (decide _); reflexivity. Qed.

(** The entries of the queue after [handleSyncError]: each one is an
    earlier entry, rewritten when it carries the id of the failed item,
    and none of the failed item's task once the ceiling is passed. *)
Lemma queue_after_error_elem q e (l : list SyncQueueItem.t) q' :
  q' ∈ queue_after_error q e l <->
  exists q0, q0 ∈ l /\
    q' = Database.update_retry (SyncQueueItem.id q)
           (SyncQueueItem.retryCount q) e q0 /\
    ((3 < SyncQueueItem.retryCount q)%Z ->
     SyncQueueItem.taskId q0 <> SyncQueueItem.taskId q).
Proof.
  unfold queue_after_error.
  destruct (Z.ltb_spec 3 (SyncQueueItem.retryCount q)) as [Hceil | Hbelow].
  - rewrite list_elem_of_In, List.filter_In, <- list_elem_of_In,
      list_elem_of_fmap.
    unfold Database.other_task. rewrite bool_decide_eq_true.
    split.
    + intros [(q0 & -> & Hq0) Hother]. exists q0.
      split; [exact Hq0 | ]. split; [reflexivity | ].
      intros _. revert Hother.
      pose proof (update_retry_static (SyncQueueItem.id q)
                    (SyncQueueItem.retryCount q) e q0) as Hst.
      unfold static in Hst. congruence.
    + intros (q0 & Hq0 & -> & Hother). split; [exists q0; auto | ].
      pose proof (update_retry_static (SyncQueueItem.id q)
                    (SyncQueueItem.retryCount q) e q0) as Hst.
      unfold static in Hst. specialize (Hother Hceil). congruence.
  - rewrite list_elem_of_fmap. split.
    + intros (q0 & -> & Hq0). exists q0. split; [exact Hq0 | ].
      split; [reflexivity | lia].
    + intros (q0 & Hq0 & -> & _). exists q0. auto.
Qed.

Lemma persisted_here q e l :
  persisted (SyncQueueItem.id q) (SyncQueueItem.retryCount q) e
    (queue_after_error q e l).
Proof.
  intros q' Hq' Hid. apply queue_after_error_elem in Hq'.
  destruct Hq' as (q0 & _ & -> & _).
  unfold Database.update_retry in *.
  destruct (decide (SyncQueueItem.id q0 = SyncQueueItem.id q)) as [_ | Hne].
  - split; reflexivity.
  - contradiction.
Qed.

Lemma persisted_elsewhere id n e q e' l :
  SyncQueueItem.id q <> id ->
  persisted id n e l -> persisted id n e (queue_after_error q e' l).
Proof.
  intros Hne Hp q' Hq' Hid. apply queue_after_error_elem in Hq'.
  destruct Hq' as (q0 & Hq0 & -> & _).
  unfold Database.update_retry in *.
  destruct (decide (SyncQueueItem.id q0 = SyncQueueItem.id q)) as [Heq | _].
  - simpl in Hid. congruence.
  - apply Hp; assumption.
Qed.

Lemma static_ids (h h' : list SyncQueueItem.t) :
  static <$> h' = static <$> h ->
  SyncQueueItem.id <$> h' = SyncQueueItem.id <$> h.
Proof.
  intros Heq.
  assert (Hid : forall l : list SyncQueueItem.t,
            SyncQueueItem.id <$> l = (fun s => s.1.1.1.1) <$> (static <$> l)).
  { intros l. rewrite <- list_fmap_compose. reflexivity. }
  rewrite (Hid h'), (Hid h), Heq. reflexivity.
Qed.

Lemma distinct_ids (h : list SyncQueueItem.t) r r' q q' :
  NoDup (SyncQueueItem.id <$> h) ->
  h !! r = Some q -> h !! r' = Some q' -> r <> r' ->
  SyncQueueItem.id q <> SyncQueueItem.id q'.
Proof.
  intros Hnd Hq Hq' Hne Heq. apply Hne.
  apply (NoDup_lookup _ r r' (SyncQueueItem.id q) Hnd).
  - rewrite list_lookup_fmap, Hq. reflexivity.
  - rewrite list_lookup_fmap, Hq', Heq. reflexivity.
Qed.

(** Failing the items of [rest] does not touch what was persisted under
    an id none of them carries. *)
Lemma failed_items_keep_persisted rest e x n (h : list SyncQueueItem.t) :
  (forall r, r ∈ rest -> exists q, h !! r = Some q /\ SyncQueueItem.id q <> x) ->
  forall w,
    static <$> heap w = static <$> h /\ persisted x n e (sync_queue w) ->
    returns (for_of rest (fun item => handleSyncError item e)) w
      (fun _ w' =>
         static <$> heap w' = static <$> h /\ persisted x n e (sync_queue w')).
Proof.
  intros Hother.
  apply (returns_for_of (fun w' =>
    static <$> heap w' = static <$> h /\ persisted x n e (sync_queue w'))).
  intros r w Hr [Hst Hp].
  destruct (Hother r Hr) as (q0 & Hq0 & Hne).
  destruct (static_lookup (heap w) h r q0 (eq_sym Hst) Hq0) as (q & Hq & Hs).
  eapply returns_mono; [apply (handleSyncError_frame r e w q Hq) | ].
  intros u w' (Hh & _ & _ & _ & _ & Hqueue). simpl.
  rewrite Hh, Hqueue, static_alter_bump. split; [exact Hst | ].
  apply persisted_elsewhere; [ | exact Hp].
  unfold static in Hs. simpl. congruence.
Qed.

(** The [catch] branch of [sync]: every item of the batch is failed once. *)
Lemma failed_batch_run batch e :
  NoDup batch ->
  forall w,
    (forall r, r ∈ batch -> is_Some (heap w !! r)) ->
    returns (for_of batch (fun item => handleSyncError item e)) w
      (fun _ w' =>
         (forall r, heap w' !! r =
            if decide (r ∈ batch) then bump_retryCount <$> heap w !! r
            else heap w !! r) /\
         posts w' = posts w /\ console w' = console w /\
         successCount w' = successCount w /\ errorCount w' = errorCount w /\
         (NoDup (SyncQueueItem.id <$> heap w) ->
          forall r q, r ∈ batch -> heap w !! r = Some q ->
            persisted (SyncQueueItem.id q) (SyncQueueItem.retryCount q + 1) e
              (sync_queue w'))).
Proof.
  induction batch as [ | r rest IH]; intros Hnd w Hrefs.
  - apply returns_ret. split.
    { intros k. rewrite decide_False by apply not_elem_of_nil. reflexivity. }
    do 4 (split; [reflexivity | ]).
    intros _ k q Hk. apply elem_of_nil in Hk. contradiction.
  - apply NoDup_cons in Hnd. destruct Hnd as [Hfresh Hnd].
    destruct (Hrefs r ltac:(left)) as [q Hq].
    cbn [for_of]. apply returns_bind.
    eapply returns_mono; [apply (handleSyncError_frame r e w q Hq) | ].
    intros u w1 (Hh1 & Hp1 & Hc1 & Hs1 & He1 & Hq1). simpl.
    assert (Hrefs1 : forall r', r' ∈ rest -> is_Some (heap w1 !! r')).
    { intros r' Hr'. rewrite Hh1.
      apply lookup_lt_is_Some. rewrite length_alter.
      apply lookup_lt_is_Some. apply Hrefs. right. exact Hr'. }
    assert (Hst1 : static <$> heap w1 = static <$> heap w).
    { rewrite Hh1. apply static_alter_bump. }
    assert (Hkeep : NoDup (SyncQueueItem.id <$> heap w) ->
      returns (for_of rest (fun item => handleSyncError item e)) w1
        (fun _ w' =>
           static <$> heap w' = static <$> heap w /\
           persisted (SyncQueueItem.id q) (SyncQueueItem.retryCount q + 1) e
             (sync_queue w'))).
    { intros Hids. apply failed_items_keep_persisted.
      - intros r' Hr'. destruct (Hrefs r' ltac:(right; exact Hr')) as [q' Hq'].
        exists q'. split; [exact Hq' | ].
        apply (distinct_ids (heap w) r' r q' q Hids Hq' Hq).
        intros ->. contradiction.
      - split; [exact Hst1 | ]. rewrite Hq1.
        apply (persisted_here (bump_retryCount q) e). }
    destruct (IH Hnd w1 Hrefs1) as (u' & w' & Hrun & Hh & Hp & Hc & Hs & He & Hpers).
    exists u', w'. split; [exact Hrun | ].
    split.
    { intros r'. rewrite Hh, Hh1.
      destruct (decide (r' = r)) as [-> | Hne].
      - rewrite decide_False by exact Hfresh.
        rewrite decide_True by left.
        apply list_lookup_alter_eq.
      - rewrite list_lookup_alter_ne by congruence.
        destruct (decide (r' ∈ rest)) as [Hin | Hout].
        + rewrite decide_True by (right; exact Hin). reflexivity.
        + rewrite decide_False; [reflexivity | ].
          intros Hin. apply elem_of_cons in Hin. destruct Hin; auto. }
    split; [congruence | ]. split; [congruence | ].
    split; [congruence | ]. split; [congruence | ].
    intros Hids r' q' Hr' Hq'.
    apply elem_of_cons in Hr'. destruct Hr' as [-> | Hr'].
    + assert (q' = q) as -> by congruence.
      destruct (Hkeep Hids) as (u2 & w2 & Hrun2 & _ & Hp2).
      rewrite Hrun in Hrun2. injection Hrun2 as _ <-. exact Hp2.
    + refine (Hpers _ r' q' Hr' _).
      * rewrite (static_ids (heap w) (heap w1) Hst1). exact Hids.
      * rewrite Hh1, list_lookup_alter_ne; [exact Hq' | ].
        intros ->. contradiction.
Qed.

(** ** The loop over the batches *)

Lemma batch_at_seq this B n i :
  batchSize this = Some B -> (0 < B)%Z -> (0 <= i < Z.of_nat n)%Z ->
  batch_at this n i =
  seq (Z.to_nat i) (Z.to_nat (Z.min (i + B) (Z.of_nat n)) - Z.to_nat i).
Proof.
  intros HB Hpos Hi. unfold batch_at, slice. rewrite HB. simpl.
  rewrite length_seq. unfold clamp_index.
  destruct (Z.ltb_spec i 0) as [Hneg | _]; [lia | ].
  destruct (Z.ltb_spec (i + B) 0) as [Hneg | _]; [lia | ].
  rewrite (Z.min_l i) by lia.
  rewrite drop_seq, take_seq. simpl. f_equal. lia.
Qed.

Lemma batch_at_elem this B n i r :
  batchSize this = Some B -> (0 < B)%Z -> (0 <= i < Z.of_nat n)%Z ->
  r ∈ batch_at this n i <->
  (i <= Z.of_nat r < Z.min (i + B) (Z.of_nat n))%Z.
Proof.
  intros HB Hpos Hi. rewrite (batch_at_seq this B n i HB Hpos Hi).
  rewrite elem_of_seq. lia.
Qed.

(** An invariant indexed by the loop counter, established batch by
    batch, holds when the loop ends; the loop ends once the counter has
    passed the queue, which it does within [n] steps. *)
Lemma sync_loop_invariant this B n (Inv : Z -> World -> Prop) :
  batchSize this = Some B -> (0 < B)%Z ->
  (forall i w, (0 <= i < Z.of_nat n)%Z -> Inv i w ->
     returns (sync_batch this (batch_at this n i)) w
       (fun _ w' => Inv (i + B)%Z w')) ->
  forall fuel i w,
    (0 <= i < Z.of_nat n + B)%Z ->
    (Z.max 0 (Z.of_nat n - i) < Z.of_nat fuel)%Z ->
    Inv i w ->
    returns (sync_loop this fuel (seq 0 n) (Some i)) w
      (fun _ w' => exists j, (Z.of_nat n <= j < Z.of_nat n + B)%Z /\ Inv j w').
Proof.
  intros HB Hpos Hstep fuel.
  induction fuel as [ | fuel IH]; intros i w Hi Hfuel HI; [lia | ].
  cbn [sync_loop]. unfold js_lt. rewrite length_seq.
  destruct (Z.ltb_spec i (Z.of_nat n)) as [Hlt | Hge].
  - fold (batch_at this n i). apply returns_bind.
    eapply returns_mono; [apply Hstep; [lia | exact HI] | ].
    intros u w1 HI1. rewrite HB. simpl.
    apply IH; [lia | lia | exact HI1].
  - apply returns_ret. exists i. split; [lia | exact HI].
Qed.

Lemma objects_seq (h : list SyncQueueItem.t) k len :
  k + len <= length h -> objects h (seq k len) = take len (drop k h).
Proof.
  revert k. induction len as [ | len IH]; intros k Hk; [reflexivity | ].
  destruct (lookup_lt_is_Some_2 h k ltac:(lia)) as [q Hq].
  cbn [seq]. unfold objects. cbn [omap list_omap]. rewrite Hq.
  fold (objects h (seq (S k) len)). rewrite IH by lia.
  rewrite (drop_S h q k Hq). reflexivity.
Qed.

Lemma ceil_div_unique n b k j :
  (0 < b)%Z -> (k * b = j)%Z -> (n <= j < n + b)%Z -> k = ceil_div n b.
Proof.
  intros Hb Hk Hj. unfold ceil_div.
  apply (Z.div_unique (n + b - 1) b k (n + b - 1 - j)); lia.
Qed.

Lemma posted_step this B h0 before i w :
  batchSize this = Some B -> (0 < B)%Z ->
  Forall parses h0 ->
  (0 <= i < Z.of_nat (length h0))%Z ->
  posted B h0 before i w ->
  returns (sync_batch this (batch_at this (length h0) i)) w
    (fun _ w' => posted B h0 before (i + B)%Z w').
Proof.
  intros HB Hpos Hparse Hi (Hstatic & new & Hposts & Hlen & Hsize & Hcat).
  pose proof (batch_at_seq this B (length h0) i HB Hpos Hi) as Hbatch.
  set (k := Z.to_nat i) in *.
  set (len := Z.to_nat (Z.min (i + B) (Z.of_nat (length h0))) - k) in *.
  assert (Hrange : k + len <= length h0) by lia.
  assert (Hsend0 : sendable h0 (batch_at this (length h0) i)).
  { intros r Hr. rewrite Hbatch in Hr. apply elem_of_seq in Hr.
    destruct (lookup_lt_is_Some_2 h0 r ltac:(lia)) as [q Hq].
    exists q. split; [exact Hq | ].
    eapply Forall_lookup_1 in Hparse; [exact Hparse | exact Hq]. }
  assert (Hsend : sendable (heap w) (batch_at this (length h0) i)).
  { eapply static_sendable; [exact Hstatic | exact Hsend0]. }
  eapply returns_mono; [apply sync_batch_frame; exact Hsend | ].
  intros u w' (Hstatic' & Hposts' & _). simpl.
  split; [congruence | ].
  rewrite (static_batch_request h0 (heap w) _ Hstatic) in Hposts'.
  exists (new ++ [batch_request h0 (batch_at this (length h0) i)]).
  assert (Hitems : items (batch_request h0 (batch_at this (length h0) i)) =
                   request_item <$> take len (drop k h0)).
  { unfold batch_request. cbn [items]. rewrite Hbatch, objects_seq by exact Hrange.
    reflexivity. }
  split; [rewrite Hposts', Hposts, <- app_assoc; reflexivity | ].
  split; [rewrite length_app; simpl; lia | ].
  split.
  - apply Forall_app. split; [exact Hsize | ].
    apply Forall_singleton. rewrite Hitems, length_fmap, length_take, length_drop.
    lia.
  - rewrite fmap_app, concat_app, Hcat.
    replace (concat (items <$> [batch_request h0 (batch_at this (length h0) i)]))
      with (items (batch_request h0 (batch_at this (length h0) i)))
      by (symmetry; apply app_nil_r).
    rewrite Hitems, <- fmap_app, take_take_drop. f_equal.
    destruct (Z.le_gt_cases (i + B) (Z.of_nat (length h0))) as [Hfit | Hover].
    + f_equal. lia.
    + rewrite (take_ge h0 (Z.to_nat (i + B))) by lia.
      apply take_ge. lia.
Qed.

Lemma sync_invariant this B (Inv : Z -> World -> Prop) w fuel :
  batchSize this = Some B -> (0 < B)%Z ->
  (forall i w1, (0 <= i < Z.of_nat (length (sync_queue w)))%Z -> Inv i w1 ->
     returns (sync_batch this (batch_at this (length (sync_queue w)) i)) w1
       (fun _ w' => Inv (i + B)%Z w')) ->
  length (sync_queue w) < fuel ->
  Inv 0%Z (sync_start w) ->
  returns (sync this fuel) w (fun r w' =>
    r = SyncResult.mk (successCount w') (errorCount w')
          (Z.of_nat (length (sync_queue w))) /\
    exists j,
      (Z.of_nat (length (sync_queue w)) <= j
         < Z.of_nat (length (sync_queue w)) + B)%Z /\
      Inv j w').
Proof.
  intros HB Hpos Hstep Hfuel Hstart.
  unfold sync. apply returns_bind.
  exists (seq 0 (length (sync_queue w))), (set_heap (fun _ => sync_queue w) w).
  split; [reflexivity | ].
  apply returns_bind, returns_modify.
  apply returns_bind, returns_modify.
  apply returns_bind.
  eapply returns_mono.
  - apply (sync_loop_invariant this B (length (sync_queue w)) Inv HB Hpos Hstep);
      [lia | lia | exact Hstart].
  - intros u w' (j & Hj & HI).
    apply returns_bind, returns_gets.
    apply returns_bind, returns_gets.
    apply returns_ret. rewrite length_seq. split; [reflexivity | ].
    exists j. split; [exact Hj | exact HI].
Qed.

(** ** What a sync does to the queue *)

Lemma lookup_alter_bump (h : list SyncQueueItem.t) item r q' :
  alter bump_retryCount item h !! r = Some q' ->
  exists q, h !! r = Some q /\ static q' = static q /\
    (SyncQueueItem.retryCount q <= SyncQueueItem.retryCount q')%Z /\
    (r = item -> q' = bump_retryCount q).
Proof.
  destruct (decide (item = r)) as [-> | Hne].
  - rewrite list_lookup_alter_eq. destruct (h !! r) as [q | ]; [ | discriminate].
    simpl. intros [= <-]. exists q.
    split; [reflexivity | ]. split; [reflexivity | ].
    split; [simpl; lia | reflexivity].
  - rewrite list_lookup_alter_ne by exact Hne. intros Hq.
    exists q'. split; [exact Hq | ]. split; [reflexivity | ].
    split; [lia | ]. intros ->. contradiction.
Qed.

Lemma alter_bump_lookup (h : list SyncQueueItem.t) item r q :
  h !! r = Some q ->
  exists q', alter bump_retryCount item h !! r = Some q' /\
    SyncQueueItem.taskId q' = SyncQueueItem.taskId q /\
    (SyncQueueItem.retryCount q <= SyncQueueItem.retryCount q')%Z.
Proof.
  intros Hq. destruct (decide (item = r)) as [-> | Hne].
  - rewrite list_lookup_alter_eq, Hq. eexists. split; [reflexivity | ].
    simpl. split; [reflexivity | lia].
  - rewrite list_lookup_alter_ne by exact Hne. exists q. split; [exact Hq | ].
    split; [reflexivity | lia].
Qed.

Lemma queue_inv_start w :
  queue_inv (sync_queue w) (length (posts w)) (sync_start w).
Proof.
  unfold queue_inv. simpl. split; [reflexivity | ]. split; [ | split].
  - intros r q h Hq Hh. assert (q = h) as -> by congruence. lia.
  - intros q' Hq'. apply list_elem_of_lookup in Hq'. destruct Hq' as [r Hr].
    exists r, q', q'. repeat split; auto; lia.
  - intros q Hq. left. exists q. split; [exact Hq | reflexivity].
Qed.

(** The invariant only reads the objects, the queue and the POST log, and
    it survives further POSTs. *)
Lemma queue_inv_frame l0 before w w' new :
  heap w' = heap w -> sync_queue w' = sync_queue w ->
  posts w' = posts w ++ new ->
  queue_inv l0 before w -> queue_inv l0 before w'.
Proof.
  intros Hh Hq Hp (Hst & Hmono & Hder & Hacc).
  unfold queue_inv. rewrite Hh, Hq. split; [exact Hst | ].
  split; [exact Hmono | ]. split; [exact Hder | ].
  intros q Hin. destruct (Hacc q Hin) as [Hkept | [Hconf | Hexh]].
  - left. exact Hkept.
  - right. left. destruct Hconf as (n & request & response & res & Hn & Hpost & Hrest).
    exists n, request, response, res. split; [exact Hn | ].
    split; [ | exact Hrest]. rewrite Hp. apply lookup_app_l_Some. exact Hpost.
  - right. right. destruct Hexh as (r & h & Hr & Hrest).
    exists r, h. rewrite Hh. split; [exact Hr | exact Hrest].
Qed.

Lemma queue_inv_after_confirm l0 before w w' taskId :
  heap w' = heap w -> posts w' = posts w ->
  sync_queue w' = List.filter (Database.other_task taskId) (sync_queue w) ->
  confirmed_since before w taskId ->
  queue_inv l0 before w -> queue_inv l0 before w'.
Proof.
  intros Hh Hp Hq Hconf (Hst & Hmono & Hder & Hacc).
  assert (Hin : forall q', q' ∈ sync_queue w' <->
            q' ∈ sync_queue w /\ SyncQueueItem.taskId q' <> taskId).
  { intros q'. rewrite Hq, list_elem_of_In, List.filter_In, <- list_elem_of_In.
    unfold Database.other_task. rewrite bool_decide_eq_true. reflexivity. }
  unfold queue_inv. rewrite Hh. split; [exact Hst | ].
  split; [exact Hmono | ]. split.
  - intros q' Hq'. apply Hin in Hq'. apply Hder. apply Hq'.
  - intros q Hq0. destruct (Hacc q Hq0) as [(q' & Hq' & Hs) | [Hc | Hexh]].
    + destruct (decide (SyncQueueItem.taskId q' = taskId)) as [Heq | Hne].
      * right. left.
        replace (SyncQueueItem.taskId q) with taskId
          by (unfold static in Hs; congruence).
        destruct Hconf as (n & request & response & res & Hn & Hpost & Hrest).
        exists n, request, response, res. rewrite Hp. auto.
      * left. exists q'. split; [apply Hin; auto | exact Hs].
    + right. left.
      destruct Hc as (n & request & response & res & Hn & Hpost & Hrest).
      exists n, request, response, res. rewrite Hp. auto.
    + right. right. destruct Hexh as (r & h & Hr & Hrest).
      exists r, h. rewrite Hh. auto.
Qed.

Lemma queue_inv_after_error l0 before w w' item h e :
  NoDup (SyncQueueItem.id <$> l0) ->
  heap w !! item = Some h ->
  heap w' = alter bump_retryCount item (heap w) ->
  posts w' = posts w ->
  sync_queue w' = queue_after_error (bump_retryCount h) e (sync_queue w) ->
  queue_inv l0 before w -> queue_inv l0 before w'.
Proof.
  intros Hids Hitem Hh Hp Hq (Hst & Hmono & Hder & Hacc).
  assert (Hids' : NoDup (SyncQueueItem.id <$> heap w)).
  { rewrite (static_ids l0 (heap w) Hst). exact Hids. }
  unfold queue_inv. rewrite Hh, Hq. split; [ | split; [ | split]].
  - rewrite static_alter_bump. exact Hst.
  - intros r q h' Hr Hh'.
    destruct (lookup_alter_bump _ _ _ _ Hh') as (h0 & Hh0 & _ & Hle & _).
    specialize (Hmono r q h0 Hr Hh0). lia.
  - intros q' Hq'. apply queue_after_error_elem in Hq'.
    destruct Hq' as (q0 & Hq0 & -> & _).
    destruct (Hder q0 Hq0) as (r & q & h0 & Hr & Hh0 & Hs & Hle).
    destruct (alter_bump_lookup (heap w) item r h0 Hh0) as (h1 & Hh1 & _ & Hle1).
    exists r, q. unfold Database.update_retry.
    destruct (decide (SyncQueueItem.id q0 = SyncQueueItem.id (bump_retryCount h)))
      as [Hsame | Hother].
    + assert (r = item) as ->.
      { apply (NoDup_lookup _ r item (SyncQueueItem.id h) Hids').
        - rewrite list_lookup_fmap, Hh0. simpl. f_equal.
          destruct (static_lookup l0 (heap w) r h0 Hst Hh0) as (q1 & Hq1 & Hs1).
          assert (q1 = q) as -> by congruence.
          unfold static in Hs, Hs1. simpl in Hsame. congruence.
        - rewrite list_lookup_fmap, Hitem. reflexivity. }
      assert (h0 = h) as -> by congruence.
      exists (bump_retryCount h). split; [exact Hr | ].
      split; [rewrite list_lookup_alter_eq, Hitem; reflexivity | ].
      split; [exact Hs | ]. simpl. lia.
    + exists h1. split; [exact Hr | ]. split; [exact Hh1 | ].
      split; [exact Hs | ]. lia.
  - intros q Hin. destruct (Hacc q Hin) as [(q' & Hq' & Hs) | [Hc | Hexh]].
    + destruct (decide ((3 < SyncQueueItem.retryCount (bump_retryCount h))%Z /\
                        SyncQueueItem.taskId q' = SyncQueueItem.taskId h))
        as [[Hceil Htask] | Hkeep].
      * right. right. exists item, (bump_retryCount h).
        split; [rewrite Hh, list_lookup_alter_eq, Hitem; reflexivity | ].
        split; [ | exact Hceil]. unfold static in Hs. simpl. congruence.
      * left.
        exists (Database.update_retry (SyncQueueItem.id (bump_retryCount h))
                  (SyncQueueItem.retryCount (bump_retryCount h)) e q').
        split.
        -- apply queue_after_error_elem. exists q'. split; [exact Hq' | ].
           split; [reflexivity | ]. intros Hceil Htask. apply Hkeep.
           split; [exact Hceil | exact Htask].
        -- rewrite update_retry_static. exact Hs.
    + right. left.
      destruct Hc as (n & request & response & res & Hn & Hpost & Hrest).
      exists n, request, response, res. rewrite Hp. auto.
    + right. right. destruct Hexh as (r & h0 & Hr & Ht & Hceil).
      destruct (alter_bump_lookup (heap w) item r h0 Hr) as (h1 & Hh1 & Ht1 & Hle1).
      exists r, h1. split; [rewrite Hh; exact Hh1 | ]. split; [congruence | lia].
Qed.

(** One batch keeps the invariant. *)
Lemma queue_inv_batch this l0 before batch w :
  NoDup (SyncQueueItem.id <$> l0) ->
  before <= length (posts w) ->
  sendable (heap w) batch ->
  queue_inv l0 before w ->
  returns (sync_batch this batch) w (fun _ w' =>
    queue_inv l0 before w' /\ before <= length (posts w')).
Proof.
  intros Hids Hbefore Hsend Hinv.
  set (request := batch_request (heap w) batch).
  eapply returns_mono.
  - apply (sync_batch_invariant this batch (fun w' =>
      queue_inv l0 before w' /\ posts w' = posts w ++ [request])).
    + intros w1 f [H1 H2]. split; [ | exact H2].
      apply (queue_inv_frame l0 before w1 _ []); auto.
      simpl. rewrite app_nil_r. reflexivity.
    + intros w1 f [H1 H2]. split; [ | exact H2].
      apply (queue_inv_frame l0 before w1 _ []); auto.
      simpl. rewrite app_nil_r. reflexivity.
    + intros w1 response res Hpost Hres Hsuccess [H1 H2].
      eapply returns_mono; [apply updateSyncStatus_frame | ].
      intros u w2 (Hh & Hp & _ & _ & _ & Hq). simpl in Hq.
      split; [ | congruence].
      apply (queue_inv_after_confirm l0 before w1 w2 (BatchResult.taskId res));
        auto.
      exists (length (posts w)), request, response, res.
      split; [exact Hbefore | ]. split.
      { rewrite H2. apply list_lookup_middle. reflexivity. }
      auto.
    + intros w1 item message q _ Hq [H1 H2].
      eapply returns_mono; [apply (handleSyncError_frame item message w1 q Hq) | ].
      intros u w2 (Hh & Hp & _ & _ & _ & Hqueue).
      split; [ | congruence].
      apply (queue_inv_after_error l0 before w1 w2 item q message); auto.
    + intros w1 r [(Hst & _) _] Hr.
      destruct (Hsend r Hr) as (q & Hq & _).
      destruct Hinv as (Hst0 & _).
      assert (Hlen : length (heap w1) = length (heap w)).
      { rewrite <- (length_fmap static (heap w1)), Hst, <- Hst0, length_fmap.
        reflexivity. }
      apply lookup_lt_is_Some. rewrite Hlen.
      apply lookup_lt_is_Some. exists q. exact Hq.
    + exact Hsend.
    + split; [ | reflexivity].
      apply (queue_inv_frame l0 before w _ [request]); auto.
  - intros u w' [H1 H2]. split; [exact H1 | ].
    rewrite H2, length_app. lia.
Qed.

Lemma sendable_batch_at this B (h0 : list SyncQueueItem.t) i w :
  batchSize this = Some B -> (0 < B)%Z ->
  Forall parses h0 -> (0 <= i < Z.of_nat (length h0))%Z ->
  static <$> heap w = static <$> h0 ->
  sendable (heap w) (batch_at this (length h0) i).
Proof.
  intros HB Hpos Hparse Hi Hst.
  apply (static_sendable h0 (heap w) _ Hst).
  intros r Hr. apply (batch_at_elem this B _ i r HB Hpos Hi) in Hr.
  destruct (lookup_lt_is_Some_2 h0 r ltac:(lia)) as [q Hq].
  exists q. split; [exact Hq | ].
  eapply Forall_lookup_1 in Hparse; [exact Hparse | exact Hq].
Qed.

(** ** The properties of the engine *)

(** C3.  With a positive batch size [B] and a queue of [N] items whose
    data parse, one [sync()] returns, issues exactly [ceil(N/B)]
    batch-sync calls one after the other, each with at most [B] items and
    together the whole queue in order, and reports [total = N]; a
    [SyncService] built without [SYNC_BATCH_SIZE] has batch size 10. *)
Theorem sync_batching :
  (forall env url,
     env "SYNC_BATCH_SIZE"%string = None ->
     batchSize (new_SyncService env url) = Some 10%Z) /\
  (forall this B w fuel,
     batchSize this = Some B -> (0 < B)%Z ->
     Forall parses (sync_queue w) ->
     length (sync_queue w) < fuel ->
     returns (sync this fuel) w (fun r w' =>
       SyncResult.total r = Z.of_nat (length (sync_queue w)) /\
       exists new,
         posts w' = posts w ++ new /\
         Z.of_nat (length new) =
           ceil_div (Z.of_nat (length (sync_queue w))) B /\
         Forall (fun p => (Z.of_nat (length (items p)) <= B)%Z) new /\
         concat (items <$> new) = request_item <$> sync_queue w)).
Proof.
  split.
  - intros env url Henv. unfold new_SyncService. simpl. rewrite Henv.
    reflexivity.
  - intros this B w fuel HB Hpos Hparse Hfuel.
    eapply returns_mono.
    + apply (sync_invariant this B (posted B (sync_queue w) (posts w)) w fuel
               HB Hpos); [ | exact Hfuel | ].
      * intros i w1 Hi HI.
        apply (posted_step this B (sync_queue w) (posts w) i w1 HB Hpos Hparse Hi HI).
      * split; [reflexivity | ]. exists []. simpl.
        rewrite app_nil_r. repeat split. constructor.
    + intros r w' (Hr & j & Hj & _ & new & Hposts & Hlen & Hsize & Hcat).
      split; [rewrite Hr; reflexivity | ].
      exists new. split; [exact Hposts | ].
      split; [apply (ceil_div_unique _ B _ j Hpos Hlen Hj) | ].
      split; [exact Hsize | ].
      rewrite Hcat, take_ge by lia. reflexivity.
Qed.

(** C4.  When the transport of the batch cut at index [i] fails as a
    whole, [sync()] fails every item of that batch once: the retryCount of
    each of its item objects grows by exactly 1 (and is what the queue
    holds under the item's id, with the error message), errorCount grows
    by the size of the batch, successCount stays, and the loop goes on
    with the batch at [i + B]. *)
Theorem transport_failure_fails_the_batch this B w fuel i e :
  batchSize this = Some B -> (0 < B)%Z ->
  (0 <= i < Z.of_nat (length (heap w)))%Z ->
  fst (processBatch this (batch_at this (length (heap w)) i) w) = Throw e ->
  exists w',
    sync_batch this (batch_at this (length (heap w)) i) w = (Normal tt, w') /\
    sync_loop this (S fuel) (seq 0 (length (heap w))) (Some i) w =
      sync_loop this fuel (seq 0 (length (heap w))) (Some (i + B)%Z) w' /\
    (forall r q, heap w !! r = Some q ->
       heap w' !! r =
       Some (if decide (r ∈ batch_at this (length (heap w)) i)
             then bump_retryCount q else q)) /\
    errorCount w' =
      (errorCount w + Z.of_nat (length (batch_at this (length (heap w)) i)))%Z /\
    successCount w' = successCount w /\
    (NoDup (SyncQueueItem.id <$> heap w) ->
     forall r q, r ∈ batch_at this (length (heap w)) i ->
       heap w !! r = Some q ->
       persisted (SyncQueueItem.id q) (SyncQueueItem.retryCount q + 1) e
         (sync_queue w')).
Proof.
  intros HB Hpos Hi Hthrow.
  set (batch := batch_at this (length (heap w)) i) in *.
  destruct (processBatch_world this batch w) as (c & new & Hrun & _).
  rewrite Hrun in Hthrow. simpl in Hthrow. subst c.
  set (w1 := set_posts (fun l => l ++ new) w) in *.
  assert (Hnd : NoDup batch).
  { unfold batch. rewrite (batch_at_seq this B _ i HB Hpos Hi). apply NoDup_seq. }
  assert (Hrefs : forall r, r ∈ batch -> is_Some (heap w1 !! r)).
  { intros r Hr. apply (batch_at_elem this B _ i r HB Hpos Hi) in Hr.
    apply lookup_lt_is_Some. simpl. lia. }
  destruct (failed_batch_run batch e Hnd w1 Hrefs)
    as (u & w2 & Hloop & Hh & _ & _ & Hs & He & Hpers).
  simpl in Hh, Hs, He, Hpers.
  exists (set_errorCount (fun n => n + Z.of_nat (length batch))%Z w2).
  assert (Hbatch : sync_batch this batch w =
    (Normal tt, set_errorCount (fun n => n + Z.of_nat (length batch))%Z w2)).
  { unfold sync_batch, try_catch. unfold bind at 1. rewrite Hrun.
    unfold bind at 1. rewrite Hloop. reflexivity. }
  split; [exact Hbatch | ].
  split.
  { cbn [sync_loop]. unfold js_lt. rewrite length_seq.
    destruct (Z.ltb_spec i (Z.of_nat (length (heap w)))) as [_ | Hge]; [ | lia].
    change (slice (seq 0 (length (heap w))) (Some i)
              (js_add (Some i) (batchSize this))) with batch.
    unfold bind at 1. rewrite Hbatch, HB. reflexivity. }
  split.
  { intros r q Hq. simpl. rewrite Hh, Hq.
    destruct (decide (r ∈ batch)); reflexivity. }
  split; [simpl; rewrite He; reflexivity | ].
  split; [simpl; exact Hs | ].
  intros Hids r q Hr Hq. simpl. apply (Hpers Hids r q Hr Hq).
Qed.

(** C5 (as amended).  [resolveConflict(local, server)] returns [local]
    exactly when the time value of [local.updatedAt] is strictly greater
    than that of [server.updatedAt], and [server] otherwise - on a tie,
    and when a timestamp is not a date; it never throws and changes no
    store, and its one effect is a line written to the console. *)
Theorem resolveConflict_last_write_wins localTask serverTask w :
  exists line,
    resolveConflict localTask serverTask w =
    (Normal
       (match Date_parse (Task.updatedAt localTask),
              Date_parse (Task.updatedAt serverTask) with
        | Some tl, Some ts =>
            if decide (ts < tl)%Z then localTask else serverTask
        | _, _ => serverTask
        end),
     set_console (fun l => l ++ [line]) w).
Proof.
  unfold resolveConflict, js_gt, js_lt.
  destruct (Date_parse (Task.updatedAt localTask)) as [tl | ];
    destruct (Date_parse (Task.updatedAt serverTask)) as [ts | ];
    try (eexists; reflexivity).
  destruct (Z.ltb_spec ts tl) as [Hlt | Hge].
  - rewrite decide_True by exact Hlt. eexists. reflexivity.
  - rewrite decide_False by lia. eexists. reflexivity.
Qed.

(** C7.  [checkConnectivity()] always returns a boolean and never throws;
    the boolean is [true] exactly when the health request is answered
    with a 2xx status within the 5000 ms timeout, and [false] on any
    error, on a late answer and on no answer. *)
Theorem checkConnectivity_total this w :
  exists b,
    checkConnectivity this w = (Normal b, w) /\
    (b = true <->
     exists status ms,
       http_get (apiUrl this +:+ "/health") = Reply status ms /\
       status_ok status = true /\ (ms <= 5000)%Z).
Proof.
  unfold checkConnectivity, try_catch, bind, axios_get.
  destruct (http_get (apiUrl this +:+ "/health")) as [status ms | m | ].
  - simpl. destruct (Z.ltb_spec 5000 ms) as [Hlate | Hintime].
    + exists false. split; [reflexivity | ].
      split; [discriminate | ].
      intros (s & t & Heq & _ & Ht). injection Heq as -> ->. lia.
    + destruct (status_ok status) eqn:Hok.
      * exists true. split; [reflexivity | ].
        split; [ | reflexivity]. intros _. exists status, ms. auto.
      * exists false. split; [reflexivity | ].
        split; [discriminate | ].
        intros (s & t & Heq & Hs & _). injection Heq as -> ->. congruence.
  - exists false. split; [reflexivity | ].
    split; [discriminate | ]. intros (s & t & Heq & _). discriminate.
  - exists false. split; [reflexivity | ].
    split; [discriminate | ]. intros (s & t & Heq & _). discriminate.
Qed.

(** C8.  A soft-deleted record is not returned by the read operations:
    [getTask] answers null for it and [getAllTasks] leaves it out; and a
    mutation through the record service ([updateTask], [deleteTask])
    stores the record with syncStatus pending and updatedAt set to the
    current time. *)
Theorem deleted_hidden_and_mutations_reset :
  (forall id w task,
     tasks w !! id = Some task -> Task.isDeleted task = true ->
     getTask id w = (Normal None, w)) /\
  (forall w, exists l,
     getAllTasks w = (Normal l, w) /\
     forall task, task ∈ l <->
       (exists id, tasks w !! id = Some task) /\ Task.isDeleted task = false) /\
  (forall id updates w task,
     live w id task ->
     exists stored w',
       updateTask id updates w = (Normal (Some stored), w') /\
       tasks w' !! id = Some stored /\
       Task.syncStatus stored = StPending /\
       Task.updatedAt stored = toISOString (dates w)) /\
  (forall id w task,
     live w id task ->
     exists stored w',
       deleteTask id w = (Normal true, w') /\
       tasks w' !! id = Some stored /\
       Task.isDeleted stored = true /\
       Task.syncStatus stored = StPending /\
       Task.updatedAt stored = toISOString (dates w)).
Proof.
  split; [ | split; [ | split]].
  - intros id w task Hget Hdel.
    unfold getTask, bind, Database.getTaskById, gets. simpl.
    rewrite Hget, Hdel. reflexivity.
  - intros w. eexists. split; [reflexivity | ].
    intros task.
    rewrite list_elem_of_In, List.filter_In, <- list_elem_of_In,
      negb_true_iff, list_elem_of_fmap.
    split.
    + intros [([id task'] & -> & Hin) Hlive].
      apply elem_of_map_to_list in Hin. split; [exists id; exact Hin | exact Hlive].
    + intros [[id Hget] Hlive]. split; [ | exact Hlive].
      exists (id, task). split; [reflexivity | ].
      apply elem_of_map_to_list. exact Hget.
  - intros id updates w task Hlive.
    eexists _, _. split; [apply (updateTask_live id updates w task Hlive) | ].
    simpl. split; [apply lookup_insert_eq | ]. split; reflexivity.
  - intros id w task [Hget Hlive].
    unfold deleteTask, bind, Database.getTaskById, gets. simpl.
    rewrite Hget, Hlive. simpl.
    unfold Database.updateTask, modify, set_tasks. simpl.
    rewrite Hget. eexists _, _. split; [reflexivity | ].
    simpl. split; [apply lookup_insert_eq | ]. repeat split; reflexivity.
Qed.

(** C9.  For an existing, not deleted task and any [updates],
    [updateTask] stores syncStatus pending and updatedAt = now whatever
    [updates] holds for the two fields, and enqueues a fresh update
    operation; this is also what happens when [updateSyncStatus] calls it:
    the status it hands in is overwritten with pending, and the update
    operation is enqueued (and, for status synced, then removed with the
    rest of the task's entries). *)
Theorem updateTask_resets_and_enqueues :
  (forall id updates w task,
     live w id task ->
     exists stored q w',
       updateTask id updates w = (Normal (Some stored), w') /\
       tasks w' !! id = Some stored /\
       Task.syncStatus stored = StPending /\
       Task.updatedAt stored = toISOString (dates w) /\
       sync_queue w' = sync_queue w ++ [q] /\
       SyncQueueItem.taskId q = id /\
       SyncQueueItem.operation q = OpUpdate /\
       SyncQueueItem.retryCount q = 0%Z) /\
  (forall taskId status serverData w task,
     live w taskId task ->
     exists stored q w1 w',
       updateTask taskId
         (status_updates status (toISOString (dates w)) serverData)
         (set_dates S w) = (Normal (Some stored), w1) /\
       sync_queue w1 = sync_queue w ++ [q] /\
       SyncQueueItem.taskId q = taskId /\
       SyncQueueItem.operation q = OpUpdate /\
       SyncQueueItem.retryCount q = 0%Z /\
       updateSyncStatus taskId status serverData w = (Normal tt, w') /\
       w' = (if decide (status = StSynced)
             then set_sync_queue (List.filter (Database.other_task taskId)) w1
             else w1) /\
       tasks w' !! taskId = Some stored /\
       Task.syncStatus stored = StPending /\
       Task.updatedAt stored = toISOString (S (dates w))).
Proof.
  split.
  - intros id updates w task Hlive.
    eexists _, _, _. split; [apply (updateTask_live id updates w task Hlive) | ].
    simpl. split; [apply lookup_insert_eq | ].
    repeat split; reflexivity.
  - intros taskId status serverData w task Hlive.
    pose proof (updateTask_live taskId
                  (status_updates status (toISOString (dates w)) serverData)
                  (set_dates S w) task Hlive) as Hrun.
    simpl in Hrun.
    match type of Hrun with
    | _ = (Normal (Some ?s), set_sync_queue (fun l => l ++ [?q]) ?w0) =>
        set (w1 := set_sync_queue (fun l => l ++ [q]) w0) in *;
        exists s, q, w1,
          (if decide (status = StSynced)
           then set_sync_queue (List.filter (Database.other_task taskId)) w1
           else w1)
    end.
    split; [exact Hrun | ].
    simpl. do 4 (split; [reflexivity | ]).
    split.
    { unfold updateSyncStatus. unfold bind at 1. unfold new_Date_toISOString.
      unfold bind at 1. rewrite Hrun.
      destruct (decide (status = StSynced)); reflexivity. }
    split; [reflexivity | ].
    destruct (decide (status = StSynced)); simpl;
      (split; [apply lookup_insert_eq | split; reflexivity]).
Qed.

(** C10.  A confirmation, and a failure that takes an item past the retry
    ceiling, delete by taskId: afterwards the queue holds exactly the
    earlier entries of the other tasks, so every other pending operation
    of the same task is gone with the confirmed or exhausted one. *)
Theorem removal_is_by_taskId :
  (forall taskId serverData w,
     returns (updateSyncStatus taskId StSynced serverData) w (fun _ w' =>
       sync_queue w' =
         List.filter (Database.other_task taskId) (sync_queue w) /\
       forall q', q' ∈ sync_queue w' <->
         q' ∈ sync_queue w /\ SyncQueueItem.taskId q' <> taskId)) /\
  (forall item message w q,
     heap w !! item = Some q ->
     (3 < SyncQueueItem.retryCount q + 1)%Z ->
     returns (handleSyncError item message) w (fun _ w' =>
       sync_queue w' =
         List.filter (Database.other_task (SyncQueueItem.taskId q))
           (Database.update_retry (SyncQueueItem.id q)
              (SyncQueueItem.retryCount q + 1) message <$> sync_queue w) /\
       forall q', q' ∈ sync_queue w' ->
         SyncQueueItem.taskId q' <> SyncQueueItem.taskId q)).
Proof.
  split.
  - intros taskId serverData w.
    eapply returns_mono; [apply updateSyncStatus_frame | ].
    intros u w' (_ & _ & _ & _ & _ & Hq). simpl in Hq.
    split; [exact Hq | ]. intros q'. rewrite Hq.
    rewrite list_elem_of_In, List.filter_In, <- list_elem_of_In.
    unfold Database.other_task. rewrite bool_decide_eq_true. reflexivity.
  - intros item message w q Hq Hceil.
    eapply returns_mono; [apply (handleSyncError_frame item message w q Hq) | ].
    intros u w' (_ & _ & _ & _ & _ & Hqueue).
    unfold queue_after_error in Hqueue. simpl in Hqueue.
    destruct (Z.ltb_spec 3 (SyncQueueItem.retryCount q + 1)) as [_ | Hno]; [ | lia].
    split; [exact Hqueue | ]. intros q'. rewrite Hqueue.
    rewrite list_elem_of_In, List.filter_In.
    unfold Database.other_task. rewrite bool_decide_eq_true.
    intros [_ Hother]. exact Hother.
Qed.

(** C6 (as amended).  [addToSyncQueue] appends a new entry with
    retryCount 0 and leaves the entries before it as they are; over a
    [sync()] every entry still queued is an entry of the queue it started
    from with a retryCount that is not smaller; and an entry leaves the
    queue only when an operation of its task was reported successful or an
    item of its task went past the retry ceiling - its own retryCount
    need not have. *)
Theorem retryCount_monotone_removal_by_task :
  (forall taskId operation data w,
     exists q w',
       addToSyncQueue taskId operation data w = (Normal tt, w') /\
       sync_queue w' = sync_queue w ++ [q] /\
       SyncQueueItem.retryCount q = 0%Z /\
       SyncQueueItem.taskId q = taskId /\
       SyncQueueItem.operation q = operation) /\
  (forall this B w fuel,
     batchSize this = Some B -> (0 < B)%Z ->
     Forall parses (sync_queue w) ->
     NoDup (SyncQueueItem.id <$> sync_queue w) ->
     length (sync_queue w) < fuel ->
     returns (sync this fuel) w (fun _ w' =>
       (forall q', q' ∈ sync_queue w' ->
          exists q, q ∈ sync_queue w /\ static q = static q' /\
            (SyncQueueItem.retryCount q <= SyncQueueItem.retryCount q')%Z) /\
       (forall q, q ∈ sync_queue w ->
          (exists q', q' ∈ sync_queue w' /\ static q' = static q) \/
          confirmed_since (length (posts w)) w' (SyncQueueItem.taskId q) \/
          exhausted w' (SyncQueueItem.taskId q)))).
Proof.
  split.
  - intros taskId operation data w.
    eexists _, _. split; [apply addToSyncQueue_run | ].
    simpl. repeat split; reflexivity.
  - intros this B w fuel HB Hpos Hparse Hids Hfuel.
    eapply returns_mono.
    + apply (sync_invariant this B (fun _ w1 =>
               queue_inv (sync_queue w) (length (posts w)) w1 /\
               length (posts w) <= length (posts w1)) w fuel HB Hpos);
        [ | exact Hfuel | ].
      * intros i w1 Hi [Hinv Hlen].
        apply (queue_inv_batch this _ _ _ w1 Hids Hlen); [ | exact Hinv].
        apply (sendable_batch_at this B _ i w1 HB Hpos Hparse Hi).
        apply Hinv.
      * split; [apply queue_inv_start | simpl; lia].
    + intros r w' (_ & j & _ & (Hst & Hmono & Hder & Hacc) & _).
      split; [ | exact Hacc].
      intros q' Hq'. destruct (Hder q' Hq') as (k & q & h & Hk & _ & Hs & Hle).
      exists q. split; [apply list_elem_of_lookup; exists k; exact Hk | ].
      split; [symmetry; exact Hs | lia].
Qed.

(** ** Further properties: the record service *)

Lemma createTask_run taskData w :
  createTask taskData w =
  (let task :=
     Task.mk (randomUUID (uuids w))
       (or_else (PartialTask.title taskData) "Untitled Task")
       (or_else (PartialTask.description taskData) EmptyString)
       false false (toISOString (dates w)) (toISOString (dates w))
       StPending None None in
   let w1 :=
     set_tasks (fun m => <[Task.id task := task]> m)
       (set_uuids S (set_dates S w)) in
   (Normal task,
    set_sync_queue
      (fun l => l ++ [fresh_entry (Task.id task) OpCreate
                        (PartialTask.of_task task) w1])
      (set_dates S (set_uuids S w1)))).
Proof. reflexivity. Qed.

(** X1.  [createTask] stores a record that [getTask] reads back under the
    id it drew: not completed, not deleted, pending, never synced, created
    and updated at the current time, with the default title when the one
    handed in is absent or empty - whatever else [taskData] carries - and
    it appends exactly one create operation for that id with retryCount 0,
    leaving the other records alone. *)
Theorem createTask_then_read taskData w :
  exists task q w',
    createTask taskData w = (Normal task, w') /\
    getTask (Task.id task) w' = (Normal (Some task), w') /\
    Task.id task = randomUUID (uuids w) /\
    Task.title task =
      match PartialTask.title taskData with
      | Some s => if truthy s then s else "Untitled Task"%string
      | None => "Untitled Task"%string
      end /\
    Task.completed task = false /\ Task.isDeleted task = false /\
    Task.syncStatus task = StPending /\
    Task.lastSyncedAt task = None /\ Task.serverId task = None /\
    Task.createdAt task = toISOString (dates w) /\
    Task.updatedAt task = toISOString (dates w) /\
    sync_queue w' = sync_queue w ++ [q] /\
    SyncQueueItem.taskId q = Task.id task /\
    SyncQueueItem.operation q = OpCreate /\
    SyncQueueItem.retryCount q = 0%Z /\
    (forall id', id' <> Task.id task -> tasks w' !! id' = tasks w !! id').
Proof.
  pose proof (createTask_run taskData w) as Hrun. simpl in Hrun.
  eexists _, _, _. split; [exact Hrun | ].
  split.
  { unfold getTask, bind, Database.getTaskById, gets. simpl.
    rewrite lookup_insert_eq. reflexivity. }
  simpl. do 13 (split; [reflexivity | ]).
  intros id' Hne. apply lookup_insert_ne. congruence.
Qed.

(** X2.  After [deleteTask] on a live record the record is hidden and
    locked: [getTask] answers null, a second [deleteTask] answers false and
    an [updateTask] answers null, both leaving the world as it is; the call
    itself appends exactly one delete operation for the id and leaves the
    other records alone. *)
Theorem deleteTask_hides_and_locks id w task :
  live w id task ->
  exists q w',
    deleteTask id w = (Normal true, w') /\
    getTask id w' = (Normal None, w') /\
    deleteTask id w' = (Normal false, w') /\
    (forall updates, updateTask id updates w' = (Normal None, w')) /\
    sync_queue w' = sync_queue w ++ [q] /\
    SyncQueueItem.taskId q = id /\
    SyncQueueItem.operation q = OpDelete /\
    SyncQueueItem.retryCount q = 0%Z /\
    (forall id', id' <> id -> tasks w' !! id' = tasks w !! id').
Proof.
  intros [Hget Hlive].
  assert (Hrun : exists q w',
    deleteTask id w = (Normal true, w') /\
    tasks w' !! id =
      Some (Task.set_syncStatus StPending
              (Task.set_updatedAt (toISOString (dates w))
                 (Task.set_isDeleted true task))) /\
    sync_queue w' = sync_queue w ++ [q] /\
    SyncQueueItem.taskId q = id /\
    SyncQueueItem.operation q = OpDelete /\
    SyncQueueItem.retryCount q = 0%Z /\
    (forall id', id' <> id -> tasks w' !! id' = tasks w !! id')).
  { unfold deleteTask, bind, Database.getTaskById, gets. simpl.
    rewrite Hget, Hlive. simpl.
    unfold Database.updateTask, modify, set_tasks. simpl. rewrite Hget.
    eexists _, _. split; [reflexivity | ]. simpl.
    split; [apply lookup_insert_eq | ].
    do 4 (split; [reflexivity | ]).
    intros id' Hne. apply lookup_insert_ne. congruence. }
  destruct Hrun as (q & w' & Hrun & Hstored & Hqueue & Ht & Ho & Hr & Hothers).
  exists q, w'. split; [exact Hrun | ].
  split.
  { unfold getTask, bind, Database.getTaskById, gets. simpl.
    rewrite Hstored. reflexivity. }
  split.
  { unfold deleteTask, bind, Database.getTaskById, gets. simpl.
    rewrite Hstored. reflexivity. }
  split.
  { intros updates. eapply updateTask_deleted; [exact Hstored | reflexivity]. }
  auto.
Qed.

(** X3.  On an id that is unknown or soft-deleted, [updateTask] answers
    null and [deleteTask] answers false, and neither writes anything: no
    record changes, no operation is enqueued, the clock is not read. *)
Theorem rejected_mutations_write_nothing id w :
  (forall task, ~ live w id task) ->
  (forall updates, updateTask id updates w = (Normal None, w)) /\
  deleteTask id w = (Normal false, w).
Proof.
  intros Hnone.
  destruct (tasks w !! id) as [task | ] eqn:Hget.
  - destruct (Task.isDeleted task) eqn:Hdel.
    + split.
      * intros updates. eapply updateTask_deleted; eassumption.
      * unfold deleteTask, bind, Database.getTaskById, gets. simpl.
        rewrite Hget, Hdel. reflexivity.
    + exfalso. apply (Hnone task). split; assumption.
  - split.
    + intros updates. apply updateTask_absent. exact Hget.
    + unfold deleteTask, bind, Database.getTaskById, gets. simpl.
      rewrite Hget. reflexivity.
Qed.

(** X4.  [updateTask] on a live record is read back by [getTask] unless
    the updates carry [isDeleted: true]; in that case the record is
    soft-deleted through the update path - [getTask] answers null afterwards
    and the operation enqueued is an update, not a delete.  The other
    records are left alone. *)
Theorem updateTask_then_read id updates w task :
  live w id task ->
  exists stored q w',
    updateTask id updates w = (Normal (Some stored), w') /\
    Task.isDeleted stored = default false (PartialTask.isDeleted updates) /\
    getTask id w' =
      (Normal (if Task.isDeleted stored then None else Some stored), w') /\
    sync_queue w' = sync_queue w ++ [q] /\
    SyncQueueItem.operation q = OpUpdate /\
    (forall id', id' <> id -> tasks w' !! id' = tasks w !! id').
Proof.
  intros Hlive.
  pose proof (updateTask_live id updates w task Hlive) as Hrun. simpl in Hrun.
  destruct Hlive as [Hget Hlive].
  eexists _, _, _. split; [exact Hrun | ].
  split.
  { simpl. rewrite Hlive. reflexivity. }
  split.
  { unfold getTask, bind, Database.getTaskById, gets. simpl.
    rewrite lookup_insert_eq. simpl.
    destruct (default (Task.isDeleted task) (PartialTask.isDeleted updates));
      reflexivity. }
  simpl. do 2 (split; [reflexivity | ]).
  intros id' Hne. apply lookup_insert_ne. congruence.
Qed.

(** X22.  [getAllTasks] is the list view of what [getTask] shows: it
    answers with exactly the records that are stored and not soft-deleted
    (the store's own [getAllTasks] taken as every record), and changes
    nothing. *)
Theorem getAllTasks_lists_the_live_records w :
  exists l,
    getAllTasks w = (Normal l, w) /\
    forall task, task ∈ l <-> exists id, live w id task.
Proof.
  eexists. split; [reflexivity | ].
  intros task. rewrite list_elem_of_In, List.filter_In, <- list_elem_of_In.
  rewrite list_elem_of_fmap. unfold live. split.
  - intros [([id k] & -> & Hin) Hlive]. apply elem_of_map_to_list in Hin.
    exists id. split; [exact Hin | ]. simpl in *.
    destruct (Task.isDeleted k); [discriminate | reflexivity].
  - intros (id & Hstored & Hlive). split.
    + exists (id, task). split; [reflexivity | ].
      apply elem_of_map_to_list. exact Hstored.
    + rewrite Hlive. reflexivity.
Qed.

(** ** Further properties: the sync engine *)

(** A batch keeps every property of the world that the two per-item steps
    keep and that reads neither the counters nor the POST log - whether
    its items parse or not, and whatever the endpoint answers. *)
Lemma sync_batch_keeps this batch (Inv : World -> Prop) w :
  (forall w f, Inv w -> Inv (set_successCount f w)) ->
  (forall w f, Inv w -> Inv (set_errorCount f w)) ->
  (forall w new, Inv w -> Inv (set_posts (fun l => l ++ new) w)) ->
  (forall w taskId serverData, Inv w ->
     returns (updateSyncStatus taskId StSynced serverData) w
       (fun _ w' => Inv w')) ->
  (forall w item message q, item ∈ batch -> heap w !! item = Some q -> Inv w ->
     returns (handleSyncError item message) w (fun _ w' => Inv w')) ->
  (forall w r, Inv w -> r ∈ batch -> is_Some (heap w !! r)) ->
  Inv w ->
  returns (sync_batch this batch) w (fun _ w' => Inv w').
Proof.
  intros Hsucc Herr Hposts Hstatus Hhandle Hrefs Hinit.
  unfold sync_batch. apply returns_try_catch.
  unfold bind at 1.
  destruct (processBatch_world this batch w) as (c & new & Hrun & Hc).
  rewrite Hrun.
  pose proof (Hposts w new Hinit) as Hinit1.
  set (w1 := set_posts (fun l => l ++ new) w) in *.
  destruct c as [response | e | ]; [ | | contradiction].
  - assert (Hloop : returns
      (for_of (results response) (fun res =>
         if BatchResult.success res then
           updateSyncStatus (BatchResult.taskId res) StSynced
             (BatchResult.serverData res) ;;;
           modify (set_successCount (fun n => n + 1)%Z)
         else
           item <- find_by_taskId batch (BatchResult.taskId res) ;;
           match item with
           | Some item =>
               handleSyncError item (or_else (BatchResult.error res) "Sync error")
           | None => ret tt
           end ;;;
           modify (set_errorCount (fun n => n + 1)%Z))) w1
      (fun _ w' => Inv w')).
    { apply returns_for_of; [ | exact Hinit1].
      intros res w2 _ HI2. destruct (BatchResult.success res).
      - apply returns_bind.
        eapply returns_mono; [apply Hstatus; exact HI2 | ].
        intros u w3 HI3. apply returns_modify. apply Hsucc. exact HI3.
      - apply returns_bind.
        destruct (find_by_taskId_run batch (BatchResult.taskId res) w2)
          as (r & Hfind & Hr).
        exists r, w2. split; [exact Hfind | ].
        apply returns_bind.
        assert (Hstep : returns
          (match r with
           | Some item =>
               handleSyncError item (or_else (BatchResult.error res) "Sync error")
           | None => ret tt
           end) w2 (fun _ w' => Inv w')).
        { destruct r as [item | ].
          - destruct Hr as (Hin & q & Hq & _).
            eapply Hhandle; eassumption.
          - apply returns_ret. exact HI2. }
        eapply returns_mono; [exact Hstep | ].
        intros u w3 HI3. apply returns_modify. apply Herr. exact HI3. }
    destruct Hloop as (u & w' & Hloop & HI').
    exists (Normal u), w'. split; [exact Hloop | exact HI'].
  - exists (Throw e), w1. split; [reflexivity | ].
    apply returns_bind.
    eapply returns_mono.
    + apply (returns_for_of Inv); [ | exact Hinit1].
      intros item w2 Hin HI2.
      destruct (Hrefs w2 item HI2 Hin) as [q Hq].
      eapply Hhandle; eassumption.
    + intros u w2 HI2. apply returns_modify. apply Herr. exact HI2.
Qed.

Lemma slice_elem {A} (arr : list A) start stop (x : A) :
  x ∈ slice arr start stop -> x ∈ arr.
Proof.
  unfold slice. intros Hx.
  apply list_elem_of_lookup in Hx. destruct Hx as [k Hk].
  apply lookup_take_Some in Hk. destruct Hk as [Hk _].
  rewrite lookup_drop in Hk.
  apply list_elem_of_lookup. eexists. exact Hk.
Qed.

(** The whole loop keeps such a property, for a positive batch size. *)
Lemma sync_keeps this B (Inv : World -> Prop) w fuel :
  batchSize this = Some B -> (0 < B)%Z ->
  (forall w f, Inv w -> Inv (set_successCount f w)) ->
  (forall w f, Inv w -> Inv (set_errorCount f w)) ->
  (forall w new, Inv w -> Inv (set_posts (fun l => l ++ new) w)) ->
  (forall w taskId serverData, Inv w ->
     returns (updateSyncStatus taskId StSynced serverData) w
       (fun _ w' => Inv w')) ->
  (forall w item message q, heap w !! item = Some q -> Inv w ->
     returns (handleSyncError item message) w (fun _ w' => Inv w')) ->
  (forall w1, Inv w1 -> length (heap w1) = length (sync_queue w)) ->
  length (sync_queue w) < fuel ->
  Inv (sync_start w) ->
  returns (sync this fuel) w (fun r w' =>
    r = SyncResult.mk (successCount w') (errorCount w')
          (Z.of_nat (length (sync_queue w))) /\ Inv w').
Proof.
  intros HB Hpos Hsucc Herr Hposts Hstatus Hhandle Hlen Hfuel Hstart.
  eapply returns_mono.
  - apply (sync_invariant this B (fun _ w1 => Inv w1) w fuel HB Hpos);
      [ | exact Hfuel | exact Hstart].
    intros i w1 Hi HI.
    apply (sync_batch_keeps this _ Inv w1); auto.
    + intros w2 item message q _ Hq HI2. eapply Hhandle; eassumption.
    + intros w2 r HI2 Hr. apply slice_elem, elem_of_seq in Hr.
      apply lookup_lt_is_Some. rewrite (Hlen w2 HI2). lia.
  - intros r w' (Hr & j & _ & HI). auto.
Qed.

Lemma returns_both {A} (m : IO A) w (Q1 Q2 : A -> World -> Prop) :
  returns m w Q1 -> returns m w Q2 ->
  returns m w (fun a w' => Q1 a w' /\ Q2 a w').
Proof.
  intros (a & w' & Hrun & H1) (a2 & w2 & Hrun2 & H2).
  rewrite Hrun in Hrun2. injection Hrun2 as <- <-.
  exists a, w'. auto.
Qed.

Lemma updateSyncStatus_rejected taskId status serverData w :
  (forall task, ~ live w taskId task) ->
  updateSyncStatus taskId status serverData w =
  (Normal tt,
   if decide (status = StSynced)
   then set_sync_queue (fun l => List.filter (Database.other_task taskId) l)
          (set_dates S w)
   else set_dates S w).
Proof.
  intros Hnone. unfold updateSyncStatus. unfold bind at 1.
  unfold new_Date_toISOString. unfold bind at 1.
  assert (Hrun : updateTask taskId
                   (status_updates status (toISOString (dates w)) serverData)
                   (set_dates S w) = (Normal None, set_dates S w)).
  { destruct (tasks w !! taskId) as [task | ] eqn:Hget.
    - destruct (Task.isDeleted task) eqn:Hdel.
      + eapply updateTask_deleted; eassumption.
      + exfalso. apply (Hnone task). split; assumption.
    - apply updateTask_absent. exact Hget. }
  rewrite Hrun. destruct (decide (status = StSynced)); reflexivity.
Qed.

Lemma content_status_updates task status now serverData now' :
  content (updated_task task (status_updates status now serverData) now') =
  content task.
Proof. reflexivity. Qed.

Lemma content_insert (m : gmap string Task.t) id task task' :
  m !! id = Some task -> content task' = content task ->
  content <$> <[id := task']> m = content <$> m.
Proof.
  intros Hget Hc. rewrite fmap_insert. apply insert_id.
  rewrite lookup_fmap, Hget, Hc. reflexivity.
Qed.

(** Status propagation never touches the content of a record, and never
    adds or removes one. *)
Lemma updateSyncStatus_content taskId status serverData w :
  returns (updateSyncStatus taskId status serverData) w (fun _ w' =>
    content <$> tasks w' = content <$> tasks w).
Proof.
  destruct (tasks w !! taskId) as [task | ] eqn:Hget;
    [destruct (Task.isDeleted task) eqn:Hdel | ].
  - eexists _, _. split.
    + apply updateSyncStatus_rejected. intros t [Ht Hl]. congruence.
    + destruct (decide (status = StSynced)); reflexivity.
  - eapply returns_mono;
      [apply (updateSyncStatus_live taskId status serverData w task);
       split; assumption | ].
    intros u w' Htasks. simpl in Htasks. rewrite Htasks.
    apply (content_insert _ _ task); [exact Hget | ].
    apply content_status_updates.
  - eexists _, _. split.
    + apply updateSyncStatus_rejected. intros t [Ht Hl]. congruence.
    + destruct (decide (status = StSynced)); reflexivity.
Qed.

Lemma handleSyncError_content item message w q :
  heap w !! item = Some q ->
  returns (handleSyncError item message) w (fun _ w' =>
    content <$> tasks w' = content <$> tasks w).
Proof.
  intros Hq. unfold handleSyncError.
  apply returns_bind, returns_modify.
  apply returns_bind.
  exists (bump_retryCount q), (set_heap (alter bump_retryCount item) w).
  split.
  { unfold deref. simpl. rewrite list_lookup_alter_eq, Hq. reflexivity. }
  apply returns_bind, returns_modify.
  destruct (3 <? SyncQueueItem.retryCount (bump_retryCount q))%Z.
  - apply returns_bind.
    eapply returns_mono; [apply updateSyncStatus_content | ].
    intros u w1 Hc. apply returns_modify. exact Hc.
  - apply returns_ret. reflexivity.
Qed.

Lemma queue_after_error_length q message (l : list SyncQueueItem.t) :
  length (queue_after_error q message l) <= length l.
Proof.
  unfold queue_after_error.
  destruct (3 <? SyncQueueItem.retryCount q)%Z.
  - etransitivity; [apply List.filter_length_le | ].
    rewrite length_fmap. reflexivity.
  - rewrite length_fmap. reflexivity.
Qed.

Lemma sync_safe this B w fuel :
  batchSize this = Some B -> (0 < B)%Z ->
  length (sync_queue w) < fuel ->
  returns (sync this fuel) w (fun r w' =>
    SyncResult.total r = Z.of_nat (length (sync_queue w)) /\
    length (sync_queue w') <= length (sync_queue w) /\
    content <$> tasks w' = content <$> tasks w /\
    console w' = console w).
Proof.
  intros HB Hpos Hfuel.
  eapply returns_mono.
  - apply (sync_keeps this B (fun w1 =>
             static <$> heap w1 = static <$> sync_queue w /\
             length (sync_queue w1) <= length (sync_queue w) /\
             content <$> tasks w1 = content <$> tasks w /\
             console w1 = console w) w fuel HB Hpos); try exact Hfuel.
    + intros w1 f H. exact H.
    + intros w1 f H. exact H.
    + intros w1 new H. exact H.
    + intros w1 taskId serverData (Hh & Hl & Hc & Hk).
      eapply returns_mono;
        [apply (returns_both _ _ _ _
                  (updateSyncStatus_frame taskId StSynced serverData w1)
                  (updateSyncStatus_content taskId StSynced serverData w1)) | ].
      intros u w2 [(Hh2 & _ & Hk2 & _ & _ & Hq2) Hc2]. simpl in Hq2.
      rewrite Hh2, Hq2, Hc2, Hk2. split; [exact Hh | ].
      split; [ | auto].
      etransitivity; [apply List.filter_length_le | exact Hl].
    + intros w1 item message q Hq (Hh & Hl & Hc & Hk).
      eapply returns_mono;
        [apply (returns_both _ _ _ _
                  (handleSyncError_frame item message w1 q Hq)
                  (handleSyncError_content item message w1 q Hq)) | ].
      intros u w2 [(Hh2 & _ & Hk2 & _ & _ & Hq2) Hc2].
      rewrite Hh2, Hq2, Hc2, Hk2, static_alter_bump. split; [exact Hh | ].
      split; [ | auto].
      etransitivity; [apply queue_after_error_length | exact Hl].
    + intros w1 (Hh & _).
      rewrite <- (length_fmap static (heap w1)), Hh, length_fmap. reflexivity.
    + simpl. auto.
  - intros r w' (Hr & _ & Hl & Hc & Hk).
    rewrite Hr. simpl. auto.
Qed.

(** X5.  For a positive batch size, [sync()] always returns - whatever the
    queued data and whatever the endpoint answers or refuses - with
    [total] the length of the queue it found; it never leaves more entries
    queued than it found, never adds or removes a record, never changes a
    record's id, title, description, completed or deleted flag or creation
    time, and writes nothing to the console. *)
Theorem sync_returns_and_keeps_content this B w fuel :
  batchSize this = Some B -> (0 < B)%Z ->
  length (sync_queue w) < fuel ->
  returns (sync this fuel) w (fun r w' =>
    SyncResult.total r = Z.of_nat (length (sync_queue w)) /\
    length (sync_queue w') <= length (sync_queue w) /\
    content <$> tasks w' = content <$> tasks w /\
    console w' = console w).
Proof. exact (sync_safe this B w fuel). Qed.

Lemma sync_batch_unfold this batch :
  sync_batch this batch =
  try_catch
    (response <- processBatch this batch ;;
     for_of (results response) (handle_result batch))
    (fail_batch batch).
Proof. reflexivity. Qed.

(** X6.  On an empty queue [sync()] returns [{0, 0, 0}] after one test of
    its loop condition, for every batch size (a missing or senseless one
    too); it posts nothing and leaves the stores, the clock, the UUID
    source and the console as they are. *)
Theorem sync_on_empty_queue this fuel w :
  sync_queue w = [] -> 0 < fuel ->
  exists w',
    sync this fuel w = (Normal (SyncResult.mk 0 0 0), w') /\
    tasks w' = tasks w /\ sync_queue w' = [] /\ posts w' = posts w /\
    dates w' = dates w /\ uuids w' = uuids w /\ console w' = console w.
Proof.
  intros Hempty Hfuel. destruct fuel as [ | fuel]; [lia | ].
  exists (sync_start w). split.
  - unfold sync, sync_start, bind, Database.getSyncQueueItems, modify, gets, ret.
    rewrite Hempty. reflexivity.
  - simpl. rewrite Hempty. repeat split; reflexivity.
Qed.

Lemma sendable_nil (h : list SyncQueueItem.t) : sendable h [].
Proof. intros r Hr. apply elem_of_nil in Hr. contradiction. Qed.

Lemma slice_to_NaN {A} (arr : list A) : slice arr (Some 0%Z) None = [].
Proof.
  unfold slice, clamp_index, to_integer. simpl.
  rewrite Z.min_l by lia. reflexivity.
Qed.

(** A batch without items: one request without items is posted; when it is
    refused, or answered without results, nothing else happens. *)
Lemma sync_batch_nil this w :
  exists w',
    sync_batch this [] w = (Normal tt, w') /\
    posts w' = posts w ++ [{| items := [] |}] /\
    (((exists e, axios_post (length (posts w)) {| items := [] |} = inr e) \/
      axios_post (length (posts w)) {| items := [] |} = inl {| results := [] |}) ->
     successCount w' = successCount w /\ errorCount w' = errorCount w /\
     sync_queue w' = sync_queue w /\ tasks w' = tasks w).
Proof.
  destruct (sync_batch_frame this [] w (sendable_nil _))
    as ([] & w' & Hrun & _ & Hposts & _).
  exists w'. split; [exact Hrun | ]. split; [exact Hposts | ].
  intros Hquiet.
  rewrite sync_batch_unfold in Hrun. unfold try_catch in Hrun.
  unfold bind at 1 in Hrun.
  rewrite (processBatch_run this [] w (sendable_nil _)) in Hrun.
  change (batch_request (heap w) []) with {| items := [] |} in Hrun.
  destruct Hquiet as [[e He] | Hnone]; [rewrite He in Hrun | rewrite Hnone in Hrun];
    simpl in Hrun; injection Hrun as <-; simpl;
    repeat split; try reflexivity; lia.
Qed.

(** X7.  A batch size that is not a number makes [sync()] on a non-empty
    queue post a single request without items and stop: [total] is the
    length of the queue, and when that request is refused, or answered
    without results,
    both counters are 0 and queue and records are untouched - no item is
    ever sent. *)
Theorem sync_with_NaN_batch_size this fuel w :
  batchSize this = None -> sync_queue w <> [] -> 1 < fuel ->
  returns (sync this fuel) w (fun r w' =>
    SyncResult.total r = Z.of_nat (length (sync_queue w)) /\
    posts w' = posts w ++ [{| items := [] |}] /\
    (((exists e, axios_post (length (posts w)) {| items := [] |} = inr e) \/
      axios_post (length (posts w)) {| items := [] |} = inl {| results := [] |}) ->
     SyncResult.successCount r = 0%Z /\ SyncResult.errorCount r = 0%Z /\
     sync_queue w' = sync_queue w /\ tasks w' = tasks w)).
Proof.
  intros HB Hne Hfuel.
  destruct fuel as [ | [ | fuel]]; try lia.
  destruct (sync_batch_nil this (sync_start w)) as (w1 & Hrun & Hposts & Hquiet).
  assert (Hloop : sync_loop this (S (S fuel)) (seq 0 (length (sync_queue w)))
                    (Some 0%Z) (sync_start w) = (Normal tt, w1)).
  { cbn [sync_loop]. rewrite HB. unfold js_lt at 1. rewrite length_seq.
    destruct (Z.ltb_spec 0 (Z.of_nat (length (sync_queue w)))) as [_ | Hle].
    - change (js_add (Some 0%Z) None) with (@None Z).
      rewrite slice_to_NaN. unfold bind. rewrite Hrun. reflexivity.
    - destruct (sync_queue w); [contradiction | simpl in Hle; lia]. }
  eexists _, _. split.
  - unfold sync. unfold bind at 1. unfold Database.getSyncQueueItems.
    unfold bind at 1. unfold modify at 1. unfold bind at 1. unfold modify at 1.
    unfold bind at 1.
    change (set_errorCount (fun _ => 0%Z)
              (set_successCount (fun _ => 0%Z)
                 (set_heap (fun _ => sync_queue w) w))) with (sync_start w).
    rewrite Hloop. reflexivity.
  - simpl. rewrite length_seq. split; [reflexivity | ].
    split; [exact Hposts | ]. exact Hquiet.
Qed.

(** X8.  A batch size of zero or below makes [sync()] on a non-empty queue
    loop for ever: whatever number of loop tests it is given, it has not
    returned. *)
Theorem sync_never_returns_for_nonpositive_batch_size this B w fuel :
  batchSize this = Some B -> (B <= 0)%Z -> sync_queue w <> [] ->
  fst (sync this fuel w) = Diverge.
Proof.
  intros HB Hneg Hne.
  assert (Hloop : forall fuel i w1,
            (i <= 0)%Z -> length (heap w1) = length (sync_queue w) ->
            fst (sync_loop this fuel (seq 0 (length (sync_queue w))) (Some i) w1)
            = Diverge).
  { clear fuel. induction fuel as [ | fuel IH]; intros i w1 Hi Hlen; [reflexivity | ].
    cbn [sync_loop]. rewrite HB. unfold js_lt at 1. rewrite length_seq.
    destruct (Z.ltb_spec i (Z.of_nat (length (sync_queue w)))) as [_ | Hge].
    - destruct (sync_batch_keeps this
                  (slice (seq 0 (length (sync_queue w))) (Some i)
                     (js_add (Some i) (Some B)))
                  (fun w2 => length (heap w2) = length (sync_queue w)) w1)
        as (u & w2 & Hrun & Hlen2); auto.
      + intros w2 taskId serverData Hl.
        eapply returns_mono; [apply updateSyncStatus_frame | ].
        intros u w3 (Hh & _). simpl. rewrite Hh. exact Hl.
      + intros w2 item message q _ Hq Hl.
        eapply returns_mono; [apply (handleSyncError_frame item message w2 q Hq) | ].
        intros u w3 (Hh & _). simpl. rewrite Hh, length_alter. exact Hl.
      + intros w2 r Hl Hr. apply slice_elem, elem_of_seq in Hr.
        apply lookup_lt_is_Some. lia.
      + unfold bind. rewrite Hrun. simpl. apply IH; [lia | exact Hlen2].
    - destruct (sync_queue w); [contradiction | simpl in Hge; lia]. }
  unfold sync. unfold bind at 1. unfold Database.getSyncQueueItems.
  unfold bind at 1. unfold modify at 1. unfold bind at 1. unfold modify at 1.
  unfold bind at 1.
  specialize (Hloop fuel 0%Z
                (set_errorCount (fun _ => 0%Z)
                   (set_successCount (fun _ => 0%Z)
                      (set_heap (fun _ => sync_queue w) w)))
                ltac:(lia) eq_refl).
  destruct (sync_loop _ _ _ _ _) as [c w']. simpl in Hloop. subst c. reflexivity.
Qed.

Lemma handle_result_counts batch res w :
  (forall r, r ∈ batch -> is_Some (heap w !! r)) ->
  returns (handle_result batch res) w (fun _ w' =>
    static <$> heap w' = static <$> heap w /\ posts w' = posts w /\
    successCount w' =
      (successCount w + if BatchResult.success res then 1 else 0)%Z /\
    errorCount w' =
      (errorCount w + if BatchResult.success res then 0 else 1)%Z).
Proof.
  intros Hrefs. unfold handle_result. destruct (BatchResult.success res).
  - apply returns_bind.
    eapply returns_mono; [apply updateSyncStatus_frame | ].
    intros u w1 (Hh & Hp & _ & Hs & He & _). apply returns_modify. simpl.
    rewrite Hh, Hp, Hs, He. repeat split; lia.
  - apply returns_bind.
    destruct (find_by_taskId_run batch (BatchResult.taskId res) w)
      as (r & Hfind & Hr).
    exists r, w. split; [exact Hfind | ].
    apply returns_bind.
    destruct r as [item | ].
    + destruct Hr as (_ & q & Hq & _).
      eapply returns_mono; [apply (handleSyncError_frame item _ w q Hq) | ].
      intros u w1 (Hh & Hp & _ & Hs & He & _). apply returns_modify. simpl.
      rewrite Hh, Hp, Hs, He, static_alter_bump. repeat split; lia.
    + apply returns_ret. apply returns_modify. simpl. repeat split; lia.
Qed.

Lemma static_refs (h h' : list SyncQueueItem.t) (batch : list nat) :
  static <$> h' = static <$> h ->
  (forall r, r ∈ batch -> is_Some (h !! r)) ->
  forall r, r ∈ batch -> is_Some (h' !! r).
Proof.
  intros Hst Hrefs r Hr. destruct (Hrefs r Hr) as [q Hq].
  destruct (static_lookup h' h r q (eq_sym Hst) Hq) as (q' & Hq' & _).
  exists q'. exact Hq'.
Qed.

Lemma results_loop_counts batch rs :
  forall w,
    (forall r, r ∈ batch -> is_Some (heap w !! r)) ->
    returns (for_of rs (handle_result batch)) w (fun _ w' =>
      static <$> heap w' = static <$> heap w /\ posts w' = posts w /\
      successCount w' =
        (successCount w
         + Z.of_nat (length (List.filter BatchResult.success rs)))%Z /\
      errorCount w' =
        (errorCount w
         + Z.of_nat (length (List.filter
                               (fun res => negb (BatchResult.success res)) rs)))%Z).
Proof.
  induction rs as [ | res rest IH]; intros w Hrefs.
  - apply returns_ret. simpl. repeat split; lia.
  - cbn [for_of]. apply returns_bind.
    eapply returns_mono; [apply (handle_result_counts batch res w Hrefs) | ].
    intros u w1 (Hh1 & Hp1 & Hs1 & He1).
    eapply returns_mono;
      [apply (IH w1); apply (static_refs (heap w) (heap w1) batch Hh1 Hrefs) | ].
    intros u' w' (Hh & Hp & Hs & He). simpl.
    rewrite Hh, Hp, Hs, He, Hh1, Hp1, Hs1, He1.
    destruct (BatchResult.success res); simpl; repeat split; lia.
Qed.

Lemma fail_batch_counts batch e w :
  (forall r, r ∈ batch -> is_Some (heap w !! r)) ->
  returns (fail_batch batch e) w (fun _ w' =>
    static <$> heap w' = static <$> heap w /\ posts w' = posts w /\
    successCount w' = successCount w /\
    errorCount w' = (errorCount w + Z.of_nat (length batch))%Z).
Proof.
  intros Hrefs. unfold fail_batch. apply returns_bind.
  eapply returns_mono.
  - apply (returns_for_of (fun w' =>
      static <$> heap w' = static <$> heap w /\ posts w' = posts w /\
      successCount w' = successCount w /\ errorCount w' = errorCount w)).
    + intros item w1 Hin (Hh & Hp & Hs & He).
      destruct (static_refs (heap w) (heap w1) batch Hh Hrefs item Hin) as [q Hq].
      eapply returns_mono; [apply (handleSyncError_frame item e w1 q Hq) | ].
      intros u w2 (Hh2 & Hp2 & _ & Hs2 & He2 & _). simpl.
      rewrite Hh2, Hp2, Hs2, He2, static_alter_bump. auto.
    + auto.
  - intros u w1 (Hh & Hp & Hs & He). apply returns_modify. simpl.
    rewrite Hh, Hp, Hs, He. auto.
Qed.

Lemma sync_batch_counts this batch w :
  (forall r, r ∈ batch -> is_Some (heap w !! r)) ->
  returns (sync_batch this batch) w (fun _ w' =>
    match fst (processBatch this batch w) with
    | Normal response =>
        successCount w' =
          (successCount w
           + Z.of_nat (length (List.filter BatchResult.success
                                 (results response))))%Z /\
        errorCount w' =
          (errorCount w
           + Z.of_nat (length (List.filter
                                 (fun res => negb (BatchResult.success res))
                                 (results response))))%Z
    | _ =>
        successCount w' = successCount w /\
        errorCount w' = (errorCount w + Z.of_nat (length batch))%Z
    end).
Proof.
  intros Hrefs. rewrite sync_batch_unfold. apply returns_try_catch.
  unfold bind at 1.
  destruct (processBatch_world this batch w) as (c & new & Hrun & Hc).
  rewrite Hrun. simpl.
  destruct c as [response | e | ]; [ | | contradiction].
  - destruct (results_loop_counts batch (results response)
                (set_posts (fun l => l ++ new) w) Hrefs)
      as (u & w' & Hloop & _ & _ & Hs & He).
    exists (Normal u), w'. split; [exact Hloop | ]. simpl in Hs, He. auto.
  - exists (Throw e), (set_posts (fun l => l ++ new) w).
    split; [reflexivity | ].
    eapply returns_mono;
      [apply (fail_batch_counts batch e (set_posts (fun l => l ++ new) w) Hrefs) | ].
    intros u w' (_ & _ & Hs & He). simpl in Hs, He. auto.
Qed.

(** X9.  How one batch is counted: when the request is answered,
    successCount grows by the number of results that report success and
    errorCount by the number of the others - whether or not a result names
    a task of the batch; when it is not answered (refused, or not sent
    because an item does not parse), successCount stays and errorCount
    grows by the size of the batch.  In both cases the batch returns. *)
Theorem batch_counting this batch w :
  (forall r, r ∈ batch -> is_Some (heap w !! r)) ->
  returns (sync_batch this batch) w (fun _ w' =>
    match fst (processBatch this batch w) with
    | Normal response =>
        successCount w' =
          (successCount w
           + Z.of_nat (length (List.filter BatchResult.success
                                 (results response))))%Z /\
        errorCount w' =
          (errorCount w
           + Z.of_nat (length (List.filter
                                 (fun res => negb (BatchResult.success res))
                                 (results response))))%Z
    | _ =>
        successCount w' = successCount w /\
        errorCount w' = (errorCount w + Z.of_nat (length batch))%Z
    end).
Proof. exact (sync_batch_counts this batch w). Qed.

(** Whatever happens to a batch, the item objects keep their identity. *)
Lemma sync_batch_keeps_objects this batch w :
  (forall r, r ∈ batch -> is_Some (heap w !! r)) ->
  returns (sync_batch this batch) w (fun _ w' =>
    static <$> heap w' = static <$> heap w).
Proof.
  intros Hrefs.
  apply (sync_batch_keeps this batch
           (fun w' => static <$> heap w' = static <$> heap w)); auto.
  - intros w1 taskId serverData Hst.
    eapply returns_mono; [apply updateSyncStatus_frame | ].
    intros u w2 (Hh & _). simpl. rewrite Hh. exact Hst.
  - intros w1 item message q _ Hq Hst.
    eapply returns_mono; [apply (handleSyncError_frame item message w1 q Hq) | ].
    intros u w2 (Hh & _). simpl. rewrite Hh, static_alter_bump. exact Hst.
  - intros w1 r Hst Hr. apply (static_refs (heap w) (heap w1) batch Hst Hrefs r Hr).
Qed.

Lemma request_items_length batch :
  forall w l w',
    map_io (fun item =>
      it <- deref item ;;
      match JSON_parse (SyncQueueItem.data it) with
      | inl v =>
          ret (SyncRequestItem.mk (SyncQueueItem.taskId it)
                 (SyncQueueItem.operation it) v)
      | inr e => throw e
      end) batch w = (Normal l, w') ->
    length l = length batch.
Proof.
  induction batch as [ | r rest IH]; intros w l w' Hrun.
  - injection Hrun as <- _. reflexivity.
  - cbn [map_io] in Hrun. unfold bind at 1 in Hrun. unfold bind at 1 in Hrun.
    unfold deref at 1 in Hrun.
    destruct (heap w !! r) as [q | ]; [ | discriminate].
    destruct (JSON_parse (SyncQueueItem.data q)) as [v | e]; [ | discriminate].
    unfold ret at 1 in Hrun. unfold bind at 1 in Hrun.
    match type of Hrun with
    | context [map_io ?f rest w] => destruct (map_io f rest w) as [c w1] eqn:Hrest
    end.
    destruct c as [ys | e | ]; try discriminate.
    injection Hrun as <- _. simpl. f_equal. eapply IH. exact Hrest.
Qed.

(** An answer is the answer to a request with one entry per batch item. *)
Lemma processBatch_answer this batch w response :
  fst (processBatch this batch w) = Normal response ->
  exists request,
    axios_post (length (posts w)) request = inl response /\
    length (items request) = length batch.
Proof.
  unfold processBatch. unfold bind at 1.
  match goal with
  | |- context [map_io ?f batch w] => destruct (map_io f batch w) as [c w1] eqn:Hitems
  end.
  destruct c as [l | e | ]; try discriminate.
  destruct (request_items_world batch w) as (c' & Hrun' & _).
  rewrite Hitems in Hrun'. injection Hrun' as _ ->.
  destruct (axios_post (length (posts w)) {| items := l |}) as [data | e] eqn:Hpost;
    [ | discriminate].
  simpl. intros [= <-]. exists {| items := l |}. split; [exact Hpost | ].
  simpl. eapply request_items_length. exact Hitems.
Qed.

(** X10.  When the endpoint keeps its contract - one result per request
    item - the counts of a [sync()] add up: successCount + errorCount =
    total, both non-negative, whether batches are answered, refused or
    not sent at all. *)
Theorem sync_counts_add_up this B w fuel :
  batchSize this = Some B -> (0 < B)%Z ->
  length (sync_queue w) < fuel ->
  (forall n request response,
     axios_post n request = inl response ->
     length (results response) = length (items request)) ->
  returns (sync this fuel) w (fun r _ =>
    (SyncResult.successCount r + SyncResult.errorCount r
     = SyncResult.total r)%Z /\
    (0 <= SyncResult.successCount r)%Z /\ (0 <= SyncResult.errorCount r)%Z).
Proof.
  intros HB Hpos Hfuel Hcontract.
  set (n := length (sync_queue w)).
  eapply returns_mono.
  - apply (sync_invariant this B (fun i w1 =>
             length (heap w1) = n /\
             (successCount w1 + errorCount w1 = Z.min i (Z.of_nat n))%Z /\
             (0 <= successCount w1)%Z /\ (0 <= errorCount w1)%Z)
             w fuel HB Hpos); [ | exact Hfuel | ].
    + intros i w1 Hi (Hlen & Hsum & Hs0 & He0). fold n in Hi |- *.
      assert (Hrefs : forall r, r ∈ batch_at this n i -> is_Some (heap w1 !! r)).
      { intros r Hr. apply (batch_at_elem this B n i r HB Hpos Hi) in Hr.
        apply lookup_lt_is_Some. lia. }
      eapply returns_mono;
        [apply (returns_both _ _ _ _
                  (sync_batch_keeps_objects this _ w1 Hrefs)
                  (sync_batch_counts this _ w1 Hrefs)) | ].
      intros u w2 [Hst Hcount]. simpl in Hcount.
      split.
      { rewrite <- (length_fmap static (heap w2)), Hst, length_fmap. exact Hlen. }
      pose proof (batch_at_seq this B n i HB Hpos Hi) as Hbatch.
      assert (Hsize : Z.of_nat (length (batch_at this n i))
                      = (Z.min (i + B) (Z.of_nat n) - i)%Z).
      { rewrite Hbatch, length_seq. lia. }
      destruct (fst (processBatch this (batch_at this n i) w1))
        as [response | e | ] eqn:Hanswer.
      * destruct (processBatch_answer this _ w1 response Hanswer)
          as (request & Hpost & Hitems).
        pose proof (Hcontract _ _ _ Hpost) as Hresults.
        pose proof (List.filter_length BatchResult.success (results response))
          as Hsplit.
        destruct Hcount as [Hs He]. lia.
      * destruct Hcount as [Hs He]. lia.
      * destruct Hcount as [Hs He]. lia.
    + simpl. fold n. repeat split; lia.
  - intros r w' (Hr & j & Hj & _ & Hsum & Hs0 & He0). fold n in Hr, Hj.
    rewrite Hr. simpl. repeat split; lia.
Qed.

(** X11.  A batch that holds an item whose data does not parse is not sent:
    [processBatch] throws the parser's message for the first such item
    before anything is posted, and [sync] then charges one failure to every
    item of the batch, the parsable ones too. *)
Theorem unparsable_batch_is_not_sent this pre item post w q e :
  sendable (heap w) pre ->
  heap w !! item = Some q ->
  JSON_parse (SyncQueueItem.data q) = inr e ->
  (forall r, r ∈ post -> is_Some (heap w !! r)) ->
  processBatch this (pre ++ item :: post) w = (Throw e, w) /\
  returns (sync_batch this (pre ++ item :: post)) w (fun _ w' =>
    posts w' = posts w /\
    successCount w' = successCount w /\
    errorCount w' =
      (errorCount w + Z.of_nat (length (pre ++ item :: post)))%Z).
Proof.
  intros Hpre Hq He Hpost.
  assert (Hthrow : processBatch this (pre ++ item :: post) w = (Throw e, w)).
  { unfold processBatch. unfold bind at 1.
    match goal with
    | |- context [map_io ?f (pre ++ item :: post) w] =>
        assert (Hitems : map_io f (pre ++ item :: post) w = (Throw e, w))
    end.
    { clear Hpost. induction pre as [ | r rest IH].
      - cbn [app map_io]. unfold bind at 1. unfold bind at 1. unfold deref at 1.
        rewrite Hq, He. reflexivity.
      - apply sendable_cons in Hpre. destruct Hpre as [(q' & Hq' & v & Hv) Hrest].
        cbn [app map_io]. unfold bind at 1. unfold bind at 1. unfold deref at 1.
        rewrite Hq', Hv. unfold ret at 1. unfold bind at 1.
        rewrite (IH Hrest). reflexivity. }
    rewrite Hitems. reflexivity. }
  split; [exact Hthrow | ].
  assert (Hrefs : forall r, r ∈ pre ++ item :: post -> is_Some (heap w !! r)).
  { intros r Hr. apply elem_of_app in Hr. destruct Hr as [Hr | Hr].
    - destruct (Hpre r Hr) as (q' & Hq' & _). exists q'. exact Hq'.
    - apply elem_of_cons in Hr. destruct Hr as [-> | Hr]; [exists q; exact Hq | ].
      apply Hpost. exact Hr. }
  rewrite sync_batch_unfold. apply returns_try_catch.
  unfold bind at 1. rewrite Hthrow.
  exists (Throw e), w. split; [reflexivity | ].
  eapply returns_mono; [apply (fail_batch_counts _ e w Hrefs) | ].
  intros u w' (_ & Hp & Hs & Hc). auto.
Qed.

Lemma find_by_taskId_first batch taskId w :
  find_by_taskId batch taskId w =
  (Normal (first_with_taskId (heap w) batch taskId), w).
Proof. reflexivity. Qed.

Lemma first_with_taskId_some (h : list SyncQueueItem.t) batch taskId item :
  first_with_taskId h batch taskId = Some item ->
  exists q, h !! item = Some q /\ SyncQueueItem.taskId q = taskId.
Proof.
  unfold first_with_taskId. intros Hfind.
  apply List.find_some in Hfind. destruct Hfind as [_ Htest].
  destruct (h !! item) as [q | ]; [ | discriminate].
  exists q. split; [reflexivity | ].
  apply bool_decide_eq_true_1 in Htest. exact Htest.
Qed.

(** [batch.find] reads only the taskIds, which a failure does not change. *)
Lemma first_with_taskId_bump (h : list SyncQueueItem.t) batch taskId item :
  first_with_taskId (alter bump_retryCount item h) batch taskId =
  first_with_taskId h batch taskId.
Proof.
  unfold first_with_taskId.
  induction batch as [ | r rest IH]; [reflexivity | ].
  cbn [List.find]. rewrite IH.
  destruct (decide (item = r)) as [-> | Hne].
  - rewrite list_lookup_alter_eq. destruct (h !! r); reflexivity.
  - rewrite list_lookup_alter_ne by exact Hne. reflexivity.
Qed.

Lemma rejected_loop batch taskId item rs :
  Forall (fun res => BatchResult.success res = false /\
                     BatchResult.taskId res = taskId) rs ->
  forall w q,
    first_with_taskId (heap w) batch taskId = Some item ->
    heap w !! item = Some q ->
    returns (for_of rs (handle_result batch)) w (fun _ w' =>
      heap w' !! item =
        Some (SyncQueueItem.set_retryCount
                (SyncQueueItem.retryCount q + Z.of_nat (length rs)) q) /\
      (forall r, r <> item -> heap w' !! r = heap w !! r) /\
      errorCount w' = (errorCount w + Z.of_nat (length rs))%Z /\
      successCount w' = successCount w).
Proof.
  induction 1 as [ | res rest [Hfail Htask] _ IH]; intros w q Hfirst Hq.
  - apply returns_ret. simpl.
    split; [rewrite Hq, Z.add_0_r; destruct q; reflexivity | ].
    repeat split; auto; lia.
  - cbn [for_of]. apply returns_bind.
    unfold handle_result at 1. rewrite Hfail, Htask.
    apply returns_bind. exists (Some item), w.
    split; [rewrite find_by_taskId_first, Hfirst; reflexivity | ].
    apply returns_bind.
    eapply returns_mono; [apply (handleSyncError_frame item _ w q Hq) | ].
    intros u w1 (Hh1 & _ & _ & Hs1 & He1 & _).
    apply returns_modify.
    eapply returns_mono.
    + apply (IH (set_errorCount (fun n => n + 1)%Z w1) (bump_retryCount q)).
      * simpl. rewrite Hh1, first_with_taskId_bump. exact Hfirst.
      * simpl. rewrite Hh1, list_lookup_alter_eq, Hq. reflexivity.
    + intros u' w' (Hitem & Hothers & He & Hs). simpl in *.
      split.
      { rewrite Hitem. f_equal. unfold SyncQueueItem.set_retryCount. simpl.
        f_equal. lia. }
      split.
      { intros r Hr. rewrite (Hothers r Hr), Hh1.
        apply list_lookup_alter_ne. congruence. }
      split; [lia | congruence].
Qed.

(** X12.  Rejected results are matched to items by taskId alone: when an
    answer rejects one task several times - once for each of its operations
    in the batch, say - every rejection is charged to the first item of
    that task in the batch.  Its retryCount grows by the number of
    rejections, and no other item object changes. *)
Theorem rejections_land_on_first_item this batch w response taskId item q :
  sendable (heap w) batch ->
  axios_post (length (posts w)) (batch_request (heap w) batch) = inl response ->
  Forall (fun res => BatchResult.success res = false /\
                     BatchResult.taskId res = taskId) (results response) ->
  first_with_taskId (heap w) batch taskId = Some item ->
  heap w !! item = Some q ->
  returns (sync_batch this batch) w (fun _ w' =>
    heap w' !! item =
      Some (SyncQueueItem.set_retryCount
              (SyncQueueItem.retryCount q
               + Z.of_nat (length (results response))) q) /\
    (forall r, r <> item -> heap w' !! r = heap w !! r) /\
    errorCount w' = (errorCount w + Z.of_nat (length (results response)))%Z /\
    successCount w' = successCount w).
Proof.
  intros Hsend Hpost Hall Hfirst Hq.
  rewrite sync_batch_unfold. apply returns_try_catch.
  unfold bind at 1. rewrite (processBatch_run this batch w Hsend), Hpost.
  destruct (rejected_loop batch taskId item (results response) Hall
              (set_posts (fun l => l ++ [batch_request (heap w) batch]) w) q
              Hfirst Hq) as (u & w' & Hloop & Hrest).
  exists (Normal u), w'. split; [exact Hloop | exact Hrest].
Qed.

Lemma unknown_loop batch rs :
  forall w,
    Forall (fun res => BatchResult.success res = false /\
                       first_with_taskId (heap w) batch (BatchResult.taskId res)
                       = None) rs ->
    returns (for_of rs (handle_result batch)) w (fun _ w' =>
      heap w' = heap w /\ sync_queue w' = sync_queue w /\
      tasks w' = tasks w /\ dates w' = dates w /\ uuids w' = uuids w /\
      posts w' = posts w /\ successCount w' = successCount w /\
      errorCount w' = (errorCount w + Z.of_nat (length rs))%Z).
Proof.
  induction rs as [ | res rest IH]; intros w Hall.
  - apply returns_ret. simpl. repeat split; lia.
  - apply Forall_cons in Hall. destruct Hall as [[Hfail Hnone] Hrest].
    cbn [for_of]. apply returns_bind.
    unfold handle_result at 1. rewrite Hfail.
    apply returns_bind. exists None, w.
    split; [rewrite find_by_taskId_first, Hnone; reflexivity | ].
    apply returns_bind, returns_ret. apply returns_modify.
    eapply returns_mono;
      [apply (IH (set_errorCount (fun n => n + 1)%Z w)); exact Hrest | ].
    intros u w' (Hh & Hq & Ht & Hd & Hu & Hp & Hs & He). simpl in *.
    repeat split; try assumption. lia.
Qed.

(** X13.  A rejected result whose taskId no item of the batch carries is
    counted as an error and nothing more: no retryCount moves, no queue
    entry and no record is written, the clock is not read. *)
Theorem unknown_rejections_only_count this batch w response :
  sendable (heap w) batch ->
  axios_post (length (posts w)) (batch_request (heap w) batch) = inl response ->
  Forall (fun res => BatchResult.success res = false /\
                     first_with_taskId (heap w) batch (BatchResult.taskId res)
                     = None) (results response) ->
  returns (sync_batch this batch) w (fun _ w' =>
    heap w' = heap w /\ sync_queue w' = sync_queue w /\
    tasks w' = tasks w /\ dates w' = dates w /\ uuids w' = uuids w /\
    successCount w' = successCount w /\
    errorCount w' = (errorCount w + Z.of_nat (length (results response)))%Z).
Proof.
  intros Hsend Hpost Hall.
  rewrite sync_batch_unfold. apply returns_try_catch.
  unfold bind at 1. rewrite (processBatch_run this batch w Hsend), Hpost.
  destruct (unknown_loop batch (results response)
              (set_posts (fun l => l ++ [batch_request (heap w) batch]) w) Hall)
    as (u & w' & Hloop & Hh & Hq & Ht & Hd & Hu & _ & Hs & He).
  exists (Normal u), w'. split; [exact Hloop | ].
  simpl in *. auto 10.
Qed.

Lemma accepted_loop batch rs :
  Forall (fun res => BatchResult.success res = true) rs ->
  forall w,
    returns (for_of rs (handle_result batch)) w (fun _ w' =>
      heap w' = heap w /\ posts w' = posts w /\
      successCount w' = (successCount w + Z.of_nat (length rs))%Z /\
      errorCount w' = errorCount w /\
      forall q', q' ∈ sync_queue w' <->
        q' ∈ sync_queue w /\
        SyncQueueItem.taskId q' ∉ (BatchResult.taskId <$> rs)).
Proof.
  induction 1 as [ | res rest Hok _ IH]; intros w.
  - apply returns_ret. simpl.
    split; [reflexivity | ]. split; [reflexivity | ].
    split; [lia | ]. split; [reflexivity | ].
    intros q'. split.
    + intros Hq. split; [exact Hq | apply not_elem_of_nil].
    + intros [Hq _]. exact Hq.
  - cbn [for_of]. apply returns_bind.
    unfold handle_result at 1. rewrite Hok.
    apply returns_bind.
    eapply returns_mono; [apply updateSyncStatus_frame | ].
    intros u w1 (Hh1 & Hp1 & _ & Hs1 & He1 & Hq1). simpl in Hq1.
    apply returns_modify.
    eapply returns_mono;
      [apply (IH (set_successCount (fun n => n + 1)%Z w1)) | ].
    intros u' w' (Hh & Hp & Hs & He & Hq). simpl in *.
    split; [congruence | ]. split; [congruence | ].
    split; [lia | ]. split; [congruence | ].
    intros q'. rewrite Hq, Hq1, not_elem_of_cons.
    rewrite list_elem_of_In, List.filter_In, <- list_elem_of_In.
    unfold Database.other_task. rewrite bool_decide_eq_true.
    split.
    + intros [[Hin Hne] Hrest]. auto.
    + intros [Hin [Hne Hrest]]. auto.
Qed.

Lemma objects_length (h : list SyncQueueItem.t) batch :
  (forall r, r ∈ batch -> is_Some (h !! r)) ->
  length (objects h batch) = length batch.
Proof.
  induction batch as [ | r rest IH]; intros Hrefs; [reflexivity | ].
  destruct (Hrefs r ltac:(left)) as [q Hq].
  unfold objects. cbn [omap list_omap]. rewrite Hq.
  fold (objects h rest). simpl. f_equal. apply IH.
  intros r' Hr'. apply Hrefs. right. exact Hr'.
Qed.

Lemma request_taskIds (l : list SyncQueueItem.t) :
  SyncRequestItem.taskId <$> (request_item <$> l) = SyncQueueItem.taskId <$> l.
Proof. rewrite <- list_fmap_compose. reflexivity. Qed.

(** A batch that the endpoint accepts: every item counts as a success, and
    the queue loses exactly the entries of the tasks of the batch. *)
Lemma accepted_batch this batch w :
  accepts_everything ->
  sendable (heap w) batch ->
  returns (sync_batch this batch) w (fun _ w' =>
    heap w' = heap w /\
    successCount w' = (successCount w + Z.of_nat (length batch))%Z /\
    errorCount w' = errorCount w /\
    forall q', q' ∈ sync_queue w' <->
      q' ∈ sync_queue w /\
      SyncQueueItem.taskId q' ∉
        (SyncQueueItem.taskId <$> objects (heap w) batch)).
Proof.
  intros Haccept Hsend.
  destruct (Haccept (length (posts w)) (batch_request (heap w) batch))
    as (response & Hpost & Hids & Hok).
  rewrite sync_batch_unfold. apply returns_try_catch.
  unfold bind at 1. rewrite (processBatch_run this batch w Hsend), Hpost.
  destruct (accepted_loop batch (results response) Hok
              (set_posts (fun l => l ++ [batch_request (heap w) batch]) w))
    as (u & w' & Hloop & Hh & _ & Hs & He & Hq).
  exists (Normal u), w'. split; [exact Hloop | ].
  simpl in *. cbn [batch_request items] in Hids.
  rewrite request_taskIds in Hids.
  assert (Hlen : length (results response) = length batch).
  { rewrite <- (length_fmap BatchResult.taskId), Hids, length_fmap.
    apply objects_length. intros r Hr.
    destruct (Hsend r Hr) as (q & Hget & _). exists q. exact Hget. }
  split; [exact Hh | ]. split; [lia | ]. split; [exact He | ].
  intros q'. rewrite Hq, Hids. reflexivity.
Qed.

(** X14.  Against an endpoint that accepts every item, a [sync()] of a
    queue whose data parse reports every item as a success and no error,
    and leaves the queue empty. *)
Theorem accepted_sync_drains_the_queue this B w fuel :
  accepts_everything ->
  batchSize this = Some B -> (0 < B)%Z ->
  Forall parses (sync_queue w) ->
  length (sync_queue w) < fuel ->
  returns (sync this fuel) w (fun r w' =>
    r = SyncResult.mk (Z.of_nat (length (sync_queue w))) 0
          (Z.of_nat (length (sync_queue w))) /\
    sync_queue w' = []).
Proof.
  intros Haccept HB Hpos Hparse Hfuel.
  set (l0 := sync_queue w) in *.
  eapply returns_mono.
  - apply (sync_invariant this B (fun i w1 =>
             static <$> heap w1 = static <$> l0 /\
             (forall q', q' ∈ sync_queue w1 ->
                exists r q, (i <= Z.of_nat r)%Z /\ l0 !! r = Some q /\
                  SyncQueueItem.taskId q' = SyncQueueItem.taskId q) /\
             successCount w1 = Z.min i (Z.of_nat (length l0)) /\
             errorCount w1 = 0%Z) w fuel HB Hpos); [ | exact Hfuel | ].
    + intros i w1 Hi (Hst & Hqueue & Hs & He). fold l0 in Hi |- *.
      pose proof (sendable_batch_at this B l0 i w1 HB Hpos Hparse Hi Hst) as Hsend.
      eapply returns_mono; [apply (accepted_batch this _ w1 Haccept Hsend) | ].
      intros u w2 (Hh2 & Hs2 & He2 & Hq2).
      pose proof (batch_at_seq this B (length l0) i HB Hpos Hi) as Hbatch.
      split; [rewrite Hh2; exact Hst | ].
      split; [ | split; [ | congruence]].
      * intros q' Hq'. apply Hq2 in Hq'. destruct Hq' as [Hq' Hfresh].
        destruct (Hqueue q' Hq') as (r & q & Hr & Hget & Htask).
        exists r, q. split; [ | auto].
        destruct (Z.le_gt_cases (i + B) (Z.of_nat r)) as [Hle | Hlt]; [exact Hle | ].
        exfalso. apply Hfresh.
        pose proof (lookup_lt_Some _ _ _ Hget) as Hrange.
        assert (Hin : r ∈ batch_at this (length l0) i).
        { apply (batch_at_elem this B _ i r HB Hpos Hi). lia. }
        destruct (Hsend r Hin) as (h & Hh & _).
        destruct (static_lookup l0 (heap w1) r h Hst Hh) as (q1 & Hq1 & Hs1).
        assert (q1 = q) as -> by congruence.
        rewrite Htask.
        replace (SyncQueueItem.taskId q) with (SyncQueueItem.taskId h)
          by (unfold static in Hs1; congruence).
        apply list_elem_of_fmap_2. apply list_elem_of_omap.
        exists r. split; [exact Hin | exact Hh].
      * rewrite Hs2, Hs, Hbatch, length_seq. lia.
    + simpl. fold l0. split; [reflexivity | ]. split; [ | split; [lia | reflexivity]].
      intros q' Hq'. apply list_elem_of_lookup in Hq'. destruct Hq' as [r Hr].
      exists r, q'. split; [lia | ]. split; [exact Hr | reflexivity].
  - intros r w' (Hr & j & Hj & _ & Hqueue & Hs & He). fold l0 in Hr, Hj, Hs.
    split.
    + rewrite Hr, Hs, He. f_equal. lia.
    + apply elem_of_nil_inv. intros q' Hq'.
      destruct (Hqueue q' Hq') as (k & q & Hk & Hget & _).
      apply lookup_lt_Some in Hget. lia.
Qed.

(** ** Further properties: retries against an endpoint that is down *)

Lemma filter_sublist {A} (f : A -> bool) (l : list A) :
  List.filter f l `sublist_of` l.
Proof.
  induction l as [ | x l IH]; [constructor | ].
  simpl. destruct (f x); [apply sublist_skip | apply sublist_cons]; exact IH.
Qed.

Lemma static_after_error_sublist q e (l : list SyncQueueItem.t) :
  static <$> queue_after_error q e l `sublist_of` static <$> l.
Proof.
  assert (Hmap : static <$> (Database.update_retry (SyncQueueItem.id q)
                               (SyncQueueItem.retryCount q) e <$> l)
                 = static <$> l).
  { rewrite <- list_fmap_compose. apply list_fmap_ext.
    intros k x _. apply update_retry_static. }
  unfold queue_after_error.
  destruct (3 <? SyncQueueItem.retryCount q)%Z.
  - rewrite <- Hmap. apply (fmap_sublist static). apply filter_sublist.
  - rewrite Hmap. reflexivity.
Qed.

Lemma counted_here q e (l : list SyncQueueItem.t) :
  counted (SyncQueueItem.id q) (SyncQueueItem.retryCount q)
    (queue_after_error q e l).
Proof. intros q' Hq' Hid. apply (persisted_here q e l q' Hq' Hid). Qed.

Lemma counted_elsewhere id n q e (l : list SyncQueueItem.t) :
  SyncQueueItem.id q <> id ->
  counted id n l -> counted id n (queue_after_error q e l).
Proof.
  intros Hne Hc q' Hq' Hid. apply queue_after_error_elem in Hq'.
  destruct Hq' as (q0 & Hq0 & -> & _).
  unfold Database.update_retry in *.
  destruct (decide (SyncQueueItem.id q0 = SyncQueueItem.id q)) as [Heq | _].
  - simpl in Hid. congruence.
  - apply Hc; assumption.
Qed.

Lemma charged_start w : charged (sync_queue w) 0 (sync_start w).
Proof.
  unfold charged, sync_start.
  cbn [heap sync_queue set_errorCount set_successCount set_heap].
  split; [ | split; [ | split]].
  - intros r. destruct (decide (r < 0)); [lia | reflexivity].
  - reflexivity.
  - intros r q Hr. lia.
  - intros q Hq. left. exists q. split; [exact Hq | reflexivity].
Qed.

Lemma charged_frame l0 c w w' :
  heap w' = heap w -> sync_queue w' = sync_queue w ->
  charged l0 c w -> charged l0 c w'.
Proof. unfold charged. intros -> ->. auto. Qed.

(** Failing the item at position [c] once. *)
Lemma charged_after_error l0 c w w' q e :
  NoDup (SyncQueueItem.id <$> l0) ->
  charged l0 c w -> l0 !! c = Some q ->
  heap w' = alter bump_retryCount c (heap w) ->
  sync_queue w' = queue_after_error (bump_retryCount q) e (sync_queue w) ->
  charged l0 (S c) w'.
Proof.
  intros Hids (Hheap & Hsub & Hdone & Hkept) Hq Hh Hqueue.
  unfold charged. rewrite Hh, Hqueue. split; [ | split; [ | split]].
  - intros r. destruct (decide (c = r)) as [<- | Hne].
    + rewrite list_lookup_alter_eq, Hheap.
      destruct (decide (c < c)); [lia | ].
      destruct (decide (c < S c)); [reflexivity | lia].
    + rewrite list_lookup_alter_ne by exact Hne. rewrite Hheap.
      destruct (decide (r < c)); destruct (decide (r < S c));
        try reflexivity; lia.
  - etransitivity; [apply static_after_error_sublist | exact Hsub].
  - intros r qr Hr Hqr. destruct (decide (r = c)) as [-> | Hne].
    + assert (qr = q) as -> by congruence. split.
      * apply (counted_here (bump_retryCount q) e).
      * intros Hceil q' Hq'. apply queue_after_error_elem in Hq'.
        destruct Hq' as (q0 & _ & -> & Hother).
        pose proof (update_retry_static (SyncQueueItem.id (bump_retryCount q))
                      (SyncQueueItem.retryCount (bump_retryCount q)) e q0) as Hs.
        assert (Hne : SyncQueueItem.taskId q0
                      <> SyncQueueItem.taskId (bump_retryCount q)).
        { apply Hother. simpl. lia. }
        unfold static in Hs. simpl in Hne. congruence.
    + destruct (Hdone r qr ltac:(lia) Hqr) as [Hcount Hgone]. split.
      * apply counted_elsewhere; [ | exact Hcount].
        simpl. intros Heq. apply Hne.
        apply (NoDup_lookup _ r c (SyncQueueItem.id qr) Hids).
        -- rewrite list_lookup_fmap, Hqr. reflexivity.
        -- rewrite list_lookup_fmap, Hq. simpl. f_equal. exact Heq.
      * intros Hceil q' Hq'. apply queue_after_error_elem in Hq'.
        destruct Hq' as (q0 & Hq0 & -> & _).
        pose proof (update_retry_static (SyncQueueItem.id (bump_retryCount q))
                      (SyncQueueItem.retryCount (bump_retryCount q)) e q0) as Hs.
        pose proof (Hgone Hceil q0 Hq0) as Hne0.
        unfold static in Hs. congruence.
  - intros q1 Hq1. destruct (Hkept q1 Hq1) as [(q' & Hq' & Hs) | (r & q0 & Hr & Hq0 & Ht & Hc)].
    + destruct (decide ((3 <= SyncQueueItem.retryCount q)%Z /\
                        SyncQueueItem.taskId q' = SyncQueueItem.taskId q))
        as [[Hceil Htask] | Hkeep].
      * right. exists c, q. split; [lia | ]. split; [exact Hq | ].
        split; [ | exact Hceil]. unfold static in Hs. congruence.
      * left.
        exists (Database.update_retry (SyncQueueItem.id (bump_retryCount q))
                  (SyncQueueItem.retryCount (bump_retryCount q)) e q').
        split.
        -- apply queue_after_error_elem. exists q'. split; [exact Hq' | ].
           split; [reflexivity | ]. simpl. intros Hceil Htask. apply Hkeep.
           split; [lia | exact Htask].
        -- rewrite update_retry_static. exact Hs.
    + right. exists r, q0. split; [lia | auto].
Qed.

Lemma charge_loop l0 e len :
  NoDup (SyncQueueItem.id <$> l0) ->
  forall k w,
    charged l0 k w -> k + len <= length l0 ->
    returns (for_of (seq k len) (fun item => handleSyncError item e)) w
      (fun _ w' =>
         charged l0 (k + len) w' /\ posts w' = posts w /\
         successCount w' = successCount w /\ errorCount w' = errorCount w).
Proof.
  intros Hids. induction len as [ | len IH]; intros k w Hch Hlen.
  - apply returns_ret. rewrite Nat.add_0_r. auto.
  - destruct (lookup_lt_is_Some_2 l0 k ltac:(lia)) as [q Hq].
    assert (Hheap : heap w !! k = Some q).
    { destruct Hch as (Hheap & _). rewrite Hheap.
      destruct (decide (k < k)); [lia | exact Hq]. }
    cbn [seq for_of]. apply returns_bind.
    eapply returns_mono; [apply (handleSyncError_frame k e w q Hheap) | ].
    intros u w1 (Hh1 & Hp1 & _ & Hs1 & He1 & Hq1).
    eapply returns_mono.
    + apply (IH (S k) w1); [ | lia].
      apply (charged_after_error l0 k w w1 q e Hids Hch Hq Hh1 Hq1).
    + intros u' w' (Hch' & Hp & Hs & He).
      replace (k + S len) with (S k + len) by lia.
      split; [exact Hch' | ]. split; [congruence | ]. split; congruence.
Qed.

Lemma processBatch_refused this batch w :
  endpoint_down ->
  exists e new,
    processBatch this batch w = (Throw e, set_posts (fun l => l ++ new) w).
Proof.
  intros Hdown.
  destruct (processBatch_world this batch w) as (c & new & Hrun & Hc).
  destruct c as [response | e | ]; [ | | contradiction].
  - destruct (processBatch_answer this batch w response) as (request & Hpost & _).
    { rewrite Hrun. reflexivity. }
    destruct (Hdown (length (posts w)) request) as [e He]. congruence.
  - exists e, new. exact Hrun.
Qed.

Lemma refused_batch this B l0 i w :
  endpoint_down ->
  batchSize this = Some B -> (0 < B)%Z ->
  NoDup (SyncQueueItem.id <$> l0) ->
  (0 <= i < Z.of_nat (length l0))%Z ->
  charged l0 (Z.to_nat i) w ->
  returns (sync_batch this (batch_at this (length l0) i)) w (fun _ w' =>
    charged l0 (Z.to_nat (Z.min (i + B) (Z.of_nat (length l0)))) w' /\
    successCount w' = successCount w /\
    errorCount w' =
      (errorCount w + (Z.min (i + B) (Z.of_nat (length l0)) - i))%Z).
Proof.
  intros Hdown HB Hpos Hids Hi Hch.
  rewrite (batch_at_seq this B (length l0) i HB Hpos Hi).
  set (k := Z.to_nat i).
  set (len := Z.to_nat (Z.min (i + B) (Z.of_nat (length l0))) - k).
  destruct (processBatch_refused this (seq k len) w Hdown) as (e & new & Hrun).
  rewrite sync_batch_unfold. apply returns_try_catch.
  unfold bind at 1. rewrite Hrun.
  exists (Throw e), (set_posts (fun l => l ++ new) w).
  split; [reflexivity | ].
  unfold fail_batch. apply returns_bind.
  eapply returns_mono.
  - apply (charge_loop l0 e len Hids k (set_posts (fun l => l ++ new) w));
      [ | unfold k, len; lia].
    apply (charged_frame l0 k w); [reflexivity | reflexivity | exact Hch].
  - intros u w1 (Hch1 & _ & Hs1 & He1). apply returns_modify.
    split.
    + apply (charged_frame l0 _ w1); [reflexivity | reflexivity | ].
      replace (Z.to_nat (Z.min (i + B) (Z.of_nat (length l0)))) with (k + len)
        by (unfold k, len; lia).
      exact Hch1.
    + simpl in *. rewrite Hs1, He1, length_seq. unfold k, len. split; lia.
Qed.

Lemma static_ids_sublist (l l0 : list SyncQueueItem.t) :
  static <$> l `sublist_of` static <$> l0 ->
  SyncQueueItem.id <$> l `sublist_of` SyncQueueItem.id <$> l0.
Proof.
  intros Hsub.
  assert (Hid : forall k : list SyncQueueItem.t,
            SyncQueueItem.id <$> k = (fun s => s.1.1.1.1) <$> (static <$> k)).
  { intros k. rewrite <- list_fmap_compose. reflexivity. }
  rewrite (Hid l), (Hid l0). apply (fmap_sublist _). exact Hsub.
Qed.

(** What a refused sync leaves behind. *)
Lemma refused_sync this B w fuel :
  endpoint_down ->
  batchSize this = Some B -> (0 < B)%Z ->
  NoDup (SyncQueueItem.id <$> sync_queue w) ->
  length (sync_queue w) < fuel ->
  returns (sync this fuel) w (fun r w' =>
    r = SyncResult.mk 0 (Z.of_nat (length (sync_queue w)))
          (Z.of_nat (length (sync_queue w))) /\
    heap w' = bump_retryCount <$> sync_queue w /\
    NoDup (SyncQueueItem.id <$> sync_queue w') /\
    length (sync_queue w') <= length (sync_queue w) /\
    (forall q', q' ∈ sync_queue w' ->
       exists q, q ∈ sync_queue w /\ static q' = static q /\
         SyncQueueItem.retryCount q' = (SyncQueueItem.retryCount q + 1)%Z /\
         (SyncQueueItem.retryCount q' <= 3)%Z) /\
    (forall q, q ∈ sync_queue w ->
       (forall q0, q0 ∈ sync_queue w ->
          SyncQueueItem.taskId q0 = SyncQueueItem.taskId q ->
          (SyncQueueItem.retryCount q0 < 3)%Z) ->
       exists q', q' ∈ sync_queue w' /\ static q' = static q)).
Proof.
  intros Hdown HB Hpos Hids Hfuel.
  set (l0 := sync_queue w) in *.
  eapply returns_mono.
  - apply (sync_invariant this B (fun i w1 =>
             charged l0 (Z.to_nat (Z.min i (Z.of_nat (length l0)))) w1 /\
             successCount w1 = 0%Z /\
             errorCount w1 = Z.min i (Z.of_nat (length l0))) w fuel HB Hpos);
      [ | exact Hfuel | ].
    + intros i w1 Hi (Hch & Hs & He). fold l0 in Hi |- *.
      rewrite Z.min_l in Hch by lia.
      eapply returns_mono;
        [apply (refused_batch this B l0 i w1 Hdown HB Hpos Hids Hi Hch) | ].
      intros u w2 (Hch2 & Hs2 & He2).
      split; [exact Hch2 | ].
      split; [congruence | ]. rewrite He2, He. lia.
    + fold l0. split; [ | split; [reflexivity | simpl; lia]].
      replace (Z.to_nat (Z.min 0 (Z.of_nat (length l0)))) with 0 by lia.
      apply charged_start.
  - intros r w' (Hr & j & Hj & Hch & Hs & He). fold l0 in Hr, Hj.
    replace (Z.to_nat (Z.min j (Z.of_nat (length l0)))) with (length l0) in Hch
      by lia.
    destruct Hch as (Hheap & Hsub & Hdone & Hkept).
    split; [rewrite Hr, Hs, He; f_equal; lia | ].
    split.
    { apply list_eq. intros k. rewrite Hheap, list_lookup_fmap.
      destruct (decide (k < length l0)) as [_ | Hge]; [reflexivity | ].
      rewrite (lookup_ge_None_2 l0 k) by lia. reflexivity. }
    split.
    { eapply sublist_NoDup; [exact Hids | ]. apply static_ids_sublist. exact Hsub. }
    split.
    { rewrite <- (length_fmap static (sync_queue w')), <- (length_fmap static l0).
      apply sublist_length. exact Hsub. }
    split.
    + intros q' Hq'.
      assert (Hin : static q' ∈ static <$> l0).
      { eapply elem_of_sublist; [ | exact Hsub].
        apply list_elem_of_fmap_2. exact Hq'. }
      apply list_elem_of_fmap in Hin. destruct Hin as (q & Hs' & Hq).
      pose proof Hq as Hq0. apply list_elem_of_lookup in Hq0.
      destruct Hq0 as [k Hk].
      destruct (Hdone k q (lookup_lt_Some _ _ _ Hk) Hk) as [Hcount Hgone].
      assert (Hrc : SyncQueueItem.retryCount q'
                    = (SyncQueueItem.retryCount q + 1)%Z).
      { apply (Hcount q' Hq'). unfold static in Hs'. congruence. }
      exists q. split; [exact Hq | ]. split; [exact Hs' | ].
      split; [exact Hrc | ].
      destruct (Z.le_gt_cases 3 (SyncQueueItem.retryCount q)) as [Hceil | Hlow];
        [ | lia].
      exfalso. apply (Hgone Hceil q' Hq'). unfold static in Hs'. congruence.
    + intros q Hq Hlow.
      destruct (Hkept q Hq) as [Hkeep | (k & q0 & _ & Hk & Ht & Hceil)];
        [exact Hkeep | ].
      exfalso.
      assert (Hin : q0 ∈ l0) by (apply list_elem_of_lookup; exists k; exact Hk).
      specialize (Hlow q0 Hin Ht). lia.
Qed.

(** X15.  With the endpoint down, a [sync()] of a queue with unique entry
    ids charges every queued operation exactly one failure and reports
    them all as errors.  Every entry still queued afterwards is an earlier
    entry with its retryCount raised by exactly 1, and that is at most 3;
    the entry ids stay unique; and every operation of a task none of whose
    operations had reached retryCount 3 is still queued. *)
Theorem refused_sync_charges_every_entry this B w fuel :
  endpoint_down ->
  batchSize this = Some B -> (0 < B)%Z ->
  NoDup (SyncQueueItem.id <$> sync_queue w) ->
  length (sync_queue w) < fuel ->
  returns (sync this fuel) w (fun r w' =>
    r = SyncResult.mk 0 (Z.of_nat (length (sync_queue w)))
          (Z.of_nat (length (sync_queue w))) /\
    heap w' = bump_retryCount <$> sync_queue w /\
    NoDup (SyncQueueItem.id <$> sync_queue w') /\
    length (sync_queue w') <= length (sync_queue w) /\
    (forall q', q' ∈ sync_queue w' ->
       exists q, q ∈ sync_queue w /\ static q' = static q /\
         SyncQueueItem.retryCount q' = (SyncQueueItem.retryCount q + 1)%Z /\
         (SyncQueueItem.retryCount q' <= 3)%Z) /\
    (forall q, q ∈ sync_queue w ->
       (forall q0, q0 ∈ sync_queue w ->
          SyncQueueItem.taskId q0 = SyncQueueItem.taskId q ->
          (SyncQueueItem.retryCount q0 < 3)%Z) ->
       exists q', q' ∈ sync_queue w' /\ static q' = static q)).
Proof. exact (refused_sync this B w fuel). Qed.

Lemma refused_sync_raises this B fuel k w :
  endpoint_down ->
  batchSize this = Some B -> (0 < B)%Z ->
  NoDup (SyncQueueItem.id <$> sync_queue w) ->
  length (sync_queue w) < fuel ->
  (forall q, q ∈ sync_queue w -> (k <= SyncQueueItem.retryCount q)%Z) ->
  returns (sync this fuel) w (fun _ w' =>
    NoDup (SyncQueueItem.id <$> sync_queue w') /\
    length (sync_queue w') < fuel /\
    forall q', q' ∈ sync_queue w' ->
      (k + 1 <= SyncQueueItem.retryCount q' <= 3)%Z).
Proof.
  intros Hdown HB Hpos Hids Hfuel Hlow.
  eapply returns_mono; [apply (refused_sync this B w fuel); assumption | ].
  intros r w' (_ & _ & Hids' & Hlen & Hraised & _).
  split; [exact Hids' | ]. split; [lia | ].
  intros q' Hq'. destruct (Hraised q' Hq') as (q & Hq & _ & Hrc & Hceil).
  specialize (Hlow q Hq). lia.
Qed.

(** X16.  Retries are bounded: with the endpoint down, four [sync()] calls
    in a row empty a queue of fresh operations (unique ids, retryCounts not
    below 0) - every operation has then been given up. *)
Theorem four_refused_syncs_empty_the_queue this B w fuel :
  endpoint_down ->
  batchSize this = Some B -> (0 < B)%Z ->
  NoDup (SyncQueueItem.id <$> sync_queue w) ->
  (forall q, q ∈ sync_queue w -> (0 <= SyncQueueItem.retryCount q)%Z) ->
  length (sync_queue w) < fuel ->
  returns (sync this fuel ;;; sync this fuel ;;; sync this fuel ;;;
           sync this fuel) w
    (fun _ w' => sync_queue w' = []).
Proof.
  intros Hdown HB Hpos Hids Hlow Hfuel.
  apply returns_bind.
  eapply returns_mono;
    [apply (refused_sync_raises this B fuel 0%Z w); assumption | ].
  intros r1 w1 (Hids1 & Hfuel1 & Hlow1).
  apply returns_bind.
  eapply returns_mono;
    [apply (refused_sync_raises this B fuel 1%Z w1); try assumption;
     intros q Hq; specialize (Hlow1 q Hq); lia | ].
  intros r2 w2 (Hids2 & Hfuel2 & Hlow2).
  apply returns_bind.
  eapply returns_mono;
    [apply (refused_sync_raises this B fuel 2%Z w2); try assumption;
     intros q Hq; specialize (Hlow2 q Hq); lia | ].
  intros r3 w3 (Hids3 & Hfuel3 & Hlow3).
  eapply returns_mono;
    [apply (refused_sync_raises this B fuel 3%Z w3); try assumption;
     intros q Hq; specialize (Hlow3 q Hq); lia | ].
  intros r4 w4 (_ & _ & Hlow4).
  apply elem_of_nil_inv. intros q' Hq'. specialize (Hlow4 q' Hq'). lia.
Qed.

(** ** Further properties: status propagation and a single failure *)

(** X17.  Status propagation to a record that is unknown or soft-deleted -
    the confirmation of a delete operation, for one - writes no record and
    enqueues nothing: the clock is read once, and for status synced the
    queue entries of the task are removed. *)
Theorem status_propagation_skips_hidden_records taskId status serverData w :
  (forall task, ~ live w taskId task) ->
  updateSyncStatus taskId status serverData w =
  (Normal tt,
   if decide (status = StSynced)
   then set_sync_queue (fun l => List.filter (Database.other_task taskId) l)
          (set_dates S w)
   else set_dates S w).
Proof. exact (updateSyncStatus_rejected taskId status serverData w). Qed.

(** X18.  Status propagation to a live record sets lastSyncedAt to the
    time of the call, takes over the id the server assigned when the answer
    carries a non-empty one and keeps the serverId otherwise, leaves the
    content of the record alone and touches no other record. *)
Theorem status_propagation_on_live_record taskId status serverData w task :
  live w taskId task ->
  returns (updateSyncStatus taskId status serverData) w (fun _ w' =>
    exists stored,
      tasks w' !! taskId = Some stored /\
      Task.lastSyncedAt stored = Some (toISOString (dates w)) /\
      Task.serverId stored =
        match serverData with
        | Some sd =>
            match PartialTask.id sd with
            | Some i => if truthy i then Some i else Task.serverId task
            | None => Task.serverId task
            end
        | None => Task.serverId task
        end /\
      content stored = content task /\
      forall id', id' <> taskId -> tasks w' !! id' = tasks w !! id').
Proof.
  intros Hlive.
  eapply returns_mono;
    [apply (updateSyncStatus_live taskId status serverData w task Hlive) | ].
  intros u w' Htasks. simpl in Htasks. rewrite Htasks.
  eexists. split; [apply lookup_insert_eq | ].
  split; [reflexivity | ].
  split.
  { simpl. destruct serverData as [sd | ]; [ | reflexivity].
    destruct (PartialTask.id sd) as [i | ]; [ | reflexivity].
    destruct (truthy i); reflexivity. }
  split; [reflexivity | ].
  intros id' Hne. apply lookup_insert_ne. congruence.
Qed.

(** X19.  A failure that leaves an item at or below the ceiling only does
    the bookkeeping: the item object and the queue entries with its id get
    the new retryCount, the entries the message; no record is written,
    nothing is enqueued or removed, the clock is not read. *)
Theorem handleSyncError_below_ceiling item message w q :
  heap w !! item = Some q ->
  (SyncQueueItem.retryCount q + 1 <= 3)%Z ->
  handleSyncError item message w =
  (Normal tt,
   set_sync_queue
     (fun l => Database.update_retry (SyncQueueItem.id q)
                 (SyncQueueItem.retryCount q + 1) message <$> l)
     (set_heap (alter bump_retryCount item) w)).
Proof.
  intros Hq Hlow. unfold handleSyncError.
  unfold bind at 1. unfold modify at 1. unfold bind at 1. unfold deref.
  cbn [heap set_heap]. rewrite list_lookup_alter_eq, Hq. cbn [fmap option_fmap option_map].
  unfold bind at 1. unfold Database.updateSyncQueueItem, modify.
  cbn [SyncQueueItem.retryCount bump_retryCount SyncQueueItem.set_retryCount].
  destruct (Z.ltb_spec 3 (SyncQueueItem.retryCount q + 1)) as [Hceil | _]; [lia | ].
  reflexivity.
Qed.

(** ** Further properties: the router *)

Lemma checkConnectivity_run this w :
  exists b, checkConnectivity this w = (Normal b, w).
Proof.
  unfold checkConnectivity, try_catch, bind, axios_get.
  destruct (http_get (apiUrl this +:+ "/health")) as [status ms | m | ].
  - simpl. destruct (5000 <? ms)%Z; [exists false; reflexivity | ].
    destruct (status_ok status); [exists true | exists false]; reflexivity.
  - exists false. reflexivity.
  - exists false. reflexivity.
Qed.

(** X20.  [POST /sync] is gated by the connectivity probe: when the probe
    answers false the handler answers 503 and nothing has happened - no
    request posted, no store touched; when it answers true (and the batch
    size is positive) the handler runs one [sync()] and answers 200 with its
    result.  It answers 500 in neither case. *)
Theorem post_sync_gate env fuel w :
  exists connected,
    checkConnectivity (router_syncService env) w = (Normal connected, w) /\
    (connected = false ->
     post_sync env fuel w =
     (Normal {| status_code := 503;
                body := ErrorBody "Server not reachable" None |}, w)) /\
    (connected = true ->
     forall B,
       batchSize (router_syncService env) = Some B -> (0 < B)%Z ->
       length (sync_queue w) < fuel ->
       exists result w',
         sync (router_syncService env) fuel w = (Normal result, w') /\
         post_sync env fuel w =
         (Normal {| status_code := 200;
                    body := SyncCompletedBody "Sync completed" result |}, w')).
Proof.
  destruct (checkConnectivity_run (router_syncService env) w) as [b Hprobe].
  exists b. split; [exact Hprobe | ].
  split.
  - intros ->. unfold post_sync, try_catch. unfold bind at 1.
    rewrite Hprobe. reflexivity.
  - intros -> B HB Hpos Hfuel.
    destruct (sync_safe (router_syncService env) B w fuel HB Hpos Hfuel)
      as (result & w' & Hsync & _).
    exists result, w'. split; [exact Hsync | ].
    unfold post_sync, try_catch. unfold bind at 1. rewrite Hprobe.
    cbn [negb]. unfold bind at 1. rewrite Hsync. reflexivity.
Qed.

Lemma get_set_property key v fields :
  get_property key (set_property key v fields) = Some v.
Proof.
  induction fields as [ | [k x] rest IH]; simpl.
  - rewrite decide_True by reflexivity. reflexivity.
  - destruct (decide (k = key)) as [Heq | Hne]; simpl.
    + rewrite decide_True by exact Heq. reflexivity.
    + rewrite decide_False by exact Hne. exact IH.
Qed.

Lemma get_set_property_other key key' v fields :
  key' <> key ->
  get_property key' (set_property key v fields) = get_property key' fields.
Proof.
  intros Hne. induction fields as [ | [k x] rest IH]; simpl.
  - rewrite decide_False by congruence. reflexivity.
  - destruct (decide (k = key)) as [Heq | Hne']; simpl.
    + subst k. rewrite !decide_False by congruence. reflexivity.
    + destruct (decide (k = key')); [reflexivity | exact IH].
Qed.

(** X21.  The demo endpoint [POST /batch] confirms everything: for a body
    with items it answers 200 with one result per item, in the order of the
    items, each reporting success for the item's taskId with a serverData
    whose id is that taskId - whatever id the item's data carried - and
    whose other properties are those of the data; without items it answers
    400.  It changes nothing. *)
Theorem post_batch_confirms_everything w :
  post_batch None w =
    (Normal {| status_code := 400;
               body := ErrorBody "No items provided" None |}, w) /\
  forall items, exists results,
    post_batch (Some items) w =
      (Normal {| status_code := 200; body := BatchBody results |}, w) /\
    EchoResult.taskId <$> results = SyncRequestItem.taskId <$> items /\
    Forall (fun res => EchoResult.success res = true) results /\
    Forall2 (fun it res =>
      exists fields,
        EchoResult.serverData res = JObj fields /\
        get_property "id" fields = Some (JStr (SyncRequestItem.taskId it)) /\
        forall key, key <> "id"%string ->
          get_property key fields
          = get_property key (own_properties (SyncRequestItem.data it)))
      items results.
Proof.
  split; [reflexivity | ].
  intros items. eexists. split; [reflexivity | ].
  split; [rewrite <- list_fmap_compose; reflexivity | ].
  split.
  - apply Forall_fmap. apply Forall_forall. intros it _. reflexivity.
  - apply Forall2_fmap_r. apply Forall_Forall2_diag.
    apply Forall_forall. intros it _. eexists. split; [reflexivity | ].
    split; [apply get_set_property | ].
    intros key Hne. apply get_set_property_other. exact Hne.
Qed.
End Services.

(** ** The properties on the sample environment *)

(** C1 on a concrete run: one queued operation of a live record, reported
    successful.  [sync()] counts the success, sets lastSyncedAt and empties
    the queue, and the record is left with syncStatus pending, not synced:
    [updateTask], through which the status is written, overwrites it. *)
Lemma sync_success_leaves_record_pending :
  let run :=
    sync Sample.toISOString Sample.randomUUID Sample.JSON_stringify
      Sample.JSON_parse Sample.post_accept (Sample.service 10) 5
      (Sample.world [Sample.task "t1" "1000" StPending] [Sample.item "q1" "t1" 0]) in
  fst run = Normal (SyncResult.mk 1 0 1) /\
  Task.syncStatus <$> tasks (snd run) !! "t1"%string = Some StPending /\
  Task.lastSyncedAt <$> tasks (snd run) !! "t1"%string
    = Some (Some "2024-05-01T10:00:00"%string) /\
  sync_queue (snd run) = [].
Proof. vm_compute. repeat split; reflexivity. Qed.

(** C2 on a concrete run: an operation with retryCount 3 fails a fourth
    time.  Its retryCount becomes 4, it is reported as one error and its
    queue entry is deleted, and the record is left with syncStatus pending,
    not error. *)
Lemma fourth_failure_leaves_record_pending :
  let run :=
    sync Sample.toISOString Sample.randomUUID Sample.JSON_stringify
      Sample.JSON_parse Sample.post_down (Sample.service 10) 5
      (Sample.world [Sample.task "t1" "1000" StSynced] [Sample.item "q1" "t1" 3]) in
  fst run = Normal (SyncResult.mk 0 1 1) /\
  SyncQueueItem.retryCount <$> heap (snd run) !! 0 = Some 4%Z /\
  sync_queue (snd run) = [] /\
  Task.syncStatus <$> tasks (snd run) !! "t1"%string = Some StPending.
Proof. vm_compute. repeat split; reflexivity. Qed.

(** C3 on a queue of three with batch size 2: two requests. *)
Lemma sync_batching_witness :
  let w := Sample.world [] Sample.three_queued in
  returns
    (sync Sample.toISOString Sample.randomUUID Sample.JSON_stringify
       Sample.JSON_parse Sample.post_accept (Sample.service 2) 4) w
    (fun r w' =>
       SyncResult.total r = Z.of_nat (length (sync_queue w)) /\
       exists new,
         posts w' = posts w ++ new /\
         Z.of_nat (length new) = ceil_div (Z.of_nat (length (sync_queue w))) 2 /\
         Forall (fun p => (Z.of_nat (length (items p)) <= 2)%Z) new /\
         concat (items <$> new) =
           request_item Sample.JSON_parse <$> sync_queue w).
Proof.
  intros w.
  apply (proj2 (sync_batching Sample.toISOString Sample.randomUUID
                  Sample.JSON_stringify Sample.JSON_parse Sample.post_accept)
           (Sample.service 2) 2%Z w 4).
  - reflexivity.
  - lia.
  - repeat constructor; exists (JObj []); reflexivity.
  - simpl. lia.
Defined.

(** C4 on the first batch of two, with the endpoint down. *)
Lemma transport_failure_witness :
  let w := Sample.syncing [] Sample.three_queued in
  let this := Sample.service 2 in
  let batch := batch_at this (length (heap w)) 0 in
  exists w',
    sync_batch Sample.toISOString Sample.randomUUID Sample.JSON_stringify
      Sample.JSON_parse Sample.post_down this batch w = (Normal tt, w') /\
    sync_loop Sample.toISOString Sample.randomUUID Sample.JSON_stringify
      Sample.JSON_parse Sample.post_down this 3 (seq 0 (length (heap w)))
      (Some 0%Z) w =
    sync_loop Sample.toISOString Sample.randomUUID Sample.JSON_stringify
      Sample.JSON_parse Sample.post_down this 2 (seq 0 (length (heap w)))
      (Some (0 + 2)%Z) w' /\
    (forall r q, heap w !! r = Some q ->
       heap w' !! r =
       Some (if decide (r ∈ batch) then bump_retryCount q else q)) /\
    errorCount w' = (errorCount w + Z.of_nat (length batch))%Z /\
    successCount w' = successCount w /\
    (NoDup (SyncQueueItem.id <$> heap w) ->
     forall r q, r ∈ batch -> heap w !! r = Some q ->
       persisted (SyncQueueItem.id q) (SyncQueueItem.retryCount q + 1)
         "Network Error" (sync_queue w')).
Proof.
  intros w this batch.
  apply (transport_failure_fails_the_batch Sample.toISOString Sample.randomUUID
           Sample.JSON_stringify Sample.JSON_parse Sample.post_down
           this 2%Z w 2 0%Z "Network Error").
  - reflexivity.
  - lia.
  - simpl. lia.
  - reflexivity.
Defined.

(** C5 as stated fails: the call writes to the console. *)
Lemma resolveConflict_not_side_effect_free :
  ~ side_effect_free
      (resolveConflict Sample.Date_parse
         (Sample.task "t1" "2000" StPending) (Sample.task "t1" "1000" StSynced))
      (Sample.world [] []).
Proof. unfold side_effect_free. vm_compute. discriminate. Qed.

(** C6 as stated fails: with the endpoint down, the second operation of
    the task is dropped from the queue after its first failure, together
    with the first operation, which passed the ceiling. *)
Lemma abandoned_below_the_ceiling :
  let w := Sample.world [Sample.live_record] Sample.same_task_queued in
  ~ abandoned_only_past_ceiling w
      (snd (sync Sample.toISOString Sample.randomUUID Sample.JSON_stringify
              Sample.JSON_parse Sample.post_down (Sample.service 10) 5 w)).
Proof.
  intros w Hclaim.
  destruct (Hclaim 1 (Sample.item "q2" "t1" 0) eq_refl) as (h & Hh & Hceil).
  - intros q' Hq'. vm_compute in Hq'. apply elem_of_nil in Hq'. contradiction.
  - vm_compute in Hh. injection Hh as <-. vm_compute in Hceil. discriminate.
Qed.

(** C6 (as amended) on the queue with two operations of one task. *)
Lemma retryCount_monotone_witness :
  let w := Sample.world [Sample.live_record] Sample.same_task_queued in
  returns
    (sync Sample.toISOString Sample.randomUUID Sample.JSON_stringify
       Sample.JSON_parse Sample.post_down (Sample.service 10) 5) w
    (fun _ w' =>
       (forall q', q' ∈ sync_queue w' ->
          exists q, q ∈ sync_queue w /\ static q = static q' /\
            (SyncQueueItem.retryCount q <= SyncQueueItem.retryCount q')%Z) /\
       (forall q, q ∈ sync_queue w ->
          (exists q', q' ∈ sync_queue w' /\ static q' = static q) \/
          confirmed_since Sample.post_down (length (posts w)) w'
            (SyncQueueItem.taskId q) \/
          exhausted w' (SyncQueueItem.taskId q))).
Proof.
  intros w.
  apply (proj2 (retryCount_monotone_removal_by_task Sample.toISOString
                  Sample.randomUUID Sample.JSON_stringify Sample.JSON_parse
                  Sample.post_down)
           (Sample.service 10) 10%Z w 5).
  - reflexivity.
  - lia.
  - repeat constructor; exists (JObj []); reflexivity.
  - apply (bool_decide_unpack _). vm_compute. exact I.
  - simpl. lia.
Defined.

(** C8 on a store with one live and one soft-deleted record. *)
Lemma deleted_hidden_witness :
  let w := Sample.world [Sample.live_record; Sample.deleted_record] [] in
  getTask "t2" w = (Normal None, w) /\
  (exists stored w',
     updateTask Sample.toISOString Sample.randomUUID Sample.JSON_stringify
       "t1" PartialTask.empty w = (Normal (Some stored), w') /\
     tasks w' !! "t1"%string = Some stored /\
     Task.syncStatus stored = StPending /\
     Task.updatedAt stored = Sample.toISOString (dates w)) /\
  (exists stored w',
     deleteTask Sample.toISOString Sample.randomUUID Sample.JSON_stringify
       "t1" w = (Normal true, w') /\
     tasks w' !! "t1"%string = Some stored /\
     Task.isDeleted stored = true /\
     Task.syncStatus stored = StPending /\
     Task.updatedAt stored = Sample.toISOString (dates w)).
Proof.
  intros w.
  pose proof (deleted_hidden_and_mutations_reset Sample.toISOString
                Sample.randomUUID Sample.JSON_stringify)
    as (Hget & _ & Hupdate & Hdelete).
  split; [ | split].
  - apply (Hget "t2"%string w Sample.deleted_record); reflexivity.
  - apply (Hupdate "t1"%string PartialTask.empty w Sample.live_record).
    split; reflexivity.
  - apply (Hdelete "t1"%string w Sample.live_record). split; reflexivity.
Defined.

(** C9 on a live record: a plain update, and a status propagation that
    hands in synced. *)
Lemma updateTask_resets_witness :
  let w := Sample.world [Sample.live_record] [] in
  let sent := PartialTask.mk None None None None None None
                (Some "1970-01-01T00:00:00"%string) (Some StSynced) None None in
  (exists stored q w',
     updateTask Sample.toISOString Sample.randomUUID Sample.JSON_stringify
       "t1" sent w = (Normal (Some stored), w') /\
     tasks w' !! "t1"%string = Some stored /\
     Task.syncStatus stored = StPending /\
     Task.updatedAt stored = Sample.toISOString (dates w) /\
     sync_queue w' = sync_queue w ++ [q] /\
     SyncQueueItem.taskId q = "t1"%string /\
     SyncQueueItem.operation q = OpUpdate /\
     SyncQueueItem.retryCount q = 0%Z) /\
  (exists stored q w1 w',
     updateTask Sample.toISOString Sample.randomUUID Sample.JSON_stringify "t1"
       (status_updates StSynced (Sample.toISOString (dates w)) None)
       (set_dates S w) = (Normal (Some stored), w1) /\
     sync_queue w1 = sync_queue w ++ [q] /\
     SyncQueueItem.taskId q = "t1"%string /\
     SyncQueueItem.operation q = OpUpdate /\
     SyncQueueItem.retryCount q = 0%Z /\
     updateSyncStatus Sample.toISOString Sample.randomUUID Sample.JSON_stringify
       "t1" StSynced None w = (Normal tt, w') /\
     w' = (if decide (StSynced = StSynced)
           then set_sync_queue (List.filter (Database.other_task "t1")) w1
           else w1) /\
     tasks w' !! "t1"%string = Some stored /\
     Task.syncStatus stored = StPending /\
     Task.updatedAt stored = Sample.toISOString (S (dates w))).
Proof.
  intros w sent.
  pose proof (updateTask_resets_and_enqueues Sample.toISOString
                Sample.randomUUID Sample.JSON_stringify) as (Hupdate & Hstatus).
  split.
  - apply (Hupdate "t1"%string sent w Sample.live_record). split; reflexivity.
  - apply (Hstatus "t1"%string StSynced None w Sample.live_record).
    split; reflexivity.
Defined.

(** C10 on the queue with two operations of one task: when the first one
    passes the ceiling, both entries go. *)
Lemma removal_is_by_taskId_witness :
  let w := Sample.syncing [Sample.live_record] Sample.same_task_queued in
  let q := Sample.item "q1" "t1" 3 in
  returns
    (handleSyncError Sample.toISOString Sample.randomUUID Sample.JSON_stringify
       0 "Network Error") w
    (fun _ w' =>
       sync_queue w' =
         List.filter (Database.other_task (SyncQueueItem.taskId q))
           (Database.update_retry (SyncQueueItem.id q)
              (SyncQueueItem.retryCount q + 1) "Network Error" <$> sync_queue w) /\
       forall q', q' ∈ sync_queue w' ->
         SyncQueueItem.taskId q' <> SyncQueueItem.taskId q).
Proof.
  intros w q.
  apply (proj2 (removal_is_by_taskId Sample.toISOString Sample.randomUUID
                  Sample.JSON_stringify) 0 "Network Error"%string w q).
  - reflexivity.
  - simpl. lia.
Defined.

(** ** The further properties on the sample environment *)

(** X2 on a store with one live record. *)
Lemma deleteTask_hides_and_locks_witness :
  let w := Sample.world [Sample.live_record] [] in
  exists q w',
    deleteTask Sample.toISOString Sample.randomUUID Sample.JSON_stringify
      "t1" w = (Normal true, w') /\
    getTask "t1" w' = (Normal None, w') /\
    deleteTask Sample.toISOString Sample.randomUUID Sample.JSON_stringify
      "t1" w' = (Normal false, w') /\
    (forall updates,
       updateTask Sample.toISOString Sample.randomUUID Sample.JSON_stringify
         "t1" updates w' = (Normal None, w')) /\
    sync_queue w' = sync_queue w ++ [q] /\
    SyncQueueItem.taskId q = "t1"%string /\
    SyncQueueItem.operation q = OpDelete /\
    SyncQueueItem.retryCount q = 0%Z /\
    (forall id', id' <> "t1"%string -> tasks w' !! id' = tasks w !! id').
Proof.
  intros w.
  apply (deleteTask_hides_and_locks Sample.toISOString Sample.randomUUID
           Sample.JSON_stringify "t1" w Sample.live_record).
  split; reflexivity.
Defined.

(** X3 on a soft-deleted record. *)
Lemma rejected_mutations_witness :
  let w := Sample.world [Sample.live_record; Sample.deleted_record] [] in
  (forall updates,
     updateTask Sample.toISOString Sample.randomUUID Sample.JSON_stringify
       "t2" updates w = (Normal None, w)) /\
  deleteTask Sample.toISOString Sample.randomUUID Sample.JSON_stringify
    "t2" w = (Normal false, w).
Proof.
  intros w.
  apply (rejected_mutations_write_nothing Sample.toISOString Sample.randomUUID
           Sample.JSON_stringify "t2" w).
  intros task [Hstored Hlive]. vm_compute in Hstored.
  injection Hstored as <-. discriminate Hlive.
Defined.

(** X4 on an update that carries [isDeleted: true]. *)
Lemma updateTask_then_read_witness :
  let w := Sample.world [Sample.live_record] [] in
  let updates := PartialTask.mk None None None None (Some true) None
                   None None None None in
  exists stored q w',
    updateTask Sample.toISOString Sample.randomUUID Sample.JSON_stringify
      "t1" updates w = (Normal (Some stored), w') /\
    Task.isDeleted stored = default false (PartialTask.isDeleted updates) /\
    getTask "t1" w' =
      (Normal (if Task.isDeleted stored then None else Some stored), w') /\
    sync_queue w' = sync_queue w ++ [q] /\
    SyncQueueItem.operation q = OpUpdate /\
    (forall id', id' <> "t1"%string -> tasks w' !! id' = tasks w !! id').
Proof.
  intros w updates.
  apply (updateTask_then_read Sample.toISOString Sample.randomUUID
           Sample.JSON_stringify "t1" updates w Sample.live_record).
  split; reflexivity.
Defined.

(** X5 on a queue of three with batch size 2 and the endpoint down. *)
Lemma sync_returns_and_keeps_content_witness :
  let w := Sample.world [Sample.live_record] Sample.three_queued in
  returns
    (sync Sample.toISOString Sample.randomUUID Sample.JSON_stringify
       Sample.JSON_parse Sample.post_down (Sample.service 2) 4) w
    (fun r w' =>
       SyncResult.total r = Z.of_nat (length (sync_queue w)) /\
       length (sync_queue w') <= length (sync_queue w) /\
       content <$> tasks w' = content <$> tasks w /\
       console w' = console w).
Proof.
  intros w.
  apply (sync_returns_and_keeps_content Sample.toISOString Sample.randomUUID
           Sample.JSON_stringify Sample.JSON_parse Sample.post_down
           (Sample.service 2) 2%Z w 4).
  - reflexivity.
  - lia.
  - simpl. lia.
Defined.

(** X6 with a batch size that is not a number. *)
Lemma sync_on_empty_queue_witness :
  let w := Sample.world [Sample.live_record] [] in
  let this := mkSyncService "http://localhost:3000/api" None in
  exists w',
    sync Sample.toISOString Sample.randomUUID Sample.JSON_stringify
      Sample.JSON_parse Sample.post_accept this 1 w
    = (Normal (SyncResult.mk 0 0 0), w') /\
    tasks w' = tasks w /\ sync_queue w' = [] /\ posts w' = posts w /\
    dates w' = dates w /\ uuids w' = uuids w /\ console w' = console w.
Proof.
  intros w this.
  apply (sync_on_empty_queue Sample.toISOString Sample.randomUUID
           Sample.JSON_stringify Sample.JSON_parse Sample.post_accept
           this 1 w).
  - reflexivity.
  - lia.
Defined.

(** X7 on a queue of three, with the endpoint down. *)
Lemma sync_with_NaN_batch_size_witness :
  let w := Sample.world [] Sample.three_queued in
  let this := mkSyncService "http://localhost:3000/api" None in
  returns
    (sync Sample.toISOString Sample.randomUUID Sample.JSON_stringify
       Sample.JSON_parse Sample.post_down this 2) w
    (fun r w' =>
       SyncResult.total r = Z.of_nat (length (sync_queue w)) /\
       posts w' = posts w ++ [{| items := [] |}] /\
       (((exists e, Sample.post_down (length (posts w)) {| items := [] |} = inr e) \/
         Sample.post_down (length (posts w)) {| items := [] |}
         = inl {| results := [] |}) ->
        SyncResult.successCount r = 0%Z /\ SyncResult.errorCount r = 0%Z /\
        sync_queue w' = sync_queue w /\ tasks w' = tasks w)).
Proof.
  intros w this.
  apply (sync_with_NaN_batch_size Sample.toISOString Sample.randomUUID
           Sample.JSON_stringify Sample.JSON_parse Sample.post_down this 2 w).
  - reflexivity.
  - discriminate.
  - lia.
Defined.

(** X8 with batch size 0, after a thousand tests of the loop condition. *)
Lemma sync_never_returns_witness :
  fst (sync Sample.toISOString Sample.randomUUID Sample.JSON_stringify
         Sample.JSON_parse Sample.post_accept (Sample.service 0) 1000
         (Sample.world [] Sample.three_queued)) = Diverge.
Proof.
  apply (sync_never_returns_for_nonpositive_batch_size Sample.toISOString
           Sample.randomUUID Sample.JSON_stringify Sample.JSON_parse
           Sample.post_accept (Sample.service 0) 0%Z
           (Sample.world [] Sample.three_queued) 1000).
  - reflexivity.
  - lia.
  - discriminate.
Defined.

(** X9 on an answer with two rejections for a batch of three. *)
Lemma batch_counting_witness :
  let w := Sample.syncing [] Sample.three_queued in
  let this := Sample.service 10 in
  returns
    (sync_batch Sample.toISOString Sample.randomUUID Sample.JSON_stringify
       Sample.JSON_parse Sample.post_reject_twice this [0; 1; 2]) w
    (fun _ w' =>
       match fst (processBatch Sample.JSON_parse Sample.post_reject_twice
                    this [0; 1; 2] w) with
       | Normal response =>
           successCount w' =
             (successCount w
              + Z.of_nat (length (List.filter BatchResult.success
                                    (results response))))%Z /\
           errorCount w' =
             (errorCount w
              + Z.of_nat (length (List.filter
                                    (fun res => negb (BatchResult.success res))
                                    (results response))))%Z
       | _ =>
           successCount w' = successCount w /\
           errorCount w' = (errorCount w + Z.of_nat (length [0; 1; 2]))%Z
       end).
Proof.
  intros w this.
  apply (batch_counting Sample.toISOString Sample.randomUUID
           Sample.JSON_stringify Sample.JSON_parse Sample.post_reject_twice
           this [0; 1; 2] w).
  intros r Hr. apply list_elem_of_In in Hr.
  destruct Hr as [<- | [<- | [<- | []]]]; eexists; reflexivity.
Defined.

(** X10 on a queue of three with batch size 2, every item accepted. *)
Lemma sync_counts_add_up_witness :
  let w := Sample.world [] Sample.three_queued in
  returns
    (sync Sample.toISOString Sample.randomUUID Sample.JSON_stringify
       Sample.JSON_parse Sample.post_accept (Sample.service 2) 4) w
    (fun r _ =>
       (SyncResult.successCount r + SyncResult.errorCount r
        = SyncResult.total r)%Z /\
       (0 <= SyncResult.successCount r)%Z /\ (0 <= SyncResult.errorCount r)%Z).
Proof.
  intros w.
  apply (sync_counts_add_up Sample.toISOString Sample.randomUUID
           Sample.JSON_stringify Sample.JSON_parse Sample.post_accept
           (Sample.service 2) 2%Z w 4).
  - reflexivity.
  - lia.
  - simpl. lia.
  - intros n request response Hpost. injection Hpost as <-.
    simpl. apply length_fmap.
Defined.

(** X11 on a batch of three whose second item is not JSON. *)
Lemma unparsable_batch_witness :
  let w := Sample.syncing []
             [Sample.item "q1" "t1" 0; Sample.broken_item "q2" "t2";
              Sample.item "q3" "t3" 0] in
  let this := Sample.service 10 in
  processBatch Sample.JSON_parse_strict Sample.post_accept this
    ([0] ++ 1 :: [2]) w = (Throw "Unexpected token", w) /\
  returns
    (sync_batch Sample.toISOString Sample.randomUUID Sample.JSON_stringify
       Sample.JSON_parse_strict Sample.post_accept this ([0] ++ 1 :: [2])) w
    (fun _ w' =>
       posts w' = posts w /\
       successCount w' = successCount w /\
       errorCount w' = (errorCount w + Z.of_nat (length ([0] ++ 1 :: [2])))%Z).
Proof.
  intros w this.
  apply (unparsable_batch_is_not_sent Sample.toISOString Sample.randomUUID
           Sample.JSON_stringify Sample.JSON_parse_strict Sample.post_accept
           this [0] 1 [2] w (Sample.broken_item "q2" "t2") "Unexpected token").
  - intros r Hr. apply list_elem_of_In in Hr. destruct Hr as [<- | []].
    eexists. split; [reflexivity | ]. exists (JObj []). reflexivity.
  - reflexivity.
  - reflexivity.
  - intros r Hr. apply list_elem_of_In in Hr. destruct Hr as [<- | []].
    eexists. reflexivity.
Defined.

(** X12 on two operations of task t1, both rejected: the first one is
    charged twice, the second one not at all. *)
Lemma rejections_land_on_first_item_witness :
  let queue := [Sample.item "q1" "t1" 0; Sample.item "q2" "t1" 0] in
  let w := Sample.syncing [Sample.live_record] queue in
  returns
    (sync_batch Sample.toISOString Sample.randomUUID Sample.JSON_stringify
       Sample.JSON_parse Sample.post_reject_twice (Sample.service 10) [0; 1]) w
    (fun _ w' =>
       heap w' !! 0 =
         Some (SyncQueueItem.set_retryCount (0 + Z.of_nat 2)
                 (Sample.item "q1" "t1" 0)) /\
       (forall r, r <> 0 -> heap w' !! r = heap w !! r) /\
       errorCount w' = (errorCount w + Z.of_nat 2)%Z /\
       successCount w' = successCount w).
Proof.
  intros queue w.
  apply (rejections_land_on_first_item Sample.toISOString Sample.randomUUID
           Sample.JSON_stringify Sample.JSON_parse Sample.post_reject_twice
           (Sample.service 10) [0; 1] w
           {| results := [BatchResult.mk "t1" false None (Some "conflict"%string);
                          BatchResult.mk "t1" false None None] |}
           "t1" 0 (Sample.item "q1" "t1" 0)).
  - intros r Hr. apply list_elem_of_In in Hr.
    destruct Hr as [<- | [<- | []]];
      (eexists; split; [reflexivity | ]; exists (JObj []); reflexivity).
  - reflexivity.
  - repeat constructor.
  - reflexivity.
  - reflexivity.
Defined.

(** X13 on an answer that rejects a task the batch does not hold. *)
Lemma unknown_rejections_witness :
  let w := Sample.syncing [Sample.live_record] Sample.three_queued in
  returns
    (sync_batch Sample.toISOString Sample.randomUUID Sample.JSON_stringify
       Sample.JSON_parse Sample.post_reject_unknown (Sample.service 10)
       [0; 1; 2]) w
    (fun _ w' =>
       heap w' = heap w /\ sync_queue w' = sync_queue w /\
       tasks w' = tasks w /\ dates w' = dates w /\ uuids w' = uuids w /\
       successCount w' = successCount w /\
       errorCount w' = (errorCount w + Z.of_nat 1)%Z).
Proof.
  intros w.
  apply (unknown_rejections_only_count Sample.toISOString Sample.randomUUID
           Sample.JSON_stringify Sample.JSON_parse Sample.post_reject_unknown
           (Sample.service 10) [0; 1; 2] w
           {| results := [BatchResult.mk "t9" false None None] |}).
  - intros r Hr. apply list_elem_of_In in Hr.
    destruct Hr as [<- | [<- | [<- | []]]];
      (eexists; split; [reflexivity | ]; exists (JObj []); reflexivity).
  - reflexivity.
  - repeat constructor.
Defined.

(** X14 on a queue of three with batch size 2. *)
Lemma accepted_sync_witness :
  let w := Sample.world [Sample.live_record] Sample.three_queued in
  returns
    (sync Sample.toISOString Sample.randomUUID Sample.JSON_stringify
       Sample.JSON_parse Sample.post_accept (Sample.service 2) 4) w
    (fun r w' =>
       r = SyncResult.mk (Z.of_nat (length (sync_queue w))) 0
             (Z.of_nat (length (sync_queue w))) /\
       sync_queue w' = []).
Proof.
  intros w.
  apply (accepted_sync_drains_the_queue Sample.toISOString Sample.randomUUID
           Sample.JSON_stringify Sample.JSON_parse Sample.post_accept
           (Sample.service 2) 2%Z w 4).
  - intros n request. eexists. split; [reflexivity | ]. split.
    + simpl. rewrite <- list_fmap_compose. reflexivity.
    + simpl. apply Forall_fmap, Forall_forall. reflexivity.
  - reflexivity.
  - lia.
  - repeat constructor; exists (JObj []); reflexivity.
  - simpl. lia.
Defined.

(** X15 on a queue of three with batch size 2. *)
Lemma refused_sync_witness :
  let w := Sample.world [Sample.live_record] Sample.three_queued in
  returns
    (sync Sample.toISOString Sample.randomUUID Sample.JSON_stringify
       Sample.JSON_parse Sample.post_down (Sample.service 2) 4) w
    (fun r w' =>
       r = SyncResult.mk 0 (Z.of_nat (length (sync_queue w)))
             (Z.of_nat (length (sync_queue w))) /\
       heap w' = bump_retryCount <$> sync_queue w /\
       NoDup (SyncQueueItem.id <$> sync_queue w') /\
       length (sync_queue w') <= length (sync_queue w) /\
       (forall q', q' ∈ sync_queue w' ->
          exists q, q ∈ sync_queue w /\ static q' = static q /\
            SyncQueueItem.retryCount q' = (SyncQueueItem.retryCount q + 1)%Z /\
            (SyncQueueItem.retryCount q' <= 3)%Z) /\
       (forall q, q ∈ sync_queue w ->
          (forall q0, q0 ∈ sync_queue w ->
             SyncQueueItem.taskId q0 = SyncQueueItem.taskId q ->
             (SyncQueueItem.retryCount q0 < 3)%Z) ->
          exists q', q' ∈ sync_queue w' /\ static q' = static q)).
Proof.
  intros w.
  apply (refused_sync_charges_every_entry Sample.toISOString Sample.randomUUID
           Sample.JSON_stringify Sample.JSON_parse Sample.post_down
           (Sample.service 2) 2%Z w 4).
  - intros n request. eexists. reflexivity.
  - reflexivity.
  - lia.
  - apply (bool_decide_unpack _). vm_compute. exact I.
  - simpl. lia.
Defined.

(** X16 on a queue of three with batch size 2. *)
Lemma four_refused_syncs_witness :
  let w := Sample.world [Sample.live_record] Sample.three_queued in
  let run := sync Sample.toISOString Sample.randomUUID Sample.JSON_stringify
               Sample.JSON_parse Sample.post_down (Sample.service 2) 4 in
  returns (run ;;; run ;;; run ;;; run) w (fun _ w' => sync_queue w' = []).
Proof.
  intros w run.
  apply (four_refused_syncs_empty_the_queue Sample.toISOString
           Sample.randomUUID Sample.JSON_stringify Sample.JSON_parse
           Sample.post_down (Sample.service 2) 2%Z w 4).
  - intros n request. eexists. reflexivity.
  - reflexivity.
  - lia.
  - apply (bool_decide_unpack _). vm_compute. exact I.
  - intros q Hq. apply list_elem_of_In in Hq.
    destruct Hq as [<- | [<- | [<- | []]]]; simpl; lia.
  - simpl. lia.
Defined.

(** X17 on the confirmation of a delete: the record is soft-deleted, two
    operations of the task are queued. *)
Lemma status_propagation_hidden_witness :
  let w := Sample.world [Sample.deleted_record]
             [Sample.item "q1" "t2" 0; Sample.item "q2" "t1" 0;
              Sample.item "q3" "t2" 0] in
  updateSyncStatus Sample.toISOString Sample.randomUUID Sample.JSON_stringify
    "t2" StSynced None w =
  (Normal tt,
   if decide (StSynced = StSynced)
   then set_sync_queue (fun l => List.filter (Database.other_task "t2") l)
          (set_dates S w)
   else set_dates S w).
Proof.
  intros w.
  apply (status_propagation_skips_hidden_records Sample.toISOString
           Sample.randomUUID Sample.JSON_stringify "t2" StSynced None w).
  intros task [Hstored Hlive]. vm_compute in Hstored.
  injection Hstored as <-. discriminate Hlive.
Defined.

(** X18 on an answer that carries the id the server assigned. *)
Lemma status_propagation_live_witness :
  let w := Sample.world [Sample.live_record] [Sample.item "q1" "t1" 0] in
  let serverData := PartialTask.mk (Some "srv-7"%string) None None None None
                      None None None None None in
  returns
    (updateSyncStatus Sample.toISOString Sample.randomUUID
       Sample.JSON_stringify "t1" StSynced (Some serverData)) w
    (fun _ w' =>
       exists stored,
         tasks w' !! "t1"%string = Some stored /\
         Task.lastSyncedAt stored = Some (Sample.toISOString (dates w)) /\
         Task.serverId stored =
           match Some serverData with
           | Some sd =>
               match PartialTask.id sd with
               | Some i =>
                   if truthy i then Some i
                   else Task.serverId Sample.live_record
               | None => Task.serverId Sample.live_record
               end
           | None => Task.serverId Sample.live_record
           end /\
         content stored = content Sample.live_record /\
         forall id', id' <> "t1"%string -> tasks w' !! id' = tasks w !! id').
Proof.
  intros w serverData.
  apply (status_propagation_on_live_record Sample.toISOString
           Sample.randomUUID Sample.JSON_stringify "t1" StSynced
           (Some serverData) w Sample.live_record).
  split; reflexivity.
Defined.

(** X19 on the second item of a queue of three, failing for the second
    time. *)
Lemma handleSyncError_below_ceiling_witness :
  let w := Sample.syncing [Sample.live_record] Sample.three_queued in
  handleSyncError Sample.toISOString Sample.randomUUID Sample.JSON_stringify
    1 "Network Error" w =
  (Normal tt,
   set_sync_queue
     (fun l => Database.update_retry "q2" (1 + 1) "Network Error" <$> l)
     (set_heap (alter bump_retryCount 1) w)).
Proof.
  intros w.
  apply (handleSyncError_below_ceiling Sample.toISOString Sample.randomUUID
           Sample.JSON_stringify 1 "Network Error" w (Sample.item "q2" "t2" 1)).
  - reflexivity.
  - simpl. lia.
Defined.

(** X20 with the health endpoint up: the handler runs the sync and answers
    200. *)
Lemma post_sync_gate_witness :
  let w := Sample.world [] Sample.three_queued in
  exists result w',
    sync Sample.toISOString Sample.randomUUID Sample.JSON_stringify
      Sample.JSON_parse Sample.post_accept (router_syncService Sample.env) 4 w
    = (Normal result, w') /\
    post_sync Sample.toISOString Sample.randomUUID Sample.JSON_stringify
      Sample.JSON_parse Sample.post_accept Sample.http_up Sample.env 4 w
    = (Normal {| status_code := 200;
                 body := SyncCompletedBody "Sync completed" result |}, w').
Proof.
  intros w.
  destruct (post_sync_gate Sample.toISOString Sample.randomUUID
              Sample.JSON_stringify Sample.JSON_parse Sample.post_accept
              Sample.http_up Sample.env 4 w)
    as (connected & Hprobe & _ & Hup).
  assert (connected = true) as Hconnected.
  { vm_compute in Hprobe. injection Hprobe as <-. reflexivity. }
  apply (Hup Hconnected 10%Z).
  - reflexivity.
  - lia.
  - simpl. lia.
Defined.
